(** * IMDb Top 1000 analysis script: a shallow embedding of
    [scripts/analysis_script.py] and the properties of its three steps
    (download, load, report).

    Conventions of the embedding:
    - a Python [str] is a [string]; its characters are read as the code
      points U+0000..U+00FF;
    - an INTEGER column is [Z]; a REAL column is an exact rational [Q],
      the decimal number its cell shows; a cell that pandas reads as NaN
      and SQLite stores as NULL is [None];
    - [AVG] and [ROUND(_, 2)] are computed exactly and kept in lowest
      terms.  The engine computes them in binary floating point, and
      its result can be the neighbouring hundredth when the exact
      average lies on or next to a half.  The properties of the average
      cells are therefore stated for data of bounded size and fix the
      reported hundredth up to this choice ([to_two_decimals]);
    - the file system is a flat map from paths to nodes: the directory
      above a path is taken to exist, which it does for every path [main]
      uses; the network log and the standard output complete the explicit
      [world]; a Python exception keeps the effects performed before it
      was raised;
    - pandas' CSV reader and writer, Matplotlib's renderer and the remote
      server are parameters of the embedding; the SQL engine is embedded
      as the meaning of each of the eleven statements on the four typed
      tables of the Loader, and is a parameter where a property is about
      statements the engine rejects ([run_queries_on]). *)

From Stdlib Require Import Ascii String ZArith QArith Qround Qabs Lqa.
From Stdlib Require OrderedTypeEx.
From stdpp Require Import gmap strings list fin_maps sorting.

Local Open Scope Z_scope.
Local Open Scope string_scope.
Local Open Scope list_scope.

(** ** Python string operations *)

Module Py.

(** [str.isspace] on the code points below 256. *)
Definition isspace (c : ascii) : bool :=
  let n := N_of_ascii c in
  ((9 <=? n) && (n <=? 13) || (28 <=? n) && (n <=? 32)
   || (n =? 133) || (n =? 160))%N.

(** [s.split(sep)] for a one-character separator. *)
Fixpoint split (sep : ascii) (s : string) : list string :=
  match s with
  | EmptyString => [EmptyString]
  | String c s' =>
      if Ascii.eqb c sep then EmptyString :: split sep s'
      else match split sep s' with
           | [] => [String c EmptyString]
           | tok :: toks => String c tok :: toks
           end
  end.

(** [s.lstrip()], [s.rstrip()] and [s.strip()] without argument. *)
Fixpoint lstrip (s : string) : string :=
  match s with
  | EmptyString => EmptyString
  | String c s' => if isspace c then lstrip s' else s
  end.

Fixpoint rstrip (s : string) : string :=
  match s with
  | EmptyString => EmptyString
  | String c s' =>
      match rstrip s' with
      | EmptyString => if isspace c then EmptyString else String c EmptyString
      | r => String c r
      end
  end.

Definition strip (s : string) : string := rstrip (lstrip s).

(** [sep.join(parts)]. *)
Fixpoint join (sep : string) (parts : list string) : string :=
  match parts with
  | [] => EmptyString
  | [p] => p
  | p :: ps => p +:+ sep +:+ join sep ps
  end.

(** [s.count(c)] for a one-character needle. *)
Fixpoint count (c : ascii) (s : string) : nat :=
  match s with
  | EmptyString => 0%nat
  | String c' s' => ((if Ascii.eqb c' c then 1 else 0) + count c s')%nat
  end.

(** [s.startswith(p)]. *)
Fixpoint startswith (p s : string) : bool :=
  match p, s with
  | EmptyString, _ => true
  | String a p', String b s' => Ascii.eqb a b && startswith p' s'
  | String _ _, EmptyString => false
  end.

(** [s.replace(old, new)] for a non-empty [old]: non-overlapping
    occurrences, leftmost first.  [skip] counts the characters of the
    occurrence being replaced that are still to be dropped. *)
Fixpoint replace_from (old new : string) (skip : nat) (s : string) : string :=
  match s with
  | EmptyString => EmptyString
  | String c s' =>
      match skip with
      | S k => replace_from old new k s'
      | O =>
          if startswith old s
          then new +:+ replace_from old new (String.length old - 1) s'
          else String c (replace_from old new 0 s')
      end
  end.

Definition replace (old new s : string) : string := replace_from old new 0 s.

(** Every character of [s] is white space. *)
Fixpoint all_space (s : string) : bool :=
  match s with
  | EmptyString => true
  | String c s' => isspace c && all_space s'
  end.

(** [s] starts, resp. ends, with a white space character. *)
Definition starts_with_space (s : string) : bool :=
  match s with
  | EmptyString => false
  | String c _ => isspace c
  end.

Fixpoint ends_with_space (s : string) : bool :=
  match s with
  | EmptyString => false
  | String c EmptyString => isspace c
  | String _ s' => ends_with_space s'
  end.

End Py.

(** ** Data model *)

(** One record of the dataset, restricted to the columns the script reads.
    [Genre] and [Director] are text columns and [Revenue], [Runtime] are
    numeric columns that may hold missing values. *)
Record movie := Movie {
  Rank : Z;
  Title : string;
  Genre : option string;
  Director : option string;
  Year : Z;
  Runtime : option Z;
  Rating : Q;
  Revenue : option Q
}.

(** The four tables of the store; [None] when the table does not exist. *)
Record database := Database {
  tbl_movies : option (list movie);
  tbl_movie_genres : option (list (Z * string));
  tbl_directors : option (list (option string * Z));
  tbl_movie_directors : option (list (Z * option Z))
}.

Definition empty_database : database := Database None None None None.

(** ** Loader: the frames [build_database] derives from the dataset *)

(** [str(x)] of a text cell: a missing value is the float NaN. *)
Definition str (cell : option string) : string :=
  match cell with
  | Some s => s
  | None => "nan"
  end.

(** Line 59: [[g.strip() for g in str(row["Genre"]).split(",")]]. *)
Definition genres_of (row : movie) : list string :=
  map Py.strip (Py.split "," (str (Genre row))).

(** Lines 57-61: the accumulator [records] after the two nested loops. *)
Definition genre_records (movies : list movie) : list (Z * string) :=
  foldl
    (fun records row =>
       foldl (fun records g => records ++ [(Rank row, g)]) records (genres_of row))
    [] movies.

(** [Series.unique()]: one scan that keeps every value not seen before. *)
Fixpoint unique_from {A} `{EqDecision A} (seen : list A) (l : list A) : list A :=
  match l with
  | [] => []
  | x :: l' =>
      if decide (x ∈ seen) then unique_from seen l'
      else x :: unique_from (x :: seen) l'
  end.

Definition unique {A} `{EqDecision A} (l : list A) : list A := unique_from [] l.

(** Lines 65-66: the frame [unique_directors] with its [director_id]
    column, the default 0-based index plus one. *)
Definition unique_directors (movies : list movie) : list (option string * Z) :=
  imap (fun index d => (d, Z.of_nat index + 1)) (unique (map Director movies)).

(** [left.merge(right, on="Director", how="left")]: every left row, in the
    left frame's order, with each right row of equal key (missing values
    match each other), or with a missing [director_id] when there is none. *)
Definition merge_left (left : list (Z * option string))
    (right : list (option string * Z)) : list (Z * option string * option Z) :=
  left ≫= (fun l =>
    match filter (fun r => r.1 = l.2) right with
    | [] => [(l.1, l.2, None)]
    | matches => map (fun r => (l.1, l.2, Some r.2)) matches
    end).

(** Lines 68-73: [movies_dir[["Rank", "director_id"]]]. *)
Definition movies_dir (movies : list movie) : list (Z * option Z) :=
  map (fun r => (r.1.1, r.2))
      (merge_left (map (fun m => (Rank m, Director m)) movies)
                  (unique_directors movies)).

(** The dataset of the specification's worked example. *)
Definition toy_movies : list movie :=
  [ Movie 1 "A" (Some "Drama, War") (Some "X") 2000 (Some 120) (8 # 1) (Some (50 # 1));
    Movie 2 "B" (Some "Drama") (Some "X") 2001 (Some 90) (7 # 1) None ].


(** ** The eleven statements of [run_queries] *)

Inductive statement :=
  Q01 | Q02 | Q03 | Q04 | Q05 | Q06 | Q07 | Q08 | Q09 | Q10 | Q11.


#[global] Instance statement_eq_dec : EqDecision statement.
Proof. solve_decision. Defined.


(** The text of each statement, as the triple-quoted literals of lines
    81-167 hold it (before [strip]). *)
Definition sql_text (q : statement) : string :=
  match q with
  | Q01 => "
            SELECT Title, Year, Rating
            FROM movies
            ORDER BY Rating DESC
            LIMIT 10;
        "
  | Q02 => "
            SELECT mg.Genre, ROUND(AVG(m.Rating), 2) AS avg_rating
            FROM movies m
            JOIN movie_genres mg ON mg.Rank = m.Rank
            GROUP BY mg.Genre
            ORDER BY avg_rating DESC;
        "
  | Q03 => "
            SELECT Director, COUNT(*) AS movie_count
            FROM movies
            GROUP BY Director
            ORDER BY movie_count DESC
            LIMIT 10;
        "
  | Q04 => "
            SELECT Year, COUNT(*) AS movie_count
            FROM movies
            GROUP BY Year
            ORDER BY Year DESC;
        "
  | Q05 => "
            SELECT Year, Title, Rating
            FROM (
                SELECT Year, Title, Rating,
                       ROW_NUMBER() OVER (PARTITION BY Year ORDER BY Rating DESC) AS rn
                FROM movies
            ) t
            WHERE rn = 1
            ORDER BY Year DESC;
        "
  | Q06 => "
            SELECT Year, Title, [Revenue (Millions)] AS Revenue
            FROM (
                SELECT Year, Title, [Revenue (Millions)],
                       ROW_NUMBER() OVER (PARTITION BY Year ORDER BY [Revenue (Millions)] DESC) AS rn
                FROM movies
                WHERE [Revenue (Millions)] IS NOT NULL
            ) t
            WHERE rn <= 5
            ORDER BY Year DESC, rn;
        "
  | Q07 => "
            SELECT Director, ROUND(AVG([Revenue (Millions)]), 2) AS avg_revenue, COUNT(*) AS movies_count
            FROM movies
            WHERE [Revenue (Millions)] IS NOT NULL
            GROUP BY Director
            HAVING COUNT(*) >= 2
            ORDER BY avg_revenue DESC
            LIMIT 10;
        "
  | Q08 => "
            SELECT mg.Genre, COUNT(*) AS movie_count
            FROM movie_genres mg
            GROUP BY mg.Genre
            ORDER BY movie_count DESC
            LIMIT 5;
        "
  | Q09 => "
            SELECT mg.Genre, ROUND(AVG([Runtime (Minutes)]), 2) AS avg_runtime
            FROM movies m
            JOIN movie_genres mg ON mg.Rank = m.Rank
            GROUP BY mg.Genre
            ORDER BY avg_runtime DESC;
        "
  | Q10 => "
            SELECT (Year/10)*10 AS decade, ROUND(AVG(Rating), 2) AS avg_rating, COUNT(*) AS movie_count
            FROM movies
            GROUP BY decade
            ORDER BY decade;
        "
  | Q11 => "
            SELECT Genre, Title, Rating
            FROM (
                SELECT mg.Genre, m.Title, m.Rating,
                       ROW_NUMBER() OVER (PARTITION BY mg.Genre ORDER BY m.Rating DESC) AS rn
                FROM movie_genres mg
                JOIN movies m ON m.Rank = mg.Rank
            ) t
            WHERE rn <= 3
            ORDER BY Genre ASC, rn;
        "
  end.

(** The dictionary [queries], in insertion order. *)
Definition queries : list (string * statement) :=
  [ ("01_top_10_highest_rated.sql", Q01);
    ("02_average_rating_per_genre.sql", Q02);
    ("03_movies_count_per_director.sql", Q03);
    ("04_movies_count_per_year.sql", Q04);
    ("05_top_movie_per_year.sql", Q05);
    ("06_top_5_revenue_per_year.sql", Q06);
    ("07_avg_revenue_per_director.sql", Q07);
    ("08_top_5_genres_by_count.sql", Q08);
    ("09_avg_runtime_per_genre.sql", Q09);
    ("10_avg_rating_per_decade.sql", Q10);
    ("11_top_3_movies_per_genre.sql", Q11) ].

(** ** The SQL engine: the semantics of the eleven statements

    A result set is a [frame]: column names and rows of dynamically typed
    cells.  Rows of a table are scanned in insertion order.  Where a
    statement leaves the order of rows open (rows with equal sort keys,
    groups before [ORDER BY]), the embedding keeps scan order; the
    properties below do not depend on that choice. *)

Inductive value :=
  | Null
  | Int (n : Z)
  | Real (x : Q)
  | Text (s : string).

Record frame := Frame {
  columns : list string;
  rows : list (list value)
}.

Module Sql.

(** SQLite's order on values: NULL, then numbers by value, then text in
    binary collation. *)
Definition compare (a b : value) : comparison :=
  match a, b with
  | Null, Null => Eq
  | Null, _ => Lt
  | _, Null => Gt
  | Int x, Int y => (x ?= y)%Z
  | Int x, Real y => (inject_Z x ?= y)%Q
  | Real x, Int y => (x ?= inject_Z y)%Q
  | Real x, Real y => (x ?= y)%Q
  | Text s, Text t => String.compare s t
  | _, Text _ => Lt
  | Text _, _ => Gt
  end.

(** One term of an [ORDER BY] clause, and a list of them. *)
Definition ordering (A : Type) := A -> A -> comparison.

Definition asc {A} (key : A -> value) : ordering A :=
  fun a b => compare (key a) (key b).

Definition desc {A} (key : A -> value) : ordering A :=
  fun a b => compare (key b) (key a).

Definition then_by {A} (o1 o2 : ordering A) : ordering A :=
  fun a b => match o1 a b with Eq => o2 a b | c => c end.

(** Sorting: [x] goes in front of the first row that does not precede it,
    and rows are inserted from the last to the first, so rows that compare
    equal keep their scan order. *)
Fixpoint insert_by {A} (o : ordering A) (x : A) (l : list A) : list A :=
  match l with
  | [] => [x]
  | y :: l' =>
      match o x y with
      | Gt => y :: insert_by o x l'
      | _ => x :: l
      end
  end.

Definition order_by {A} (o : ordering A) (l : list A) : list A :=
  foldr (insert_by o) [] l.

(** [LIMIT n]. *)
Definition limit {A} (n : nat) (l : list A) : list A := take n l.

(** [GROUP BY key]: one group per distinct key, with the rows of the key. *)
Definition group_by {A K} `{EqDecision K} (key : A -> K) (l : list A)
    : list (K * list A) :=
  map (fun k => (k, filter (fun a => key a = k) l)) (unique (map key l)).

(** [l JOIN r ON r.kr = l.kl]. *)
Definition join {A B K} `{EqDecision K} (kl : A -> K) (kr : B -> K)
    (l : list A) (r : list B) : list (A * B) :=
  l ≫= (fun a => map (pair a) (filter (fun b => kr b = kl a) r)).

(** [ROW_NUMBER() OVER (PARTITION BY part ORDER BY o)]. *)
Definition row_number {A K} `{EqDecision K} (part : A -> K) (o : ordering A)
    (l : list A) : list (A * Z) :=
  group_by part l ≫= (fun g => imap (fun i a => (a, Z.of_nat i + 1)) (order_by o g.2)).

(** [COUNT( * )]. *)
Definition count_rows {A} (g : list A) : Z := Z.of_nat (length g).

(** [AVG(x)]: the mean of the values that are not NULL, NULL when there is
    none.  The mean is exact here; the engine adds and divides in binary
    floating point. *)
Definition avg (xs : list (option Q)) : option Q :=
  match omap id xs with
  | [] => None
  | present =>
      Some (Qred (foldr Qplus 0%Q present / inject_Z (Z.of_nat (length present))))
  end.

(** [ROUND(x, 2)]: to the nearest hundredth, halves away from zero, of the
    exact [x]; the engine rounds the binary number it has computed. *)
Definition round2 (x : Q) : Q :=
  let scaled := (x * inject_Z 100)%Q in
  let n := if Qle_bool 0 x then Qfloor (scaled + (1 # 2)) else Qceiling (scaled - (1 # 2)) in
  Qred (n # 100).

Definition real (x : option Q) : value :=
  match x with Some q => Real q | None => Null end.

Definition text (s : option string) : value :=
  match s with Some t => Text t | None => Null end.

Definition rounded_avg (xs : list (option Q)) : value := real (round2 <$> avg xs).

(** [(Year/10)*10] on INTEGER operands: the quotient truncates toward zero. *)
Definition decade (year : Z) : Z := (year ÷ 10) * 10.

(** 01: top 10 movies by rating. *)
Definition q01 (db : database) : option frame :=
  movies ← tbl_movies db;
  Some (Frame ["Title"; "Year"; "Rating"]
    (map (fun m => [Text (Title m); Int (Year m); Real (Rating m)])
       (limit 10 (order_by (desc (fun m => Real (Rating m))) movies)))).

(** The rows of [movies m JOIN movie_genres mg ON mg.Rank = m.Rank]. *)
Definition movies_with_genres (movies : list movie) (mg : list (Z * string))
    : list (movie * (Z * string)) :=
  join Rank fst movies mg.

(** 02: average rating per genre. *)
Definition q02 (db : database) : option frame :=
  movies ← tbl_movies db;
  movie_genres ← tbl_movie_genres db;
  let groups := group_by (fun r => r.2.2) (movies_with_genres movies movie_genres) in
  let result :=
    map (fun g => [Text g.1; rounded_avg (map (fun r => Some (Rating r.1)) g.2)]) groups in
  Some (Frame ["Genre"; "avg_rating"]
    (order_by (desc (fun r => nth 1 r Null)) result)).

(** 03: top 10 directors by number of movies. *)
Definition q03 (db : database) : option frame :=
  movies ← tbl_movies db;
  let result :=
    map (fun g => [text g.1; Int (count_rows g.2)]) (group_by Director movies) in
  Some (Frame ["Director"; "movie_count"]
    (limit 10 (order_by (desc (fun r => nth 1 r Null)) result))).

(** 04: number of movies per year. *)
Definition q04 (db : database) : option frame :=
  movies ← tbl_movies db;
  let result :=
    map (fun g => [Int g.1; Int (count_rows g.2)]) (group_by Year movies) in
  Some (Frame ["Year"; "movie_count"]
    (order_by (desc (fun r => nth 0 r Null)) result)).

(** 05: the highest rated movie of each year. *)
Definition q05 (db : database) : option frame :=
  movies ← tbl_movies db;
  let t := row_number Year (desc (fun m => Real (Rating m))) movies in
  let kept := filter (fun r => r.2 = 1) t in
  Some (Frame ["Year"; "Title"; "Rating"]
    (map (fun r => [Int (Year r.1); Text (Title r.1); Real (Rating r.1)])
       (order_by (desc (fun r => Int (Year r.1))) kept))).

(** 06: the five highest revenues of each year. *)
Definition q06 (db : database) : option frame :=
  movies ← tbl_movies db;
  let known := filter (fun m => Revenue m ≠ None) movies in
  let t := row_number Year (desc (fun m => real (Revenue m))) known in
  let kept := filter (fun r => r.2 <= 5) t in
  Some (Frame ["Year"; "Title"; "Revenue"]
    (map (fun r => [Int (Year r.1); Text (Title r.1); real (Revenue r.1)])
       (order_by (then_by (desc (fun r => Int (Year r.1))) (asc (fun r => Int r.2)))
          kept))).

(** 07: average revenue of the directors with two known revenues or more. *)
Definition q07 (db : database) : option frame :=
  movies ← tbl_movies db;
  let known := filter (fun m => Revenue m ≠ None) movies in
  let having := filter (fun g => 2 <= count_rows g.2) (group_by Director known) in
  let result :=
    map (fun g => [text g.1; rounded_avg (map Revenue g.2); Int (count_rows g.2)])
        having in
  Some (Frame ["Director"; "avg_revenue"; "movies_count"]
    (limit 10 (order_by (desc (fun r => nth 1 r Null)) result))).

(** 08: the five genres with most movies. *)
Definition q08 (db : database) : option frame :=
  movie_genres ← tbl_movie_genres db;
  let result :=
    map (fun g => [Text g.1; Int (count_rows g.2)]) (group_by snd movie_genres) in
  Some (Frame ["Genre"; "movie_count"]
    (limit 5 (order_by (desc (fun r => nth 1 r Null)) result))).

(** 09: average runtime per genre. *)
Definition q09 (db : database) : option frame :=
  movies ← tbl_movies db;
  movie_genres ← tbl_movie_genres db;
  let groups := group_by (fun r => r.2.2) (movies_with_genres movies movie_genres) in
  let result :=
    map (fun g =>
           [Text g.1; rounded_avg (map (fun r => inject_Z <$> Runtime r.1) g.2)])
        groups in
  Some (Frame ["Genre"; "avg_runtime"]
    (order_by (desc (fun r => nth 1 r Null)) result)).

(** 10: average rating and number of movies per decade. *)
Definition q10 (db : database) : option frame :=
  movies ← tbl_movies db;
  let result :=
    map (fun g => [Int g.1; rounded_avg (map (fun m => Some (Rating m)) g.2);
                   Int (count_rows g.2)])
        (group_by (fun m => decade (Year m)) movies) in
  Some (Frame ["decade"; "avg_rating"; "movie_count"]
    (order_by (asc (fun r => nth 0 r Null)) result)).

(** 11: the three best rated movies of each genre. *)
Definition q11 (db : database) : option frame :=
  movie_genres ← tbl_movie_genres db;
  movies ← tbl_movies db;
  let joined := join fst Rank movie_genres movies in
  let t := row_number (fun r => r.1.2) (desc (fun r => Real (Rating r.2))) joined in
  let kept := filter (fun r => r.2 <= 3) t in
  Some (Frame ["Genre"; "Title"; "Rating"]
    (map (fun r => [Text r.1.1.2; Text (Title r.1.2); Real (Rating r.1.2)])
       (order_by (then_by (asc (fun r => Text r.1.1.2)) (asc (fun r => Int r.2)))
          kept))).

(** The result of a statement on a store; [None] when the engine rejects
    it because a table it names does not exist.  The tables are typed, so
    a table that exists has the columns of the Loader's frame. *)
Definition execute (q : statement) (db : database) : option frame :=
  match q with
  | Q01 => q01 db | Q02 => q02 db | Q03 => q03 db | Q04 => q04 db
  | Q05 => q05 db | Q06 => q06 db | Q07 => q07 db | Q08 => q08 db
  | Q09 => q09 db | Q10 => q10 db | Q11 => q11 db
  end.

End Sql.

(** ** The world of the script: files, network, standard output *)

(** What a regular file holds: text or bytes, or an SQLite database. *)
Inductive content :=
  | Bytes (data : string)
  | Sqlite (db : database).

Inductive node :=
  | File (c : content)
  | Directory.

(** The file system by path, the URLs requested so far, and the lines
    printed so far. *)
Record world := World {
  fs : gmap string node;
  requests : list string;
  stdout : list string
}.

(** The exceptions the modelled calls raise.  [DatabaseError q] is pandas'
    "Execution failed on sql ..." for the statement [q]; [RenderError]
    stands for whatever Matplotlib raises while a figure is drawn. *)
Inductive exn :=
  | URLError
  | FileNotFoundError
  | FileExistsError
  | IsADirectoryError
  | ParserError
  | OperationalError
  | RenderError
  | DatabaseError (q : statement).

Inductive outcome (A : Type) :=
  | Returned (a : A) (w : world)
  | Raised (e : exn) (w : world).
Arguments Returned {A} a w.
Arguments Raised {A} e w.

(** A computation with effects on the world that returns or raises. *)
Definition io (A : Type) : Type := world -> outcome A.

#[global] Instance io_ret : MRet io := fun A a w => Returned a w.

#[global] Instance io_bind : MBind io := fun A B k m w =>
  match m w with
  | Returned a w' => k a w'
  | Raised e w' => Raised e w'
  end.

Definition raise {A} (e : exn) : io A := fun w => Raised e w.

(** [for x in l: body(x)]. *)
Fixpoint for_each {A} (l : list A) (body : A -> io unit) : io unit :=
  match l with
  | [] => mret tt
  | x :: l' => body x ;; for_each l' body
  end.

(** What the remote server answers to one GET: nothing, a response whose
    body cannot be read to its end, or a response with its body. *)
Inductive response :=
  | Unreachable
  | Truncated
  | Body (data : string).

Module Os.

(** The node at [path] becomes [n]. *)
Definition write_node (path : string) (n : node) : io unit :=
  fun w => Returned tt (World (<[path := n]> (fs w)) (requests w) (stdout w)).

(** [print(line)]. *)
Definition print (line : string) : io unit :=
  fun w => Returned tt (World (fs w) (requests w) (stdout w ++ [line])).

(** [path.exists()]. *)
Definition path_exists (path : string) : io bool :=
  fun w => Returned (bool_decide (is_Some (fs w !! path))) w.

(** [open(path, "w")] / [open(path, "wb")]: creates or truncates the file. *)
Definition open_w (path : string) : io unit :=
  fun w =>
    match fs w !! path with
    | Some Directory => Raised IsADirectoryError w
    | _ => write_node path (File (Bytes "")) w
    end.

(** Opening [path] for writing, writing [data] and closing it. *)
Definition write_file (path data : string) : io unit :=
  open_w path ;; write_node path (File (Bytes data)).

(** The text of the file at [path], opened for reading. *)
Definition read_file (path : string) : io string :=
  fun w =>
    match fs w !! path with
    | None => Raised FileNotFoundError w
    | Some Directory => Raised IsADirectoryError w
    | Some (File (Bytes data)) => Returned data w
    | Some (File (Sqlite _)) => Raised ParserError w
    end.

(** [path.mkdir(parents=True, exist_ok=True)], the directory above [path]
    being there: the call then makes [path] and nothing else.  (Where
    directories above [path] are missing the call makes them as well.) *)
Definition mkdir (path : string) : io unit :=
  fun w =>
    match fs w !! path with
    | Some (File _) => Raised FileExistsError w
    | _ => write_node path Directory w
    end.

(** [dir / name]. *)
Definition join (dir name : string) : string := dir +:+ "/" +:+ name.

End Os.

Module Sqlite3.

(** [sqlite3.connect(path)]: the connection is the path of the database
    file, which is created empty when it does not exist. *)
Definition connect (path : string) : io string :=
  fun w =>
    match fs w !! path with
    | None => (Os.write_node path (File (Sqlite empty_database)) ;; mret path) w
    | Some Directory => Raised OperationalError w
    | Some (File _) => Returned path w
    end.

(** The store behind a connection, read when a statement runs; a file of
    zero bytes is an empty database, any other text is not a database. *)
Definition store (conn : string) (w : world) : option database :=
  match fs w !! conn with
  | Some (File (Sqlite db)) => Some db
  | Some (File (Bytes "")) => Some empty_database
  | _ => None
  end.

(** [conn.close()]. *)
Definition close (conn : string) : io unit := mret tt.

End Sqlite3.

(** ** The script *)

Definition REPO_URL : string :=
  "https://github.com/peetck/IMDB-Top1000-Movies/raw/master/IMDB-Movie-Data.csv".

(** The character ["\n"]. *)
Definition newline : string := String (ascii_of_nat 10) EmptyString.

(** Replacing one table of the store. *)
Definition set_movies (t : list movie) (db : database) : database :=
  Database (Some t) (tbl_movie_genres db) (tbl_directors db) (tbl_movie_directors db).

Definition set_movie_genres (t : option (list (Z * string))) (db : database) : database :=
  Database (tbl_movies db) t (tbl_directors db) (tbl_movie_directors db).

Definition set_directors (t : list (option string * Z)) (db : database) : database :=
  Database (tbl_movies db) (tbl_movie_genres db) (Some t) (tbl_movie_directors db).

Definition set_movie_directors (t : list (Z * option Z)) (db : database) : database :=
  Database (tbl_movies db) (tbl_movie_genres db) (tbl_directors db) (Some t).

(** The store [build_database] leaves for the dataset [movies]. *)
Definition loaded (movies : list movie) : database :=
  Database (Some movies) (Some (genre_records movies))
           (Some (unique_directors movies)) (Some (movies_dir movies)).

Section Script.

(** pandas' parser of the dataset ([None]: the text is not a table with the
    columns the script reads), pandas' CSV writer, Matplotlib's rendering
    of a table figure to PNG from the number of rows, the column labels and
    the cells ([None]: the figure cannot be drawn), and the remote server. *)
Variable read_csv : string -> option (list movie).
Variable to_csv : frame -> string.
Variable render : nat -> list string -> list (list value) -> option string.
Variable remote : string -> response.

(** [urllib.request.urlopen(req)]. *)
Definition urlopen (url : string) : io response :=
  fun w =>
    let w' := World (fs w) (requests w ++ [url]) (stdout w) in
    match remote url with
    | Unreachable => Raised URLError w'
    | r => Returned r w'
    end.

(** [response.read()]. *)
Definition read (r : response) : io string :=
  match r with
  | Body data => mret data
  | _ => raise URLError
  end.

(** Lines 34-43. *)
Definition download_csv (csv_path : string) : io unit :=
  present ← Os.path_exists csv_path;
  if (present : bool) then
    Os.print ("CSV already present at " +:+ csv_path)
  else
    Os.print ("Downloading data to " +:+ csv_path +:+ "…") ;;
    response ← urlopen REPO_URL;
    Os.open_w csv_path ;;
    data ← read response;
    Os.write_node csv_path (File (Bytes data)) ;;
    Os.print "Download complete.".

(** [pd.read_csv(path)]. *)
Definition pd_read_csv (path : string) : io (list movie) :=
  data ← Os.read_file path;
  match read_csv data with
  | Some movies => mret movies
  | None => raise ParserError
  end.

(** [frame.to_sql(name, conn, if_exists="replace", index=False)], as the
    replacement it performs on the store. *)
Definition to_sql (replace : database -> database) (conn : string) : io unit :=
  fun w =>
    match Sqlite3.store conn w with
    | Some db => Os.write_node conn (File (Sqlite (replace db))) w
    | None => Raised OperationalError w
    end.

(** [pd.DataFrame(records).to_sql("movie_genres", ...)]: the frame of an
    empty list has no column, so after the old table is dropped the
    [CREATE TABLE] statement is rejected by the engine. *)
Definition records_to_sql (records : list (Z * string)) (conn : string) : io unit :=
  match records with
  | [] => to_sql (set_movie_genres None) conn ;; raise OperationalError
  | _ => to_sql (set_movie_genres (Some records)) conn
  end.

(** [pd.read_sql(sql, conn)]. *)
Definition pd_read_sql (q : statement) (conn : string) : io frame :=
  fun w =>
    match Sqlite3.store conn w ≫= Sql.execute q with
    | Some df => Returned df w
    | None => Raised (DatabaseError q) w
    end.

(** Lines 46-75. *)
Definition build_database (csv_path db_path : string) : io unit :=
  Os.print "Loading CSV…" ;;
  movies ← pd_read_csv csv_path;
  Os.print ("Writing data to database " +:+ db_path +:+ "…") ;;
  conn ← Sqlite3.connect db_path;
  to_sql (set_movies movies) conn ;;
  records_to_sql (genre_records movies) conn ;;
  to_sql (set_directors (unique_directors movies)) conn ;;
  to_sql (set_movie_directors (movies_dir movies)) conn ;;
  Sqlite3.close conn ;;
  Os.print "Database built.".

(** The three artefact paths of one entry of [queries]. *)
Definition sql_path (output_dir fname : string) : string :=
  Os.join output_dir fname.

Definition csv_path_of (output_dir fname : string) : string :=
  Os.join output_dir (Py.replace ".sql" ".csv" fname).

Definition png_path_of (output_dir fname : string) : string :=
  Os.join output_dir (Py.replace ".sql" ".png" fname).

(** Lines 172-195: the body of the loop. *)
Definition report (conn output_dir : string) (entry : string * statement) : io unit :=
  let fname := entry.1 in
  let sql := Py.strip (sql_text entry.2) in
  Os.write_file (sql_path output_dir fname) (sql +:+ newline) ;;
  df ← pd_read_sql entry.2 conn;
  Os.write_file (csv_path_of output_dir fname) (to_csv df) ;;
  let n_rows := Nat.min 15 (length (rows df)) in
  match render n_rows (columns df) (take n_rows (rows df)) with
  | Some png => Os.write_file (png_path_of output_dir fname) png
  | None => raise RenderError
  end.

(** Lines 78-197. *)
Definition run_queries (db_path output_dir : string) : io unit :=
  Os.mkdir output_dir ;;
  conn ← Sqlite3.connect db_path;
  for_each queries (report conn output_dir) ;;
  Sqlite3.close conn ;;
  Os.print ("Saved query results to " +:+ output_dir).

(** Lines 200-207, for the directory [base_dir] that holds the script. *)
Definition main (base_dir : string) : io unit :=
  let csv_path := Os.join base_dir "IMDB-Movie-Data.csv" in
  let db_path := Os.join base_dir "imdb_top1000.db" in
  let output_dir := Os.join base_dir "query_results" in
  download_csv csv_path ;;
  build_database csv_path db_path ;;
  run_queries db_path output_dir.

End Script.

(** ** Concrete environments, for running the script on examples *)

(** A parser that reads every text as the worked example's dataset, a
    writer that keeps the header line only, and a renderer that keeps the
    number of rows drawn. *)
Definition toy_read_csv (data : string) : option (list movie) := Some toy_movies.

Definition header_csv (df : frame) : string := Py.join "," (columns df) +:+ newline.

Definition stub_render (n_rows : nat) (header : list string)
    (cells : list (list value)) : option string :=
  Some ("PNG" +:+ String (ascii_of_nat (48 + n_rows)) EmptyString).

Definition toy_remote (url : string) : response := Body "Rank,Title".

Definition empty_world : world := World ∅ [] [].

(** A world where the dataset is in place and nothing else. *)
Definition toy_world : world :=
  World {[ "/repo/IMDB-Movie-Data.csv" := File (Bytes "Rank,Title") ]} [] [].

(** The store of the worked example. *)
Definition toy_db : database := loaded toy_movies.

(** Two records whose years lie on either side of zero. *)
Definition era_movies : list movie :=
  [ Movie 1 "A" (Some "Drama") (Some "X") (-5) (Some 120) (8 # 1) None;
    Movie 2 "B" (Some "Drama") (Some "X") 5 (Some 90) (7 # 1) None ].

(** The paths of [main] for the directory [/repo]. *)
Definition toy_csv_path : string := "/repo/IMDB-Movie-Data.csv".
Definition toy_db_path : string := "/repo/imdb_top1000.db".
Definition toy_output_dir : string := "/repo/query_results".

(** The world a computation leaves, whether it returned or raised. *)
Definition world_after {A} (o : outcome A) : world :=
  match o with
  | Returned _ w => w
  | Raised _ w => w
  end.

(** [toy_world] after the loader has run. *)
Definition toy_loaded_world : world :=
  world_after (build_database toy_read_csv toy_csv_path toy_db_path toy_world).

(** A dataset whose first record has no genre, and a parser that reads
    every text as that dataset. *)
Definition nan_movies : list movie :=
  [ Movie 1 "A" None (Some "X") 2000 (Some 120) (8 # 1) (Some (50 # 1));
    Movie 2 "B" (Some "Drama") None 2001 (Some 90) (7 # 1) None ].

Definition nan_read_csv (data : string) : option (list movie) := Some nan_movies.

(** [toy_world] with leftovers of an earlier run on another dataset: a
    store, a CSV output and a logged request. *)
Definition stale_world : world :=
  World (<[ "/repo/query_results/02_average_rating_per_genre.csv"
            := File (Bytes "stale") ]>
           (<[ toy_db_path := File (Sqlite (loaded era_movies)) ]> (fs toy_world)))
        [REPO_URL] [].

(** A store that has lost its genre association, in an empty directory,
    and the same next to a CSV output of an earlier run. *)
Definition broken_world : world :=
  World {[ toy_db_path := File (Sqlite (Database (Some toy_movies) None None None)) ]}
        [] [].

Definition stale_broken_world : world :=
  World (<[ "/repo/query_results/02_average_rating_per_genre.csv"
            := File (Bytes "stale") ]> (fs broken_world))
        [] [].

(** ** Vocabulary of the specification *)

(** The white space characters of Python among the code points below
    256: tab, line feed, vertical tab, form feed, carriage return, the
    four separators U+001C to U+001F, space, next line (U+0085) and
    no-break space (U+00A0). *)
Definition white_space : list ascii :=
  ["009"; "010"; "011"; "012"; "013"; "028"; "029"; "030"; "031"; " ";
   "133"; "160"]%char.

(** Every character of [s] is white space. *)
Definition blank (s : string) : Prop :=
  forall c, c ∈ list_ascii_of_string s -> c ∈ white_space.

(** [g] is [tok] without its leading and trailing white space: what was
    taken off at either end is white space, and [g] neither starts nor
    ends with a white space character. *)
Definition trimmed (tok g : string) : Prop :=
  (exists pre post, tok = pre +:+ g +:+ post /\ blank pre /\ blank post)
  /\ (forall c rest, g = String c rest -> c ∉ white_space)
  /\ (forall init c, g = init +:+ String c "" -> c ∉ white_space).

(** [s] holds no comma. *)
Definition comma_free (s : string) : Prop := ","%char ∉ list_ascii_of_string s.

(** [toks] are the comma-separated tokens of [s], first to last: [s] is
    the tokens with one comma between neighbours, and no token holds a
    comma.  The empty text has one token, the empty one. *)
Inductive tokens : string -> list string -> Prop :=
  | tokens_last tok : comma_free tok -> tokens tok [tok]
  | tokens_more tok s toks :
      comma_free tok -> tokens s toks -> tokens (tok +:+ "," +:+ s) (tok :: toks).

(** The tokens of a genre cell.  A missing cell is the float NaN in the
    frame, and the text of NaN is the one token [nan]. *)
Definition genre_field (cell : option string) (toks : list string) : Prop :=
  match cell with
  | Some s => tokens s toks
  | None => toks = ["nan"]
  end.

(** The same two notions on the Loader's own terms, as the proofs use
    them: white space as [Py.isspace] decides it, and the tokens counted
    on the text [str] gives. *)
Definition trimmed_from (tok g : string) : Prop :=
  (exists pre post,
     tok = pre +:+ g +:+ post /\ Py.all_space pre = true /\ Py.all_space post = true)
  /\ Py.starts_with_space g = false /\ Py.ends_with_space g = false.

Definition genre_tokens (m : movie) : nat := S (Py.count "," (str (Genre m))).

(** The position of the first occurrence of [x] in [l]. *)
Fixpoint first_index {A} `{EqDecision A} (x : A) (l : list A) : nat :=
  match l with
  | [] => 0%nat
  | y :: l' => if decide (x = y) then 0%nat else S (first_index x l')
  end.

(** The number of distinct values of a column. *)
Definition distinct {A} `{Countable A} (l : list A) : nat :=
  size (list_to_set l : gset A).

(** The rank of [d] among the distinct names in order of first appearance:
    one more than the number of distinct names seen before [d] is first
    met. *)
Definition first_seen_id (d : option string) (names : list (option string)) : Z :=
  Z.of_nat (distinct (take (first_index d names) names)) + 1.

(** The decade of a year as the specification words it:
    [floor(year/10)*10]. *)
Definition floor_decade (year : Z) : Z := (year / 10) * 10.

(** The [movie_count] cell of a row of statement 08. *)
Definition movie_count (row : list value) : Z :=
  match nth 1 row Null with
  | Int n => n
  | _ => 0
  end.

(** [path] is a regular file of the world. *)
Definition is_file (path : string) (w : world) : Prop :=
  exists data, fs w !! path = Some (File (Bytes data)).

(** The table of a store behind [conn], if both exist. *)
Definition table {T} (column : database -> option T) (conn : string) (w : world)
    : option T :=
  Sqlite3.store conn w ≫= column.

(** The sum of the [movie_count] cells of a result set. *)
Definition sum_counts (result : list (list value)) : Z :=
  foldr Z.add 0 (map movie_count result).

(** The movies of a decade, in the engine's reckoning of decades. *)
Definition in_decade (d : Z) (movies : list movie) : list movie :=
  filter (fun m => Sql.decade (Year m) = d) movies.

(** Under the ordering [o], [x] may stand before [y] in a sorted result. *)
Definition precedes {A} (o : Sql.ordering A) (x y : A) : Prop := o x y <> Gt.

(** A connection to [path] can be opened and used: nothing is there yet,
    or a database, or a file of zero bytes. *)
Definition can_connect (path : string) (w : world) : Prop :=
  fs w !! path = None \/ exists db, Sqlite3.store path w = Some db.

(** Writing a list of regular files, first to last. *)
Definition write_all (files : list (string * string)) (m : gmap string node)
    : gmap string node :=
  foldl (fun m f => <[f.1 := File (Bytes f.2)]> m) m files.

(** The three artefact paths of an entry of [queries]. *)
Definition artefact_paths (output_dir : string) (entry : string * statement)
    : list string :=
  [sql_path output_dir entry.1; csv_path_of output_dir entry.1;
   png_path_of output_dir entry.1].

(** The three artefact names of an entry of [queries]. *)
Definition artefact_names (entry : string * statement) : list string :=
  [entry.1; Py.replace ".sql" ".csv" entry.1; Py.replace ".sql" ".png" entry.1].

(** The store behind [conn] is [db], unless a regular file has been
    written over it. *)
Definition serves (conn : string) (db : database) (w : world) : Prop :=
  fs w !! conn = Some (File (Sqlite db))
  \/ exists data, fs w !! conn = Some (File (Bytes data)).

Section Outputs.
Variable read_csv : string -> option (list movie).
Variable to_csv : frame -> string.
Variable render : nat -> list string -> list (list value) -> option string.

(** The preview image of a result set: its first fifteen rows at most. *)
Definition preview (df : frame) : option string :=
  render (Nat.min 15 (length (rows df))) (columns df)
         (take (Nat.min 15 (length (rows df))) (rows df)).

(** The files the Reporter writes for one entry on the store [db]: the
    statement's text, then its result as CSV when the statement runs, then
    the preview image when it can be drawn. *)
Definition artefacts (db : database) (output_dir : string)
    (entry : string * statement) : list (string * string) :=
  (sql_path output_dir entry.1, Py.strip (sql_text entry.2) +:+ newline)
  :: match Sql.execute entry.2 db with
     | Some df =>
         (csv_path_of output_dir entry.1, to_csv df)
         :: match preview df with
            | Some png => [(png_path_of output_dir entry.1, png)]
            | None => []
            end
     | None => []
     end.

(** The entry is reported in full on the store [db]. *)
Definition reported (db : database) (entry : string * statement) : Prop :=
  exists df png, Sql.execute entry.2 db = Some df /\ preview df = Some png.

(** The CSV text of a statement's result as a function of the text of the
    dataset: parse, load, run, write. *)
Definition csv_output (data : string) (q : statement) : option string :=
  movies ← read_csv data;
  df ← Sql.execute q (loaded movies);
  Some (to_csv df).

(** The Loader followed by the Reporter. *)
Definition pipeline (csv_path db_path output_dir : string) : io unit :=
  build_database read_csv csv_path db_path ;;
  run_queries to_csv render db_path output_dir.

End Outputs.

(** ** Vocabulary of the effects of the three steps *)

(** From [w] to [w'] no request was sent. *)
Definition silent (w w' : world) : Prop := requests w' = requests w.

(** From [w] to [w'] every path outside [written] holds what it held. *)
Definition same_outside (written : list string) (w w' : world) : Prop :=
  forall path, path ∉ written -> fs w' !! path = fs w !! path.

(** Whatever the computation [m] does, returning or raising, the worlds
    before and after it are related by [R]. *)
Definition always {A} (R : world -> world -> Prop) (m : io A) : Prop :=
  forall w, R w (world_after (m w)).

(** A server that cannot be reached, and one that breaks off while the
    body is read. *)
Definition dead_remote (url : string) : response := Unreachable.

Definition truncating_remote (url : string) : response := Truncated.

(** A parser that rejects every text. *)
Definition failing_read_csv (data : string) : option (list movie) := None.

(** A renderer that cannot draw a table without rows. *)
Definition strict_render (n_rows : nat) (header : list string)
    (cells : list (list value)) : option string :=
  match n_rows with
  | O => None
  | S _ => stub_render n_rows header cells
  end.

(** A world where a regular file stands where the output directory is to
    be. *)
Definition blocked_world : world :=
  World (<[ toy_output_dir := File (Bytes "") ]> (fs toy_loaded_world)) [] [].

(** From [w] to [w'] no request was sent and every path outside [written]
    holds what it held. *)
Definition confined (written : list string) (w w' : world) : Prop :=
  silent w w' /\ same_outside written w w'.

(** The paths [run_queries] may write. *)
Definition reporter_paths (db_path output_dir : string) : list string :=
  db_path :: output_dir :: (queries ≫= artefact_paths output_dir).

(** What [run_queries] leaves alone: it sends no request, and a path that
    is neither the output directory nor an artefact holds what it held,
    unless it is the path of a store that did not exist. *)
Definition reporter_frame (db_path output_dir : string) (w w' : world) : Prop :=
  silent w w'
  /\ forall path,
       path ∉ output_dir :: (queries ≫= artefact_paths output_dir) ->
       path <> db_path \/ is_Some (fs w !! db_path) ->
       fs w' !! path = fs w !! path.

(** The store of the worked example under [toy_db_path], and nothing
    else: the Reporter can run, the Loader cannot. *)
Definition store_only_world : world :=
  World {[ toy_db_path := File (Sqlite toy_db) ]} [] [].

(** The paths [main] may write for the directory [base_dir]. *)
Definition main_paths (base_dir : string) : list string :=
  Os.join base_dir "IMDB-Movie-Data.csv"
  :: reporter_paths (Os.join base_dir "imdb_top1000.db")
                    (Os.join base_dir "query_results").

(** [path] lies below the directory [dir]. *)
Definition below (dir path : string) : Prop :=
  Py.startswith (dir +:+ "/") path = true.

(** ** Vocabulary of the statements' results *)

(** The number of rows of [l] whose [key] is [k]. *)
Definition tally {A K} `{EqDecision K} (key : A -> K) (l : list A) (k : K) : Z :=
  Z.of_nat (length (filter (fun a => key a = k) l)).

(** The movies with a known revenue. *)
Definition with_revenue (movies : list movie) : list movie :=
  filter (fun m => Revenue m <> None) movies.

(** The movies that list the genre [g]. *)
Definition of_genre (g : string) (movies : list movie) : list movie :=
  filter (fun m => g ∈ genres_of m) movies.

(** The order of numeric cells that may be missing: a missing value is
    below every number. *)
Definition opt_le (x y : option Q) : Prop :=
  match x, y with
  | None, _ => True
  | Some _, None => False
  | Some a, Some b => (a <= b)%Q
  end.

(** [a] stands before [b] in a result sorted by year, latest first, and
    within a year by revenue, highest first. *)
Definition by_year_then_revenue (a b : movie) : Prop :=
  Year a > Year b \/ (Year a = Year b /\ opt_le (Revenue b) (Revenue a)).

(** [s] is strictly before [t] in binary collation. *)
Definition text_lt (s t : string) : Prop := String.compare s t = Lt.

(** [a] stands before [b] in a result sorted by genre, and within a genre
    by rating, highest first. *)
Definition by_genre_then_rating (a b : (Z * string) * movie) : Prop :=
  text_lt a.1.2 b.1.2 \/ (a.1.2 = b.1.2 /\ (Rating b.2 <= Rating a.2)%Q).

(** [ROUND(AVG(x), 2)] as a number that may be missing. *)
Definition mean2 (xs : list (option Q)) : option Q := Sql.round2 <$> Sql.avg xs.

(** The arithmetic mean of the numbers [xs]. *)
Definition mean (xs : list Q) : Q :=
  (foldr Qplus 0 xs / inject_Z (Z.of_nat (length xs)))%Q.

(** [v] is [x] to two decimals, rounded up or down: a whole number of
    hundredths less than one hundredth away from [x].  This is what the
    properties of the averages say of a reported cell.  It holds of the
    nearest hundredth, which [Sql.round2] computes, and leaves room for
    the binary floating point of the engine, whose sum, quotient and
    rounding may end on the other side of a half. *)
Definition to_two_decimals (v x : Q) : Prop :=
  (exists n : Z, (v == n # 100)%Q) /\ (Qabs (v - x) < 1 # 100)%Q.

(** The numbers [xs] lie between 0 and [bound]. *)
Definition within (bound : Z) (xs : list Q) : Prop :=
  Forall (fun x => 0 <= x <= inject_Z bound)%Q xs.

(** A record whose genre field is written without white space. *)
Definition tidy_movie : movie :=
  Movie 3 "C" (Some "Action,Sci-Fi") (Some "Y") 2010 (Some 100) (8 # 1) None.

(** ** The Reporter on an engine that may reject any statement

    [run_queries] hands every statement to the engine and aborts on the
    first one the engine rejects.  [Sql.execute] rejects a statement when
    a table it names is missing.  The engine rejects statements for
    other reasons as well: the store is of another origin and one of its
    tables lacks a column the statement names; the engine is older than
    the statement (before version 3.25 SQLite has no window functions);
    the database file cannot be read.  To cover them the engine is a
    parameter here, [None] when it rejects the statement; the three
    definitions are those of the script otherwise. *)

Section Engines.
Variable execute : statement -> database -> option frame.
Variable to_csv : frame -> string.
Variable render : nat -> list string -> list (list value) -> option string.

(** [pd.read_sql(sql, conn)]. *)
Definition pd_read_sql_on (q : statement) (conn : string) : io frame :=
  fun w =>
    match Sqlite3.store conn w ≫= execute q with
    | Some df => Returned df w
    | None => Raised (DatabaseError q) w
    end.

(** Lines 172-195: the body of the loop. *)
Definition report_on (conn output_dir : string) (entry : string * statement)
    : io unit :=
  let fname := entry.1 in
  let sql := Py.strip (sql_text entry.2) in
  Os.write_file (sql_path output_dir fname) (sql +:+ newline) ;;
  df ← pd_read_sql_on entry.2 conn;
  Os.write_file (csv_path_of output_dir fname) (to_csv df) ;;
  let n_rows := Nat.min 15 (length (rows df)) in
  match render n_rows (columns df) (take n_rows (rows df)) with
  | Some png => Os.write_file (png_path_of output_dir fname) png
  | None => raise RenderError
  end.

(** Lines 78-197. *)
Definition run_queries_on (db_path output_dir : string) : io unit :=
  Os.mkdir output_dir ;;
  conn ← Sqlite3.connect db_path;
  for_each queries (report_on conn output_dir) ;;
  Sqlite3.close conn ;;
  Os.print ("Saved query results to " +:+ output_dir).

End Engines.

(** An engine without window functions: it rejects the three statements
    that number rows with [ROW_NUMBER() OVER], and runs the others. *)
Definition execute_without_windows (q : statement) (db : database) : option frame :=
  match q with
  | Q05 | Q06 | Q11 => None
  | _ => Sql.execute q db
  end.

(** An engine that rejects the one statement [failing], as on a store
    that has lost what this statement alone needs. *)
Definition execute_but (failing q : statement) (db : database) : option frame :=
  if decide (q = failing) then None else Sql.execute q db.

(** * Properties *)

(** ** Python string operations *)

Example split_drama_war : Py.split "," "Drama, War" = ["Drama"; " War"].
Proof. reflexivity. Qed.

Example split_trailing_comma : Py.split "," "Drama," = ["Drama"; ""].
Proof. reflexivity. Qed.

Example strip_war : Py.strip "  War " = "War".
Proof. reflexivity. Qed.

Example replace_suffix :
  Py.replace ".sql" ".csv" "08_top_5_genres_by_count.sql"
  = "08_top_5_genres_by_count.csv".
Proof. reflexivity. Qed.

Lemma split_not_nil sep s : Py.split sep s <> [].
Proof.
  destruct s as [|c s]; simpl; [discriminate|].
  destruct (Ascii.eqb c sep); [discriminate|].
  destruct (Py.split sep s); discriminate.
Qed.

(** [split] yields one piece more than there are separators. *)
Lemma length_split sep s : length (Py.split sep s) = S (Py.count sep s).
Proof.
  induction s as [|c s IH]; simpl; [reflexivity|].
  destruct (Ascii.eqb c sep); simpl; [by rewrite IH|].
  destruct (Py.split sep s) eqn:E; simpl in *; [discriminate|done].
Qed.

(** The pieces hold no separator, and joining them gives the text back. *)
Lemma split_no_sep sep s tok : tok ∈ Py.split sep s -> Py.count sep tok = 0%nat.
Proof.
  revert tok. induction s as [|c s IH]; simpl; intros tok Hin.
  - apply list_elem_of_singleton in Hin. by subst.
  - destruct (Ascii.eqb c sep) eqn:Ec.
    + apply elem_of_cons in Hin as [->|Hin]; [reflexivity|by apply IH].
    + destruct (Py.split sep s) as [|t ts] eqn:E.
      * apply list_elem_of_singleton in Hin. subst; simpl. by rewrite Ec.
      * apply elem_of_cons in Hin as [->|Hin].
        -- simpl. rewrite Ec. apply IH. left.
        -- apply IH. by right.
Qed.

Lemma join_push sep c t ts :
  Py.join sep (String c t :: ts) = String c (Py.join sep (t :: ts)).
Proof. by destruct ts. Qed.

Lemma join_split sep s : Py.join (String sep EmptyString) (Py.split sep s) = s.
Proof.
  induction s as [|c s IH]; simpl; [reflexivity|].
  pose proof (split_not_nil sep s) as Hne.
  destruct (Ascii.eqb c sep) eqn:Ec.
  - apply Ascii.eqb_eq in Ec as ->.
    destruct (Py.split sep s) as [|t ts]; [done|].
    change (String sep (Py.join (String sep "") (t :: ts)) = String sep s).
    by rewrite IH.
  - destruct (Py.split sep s) as [|t ts]; [done|].
    by rewrite join_push, IH.
Qed.

(** [lstrip] and [rstrip] drop white space only, and all of it. *)
(** One step of [+:+] on a literal head, in the goal and the hypotheses. *)
Ltac step_append := cbv [String.append] in *; fold String.append in *.

Lemma lstrip_decompose s :
  exists pre, s = pre +:+ Py.lstrip s /\ Py.all_space pre = true.
Proof.
  induction s as [|c s (pre & IH & Hpre)]; simpl.
  - by exists "".
  - destruct (Py.isspace c) eqn:Ec.
    + exists (String c pre). split; [step_append; congruence|].
      simpl. by rewrite Ec.
    + by exists "".
Qed.

Lemma lstrip_trimmed s : Py.starts_with_space (Py.lstrip s) = false.
Proof.
  induction s as [|c s IH]; simpl; [done|].
  destruct (Py.isspace c) eqn:Ec; [done|]. simpl. by rewrite Ec.
Qed.

Lemma rstrip_decompose s :
  exists post, s = Py.rstrip s +:+ post /\ Py.all_space post = true.
Proof.
  induction s as [|c s (post & IH & Hpost)]; simpl.
  - by exists "".
  - destruct (Py.rstrip s) as [|c' r] eqn:E.
    + destruct (Py.isspace c) eqn:Ec.
      * exists (String c post). split; [step_append; congruence|].
        simpl. by rewrite Ec.
      * exists post. split; [step_append; congruence|done].
    + exists post. split; [step_append; congruence|done].
Qed.

Lemma rstrip_trimmed s : Py.ends_with_space (Py.rstrip s) = false.
Proof.
  induction s as [|c s IH]; simpl; [done|].
  destruct (Py.rstrip s) as [|c' r] eqn:E.
  - destruct (Py.isspace c) eqn:Ec; simpl; [done|by rewrite Ec].
  - done.
Qed.

Lemma rstrip_keeps_start s :
  Py.starts_with_space s = false -> Py.starts_with_space (Py.rstrip s) = false.
Proof.
  destruct s as [|c s]; simpl; [done|]. intros Hc.
  destruct (Py.rstrip s); [by rewrite Hc|done].
Qed.

Lemma strip_trimmed_from tok : trimmed_from tok (Py.strip tok).
Proof.
  unfold trimmed_from, Py.strip. split; [|split].
  - destruct (lstrip_decompose tok) as (pre & Hl & Hpre).
    destruct (rstrip_decompose (Py.lstrip tok)) as (post & Hr & Hpost).
    exists pre, post. split; [|done]. by rewrite <- Hr.
  - apply rstrip_keeps_start, lstrip_trimmed.
  - apply rstrip_trimmed.
Qed.

Lemma lstrip_all_space s : Py.all_space s = true -> Py.lstrip s = "".
Proof.
  induction s as [|c s IH]; simpl; [done|].
  intros [Hc Hs]%andb_prop. rewrite Hc. by apply IH.
Qed.

Lemma lstrip_app_space pre s : Py.all_space pre = true -> Py.lstrip (pre +:+ s) = Py.lstrip s.
Proof.
  induction pre as [|c pre IH]; [done|]. step_append. simpl.
  intros [Hc Hs]%andb_prop. rewrite Hc. by apply IH.
Qed.

Lemma lstrip_id s : Py.starts_with_space s = false -> Py.lstrip s = s.
Proof. destruct s as [|c s]; simpl; [done|]. by intros ->. Qed.

Lemma rstrip_all_space s : Py.all_space s = true -> Py.rstrip s = "".
Proof.
  induction s as [|c s IH]; simpl; [done|].
  intros [Hc Hs]%andb_prop. rewrite IH by done. by rewrite Hc.
Qed.

Lemma rstrip_app_space s post :
  Py.all_space post = true -> Py.rstrip (s +:+ post) = Py.rstrip s.
Proof.
  intros Hpost. induction s as [|c s IH].
  - step_append. by rewrite rstrip_all_space.
  - step_append. simpl. by rewrite IH.
Qed.

Lemma rstrip_id s : Py.ends_with_space s = false -> Py.rstrip s = s.
Proof.
  induction s as [|c s IH]; simpl; [done|].
  destruct s as [|c' s].
  - simpl. by intros ->.
  - intros Hs. rewrite IH by done. done.
Qed.

(** The trimmed form of a token is unique: it is what [strip] returns. *)
Lemma trimmed_from_iff tok g : trimmed_from tok g <-> g = Py.strip tok.
Proof.
  split; [|intros ->; apply strip_trimmed_from].
  intros ((pre & post & -> & Hpre & Hpost) & Hstart & Hend).
  unfold Py.strip. rewrite lstrip_app_space by done.
  destruct g as [|c g].
  - step_append. by rewrite lstrip_all_space.
  - rewrite lstrip_id by done. rewrite rstrip_app_space by done.
    by rewrite rstrip_id.
Qed.

(** *** The vocabulary of the specification and the string operations *)

Lemma isspace_bool (c : ascii) : Py.isspace c = bool_decide (c ∈ white_space).
Proof. destruct c as [[] [] [] [] [] [] [] []]; vm_compute; reflexivity. Qed.

(** The white space of the specification is what [Py.isspace] accepts. *)
Lemma isspace_white_space (c : ascii) : Py.isspace c = true <-> c ∈ white_space.
Proof. rewrite isspace_bool. apply bool_decide_eq_true. Qed.

Lemma not_isspace_white_space (c : ascii) : Py.isspace c = false <-> c ∉ white_space.
Proof. rewrite isspace_bool. apply bool_decide_eq_false. Qed.

Lemma all_space_blank (s : string) : Py.all_space s = true <-> blank s.
Proof.
  unfold blank. induction s as [|c s IH]; simpl.
  - split; [intros _ c Hc; by apply elem_of_nil in Hc|done].
  - rewrite andb_true_iff, IH, isspace_white_space. split.
    + intros [Hc Hs] c' [->|Hc']%elem_of_cons; [done|by apply Hs].
    + intros H. split; [apply H; left|]. intros c' Hc'. apply H. by right.
Qed.

Lemma starts_with_space_false (g : string) :
  Py.starts_with_space g = false <-> forall c rest, g = String c rest -> c ∉ white_space.
Proof.
  destruct g as [|c g]; simpl.
  - split; [intros _ c rest [=]|done].
  - rewrite not_isspace_white_space. split.
    + by intros Hc c' rest [= <- _].
    + intros H. by apply (H c g).
Qed.

Lemma ends_with_space_false (g : string) :
  Py.ends_with_space g = false
  <-> forall init c, g = init +:+ String c "" -> c ∉ white_space.
Proof.
  induction g as [|a g IH].
  - split; [|done]. intros _ [|b init] c; step_append; discriminate.
  - destruct g as [|b g].
    + simpl. rewrite not_isspace_white_space. split.
      * intros Ha [|b init] c; step_append.
        -- by intros [= <-].
        -- intros [= _ H]. destruct init; step_append; discriminate.
      * intros H. by apply (H "" a).
    + change (Py.ends_with_space (String a (String b g)))
        with (Py.ends_with_space (String b g)).
      rewrite IH. split.
      * intros H [|a' init] c; step_append; [discriminate|].
        intros [= _ Heq]. by apply (H init c).
      * intros H init c Heq. apply (H (String a init) c). step_append. by rewrite Heq.
Qed.

(** The trimmed form of a token is unique: it is what [strip] returns. *)
Lemma trimmed_iff (tok g : string) : trimmed tok g <-> g = Py.strip tok.
Proof.
  rewrite <- trimmed_from_iff. unfold trimmed, trimmed_from.
  rewrite starts_with_space_false, ends_with_space_false.
  split; intros ((pre & post & Heq & Hpre & Hpost) & Hs & He); (split; [|done]);
    exists pre, post; (split; [done|]); split; by apply all_space_blank.
Qed.

(** [split] yields the comma-separated tokens, and nothing else does. *)
Lemma split_comma_free (tok : string) : comma_free tok -> Py.split "," tok = [tok].
Proof.
  unfold comma_free. induction tok as [|c tok IH]; simpl; [done|]. intros H.
  destruct (Ascii.eqb c ",") eqn:Ec.
  - apply Ascii.eqb_eq in Ec as ->. destruct H. left.
  - rewrite IH; [done|]. intros Hin. apply H. by right.
Qed.

Lemma split_comma_more (tok s : string) :
  comma_free tok -> Py.split "," (tok +:+ "," +:+ s) = tok :: Py.split "," s.
Proof.
  unfold comma_free. induction tok as [|c tok IH]; intros H.
  - step_append. simpl. done.
  - step_append. simpl. destruct (Ascii.eqb c ",") eqn:Ec.
    + apply Ascii.eqb_eq in Ec as ->. destruct H. left.
    + rewrite IH; [done|]. intros Hin. apply H. by right.
Qed.

Lemma tokens_split (s : string) : tokens s (Py.split "," s).
Proof.
  induction s as [|c s IH].
  - apply tokens_last. unfold comma_free. simpl. by intros H%elem_of_nil.
  - simpl. destruct (Ascii.eqb c ",") eqn:Ec.
    + apply Ascii.eqb_eq in Ec as ->.
      apply (tokens_more "" s); [|done]. unfold comma_free. simpl. by intros H%elem_of_nil.
    + apply Ascii.eqb_neq in Ec.
      assert (forall tok, comma_free tok -> comma_free (String c tok)) as Hfree.
      { unfold comma_free. intros tok H [Heq|Hin]%elem_of_cons; [by subst|done]. }
      inversion IH as [tok Htok E1 E2|tok s' toks Htok Hrest E1 E2].
      * apply tokens_last. by apply Hfree.
      * apply (tokens_more (String c tok) s' toks); [by apply Hfree|done].
Qed.

Lemma tokens_unique (s : string) (toks : list string) :
  tokens s toks -> toks = Py.split "," s.
Proof.
  induction 1 as [tok Htok|tok s toks Htok _ IH].
  - by rewrite split_comma_free.
  - by rewrite split_comma_more, IH.
Qed.

(** The tokens of a genre cell are those the Loader splits off. *)
Lemma genre_field_iff (cell : option string) (toks : list string) :
  genre_field cell toks <-> toks = Py.split "," (str cell).
Proof.
  destruct cell as [s|]; simpl; [|done].
  split; [apply tokens_unique|intros ->; apply tokens_split].
Qed.

(** ** Loader: the genre association *)

Example toy_genre_records :
  genre_records toy_movies = [(1, "Drama"); (1, "War"); (2, "Drama")].
Proof. reflexivity. Qed.

Example toy_unique_directors : unique_directors toy_movies = [(Some "X", 1)].
Proof. reflexivity. Qed.

Example directors_in_order_of_appearance :
  unique_directors
    [ Movie 1 "A" None (Some "X") 2000 None (8 # 1) None;
      Movie 2 "B" None (Some "Y") 2001 None (7 # 1) None;
      Movie 3 "C" None (Some "X") 2002 None (7 # 1) None;
      Movie 4 "D" None None 2003 None (7 # 1) None;
      Movie 5 "E" None (Some "Z") 2004 None (7 # 1) None ]
  = [(Some "X", 1); (Some "Y", 2); (None, 3); (Some "Z", 4)].
Proof. reflexivity. Qed.

Example toy_movies_dir : movies_dir toy_movies = [(1, Some 1); (2, Some 1)].
Proof. reflexivity. Qed.

Lemma append_records (rank : Z) (gs : list string) (records : list (Z * string)) :
  foldl (fun records g => records ++ [(rank, g)]) records gs
  = records ++ map (pair rank) gs.
Proof.
  revert records. induction gs as [|g gs IH]; intros records; simpl.
  - by rewrite app_nil_r.
  - by rewrite IH, <- app_assoc.
Qed.

(** The two nested loops emit, movie after movie, one row per piece. *)
Lemma genre_records_bind (movies : list movie) :
  genre_records movies = movies ≫= (fun m => map (pair (Rank m)) (genres_of m)).
Proof.
  unfold genre_records.
  enough (forall acc : list (Z * string),
    foldl (fun records row =>
       foldl (fun records g => records ++ [(Rank row, g)]) records (genres_of row))
      acc movies
    = acc ++ (movies ≫= (fun m => map (pair (Rank m)) (genres_of m)))) as H
    by apply (H []).
  induction movies as [|m ms IH]; intros acc; simpl.
  - by rewrite app_nil_r.
  - by rewrite IH, append_records, <- app_assoc.
Qed.

Lemma genre_records_app (l1 l2 : list movie) :
  genre_records (l1 ++ l2) = genre_records l1 ++ genre_records l2.
Proof. rewrite !genre_records_bind. apply bind_app. Qed.

Lemma genre_records_cons (m : movie) (l : list movie) :
  genre_records (m :: l) = map (pair (Rank m)) (genres_of m) ++ genre_records l.
Proof. by rewrite !genre_records_bind. Qed.

Lemma length_genres_of (m : movie) : length (genres_of m) = genre_tokens m.
Proof. unfold genres_of, genre_tokens. by rewrite length_map, length_split. Qed.

Lemma length_genre_records (movies : list movie) :
  length (genre_records movies) = sum_list_with genre_tokens movies.
Proof.
  induction movies as [|m ms IH]; [reflexivity|].
  rewrite genre_records_cons, length_app, length_map, length_genres_of, IH.
  reflexivity.
Qed.

Lemma elem_of_genre_records (movies : list movie) (rank : Z) (g : string) :
  (rank, g) ∈ genre_records movies <->
  exists m tok, m ∈ movies /\ rank = Rank m
    /\ tok ∈ Py.split "," (str (Genre m)) /\ g = Py.strip tok.
Proof.
  rewrite genre_records_bind, list_elem_of_bind. split.
  - intros (m & Hrow & Hm). apply list_elem_of_fmap in Hrow as (g' & Heq & Hg').
    injection Heq as -> ->.
    apply list_elem_of_fmap in Hg' as (tok & -> & Htok). by exists m, tok.
  - intros (m & tok & Hm & -> & Htok & ->). exists m. split; [|done].
    apply list_elem_of_fmap. exists (Py.strip tok). split; [done|].
    apply list_elem_of_fmap. by exists tok.
Qed.

Lemma genre_records_nil_iff (movies : list movie) :
  genre_records movies = [] <-> movies = [].
Proof.
  split; [|by intros ->].
  destruct movies as [|m ms]; [done|]. intros H.
  apply (f_equal length) in H.
  rewrite length_genre_records in H. simpl in H. unfold genre_tokens in H. lia.
Qed.

(** ** Loader: the directors *)

Section Unique.
Context {A : Type} `{Countable A}.
Implicit Types (l seen : list A) (x : A).

Lemma elem_of_unique_from seen l x :
  x ∈ unique_from seen l <-> x ∈ l /\ x ∉ seen.
Proof.
  revert seen. induction l as [|y l IH]; intros seen; simpl.
  - split; [by intros ?%elem_of_nil|by intros [?%elem_of_nil _]].
  - destruct (decide (y ∈ seen)) as [Hy|Hy].
    + rewrite IH, elem_of_cons. split; [tauto|].
      intros [[->|?] ?]; [done|tauto].
    + rewrite !elem_of_cons, IH, elem_of_cons. split.
      * intros [->|[? ?]]; [tauto|]. split; [tauto|]. tauto.
      * intros [[->|?] ?]; [tauto|].
        destruct (decide (x = y)) as [->|]; [tauto|]. right. tauto.
Qed.

Lemma NoDup_unique_from seen l : NoDup (unique_from seen l).
Proof.
  revert seen. induction l as [|y l IH]; intros seen; simpl; [constructor|].
  destruct (decide (y ∈ seen)); [apply IH|].
  constructor; [|apply IH].
  rewrite elem_of_unique_from, elem_of_cons. tauto.
Qed.

Lemma elem_of_unique l x : x ∈ unique l <-> x ∈ l.
Proof.
  unfold unique. rewrite elem_of_unique_from.
  split; [tauto|]. intros ?. split; [done|]. apply not_elem_of_nil.
Qed.

Lemma NoDup_unique l : NoDup (unique l).
Proof. apply NoDup_unique_from. Qed.

(** [unique] keeps as many values as the column has distinct ones. *)
Lemma length_unique l : length (unique l) = distinct l.
Proof.
  unfold distinct.
  rewrite <- (size_list_to_set (C := gset A) (unique l)) by apply NoDup_unique.
  f_equal. apply set_eq. intros x.
  by rewrite !elem_of_list_to_set, elem_of_unique.
Qed.

(** A value met for the first time is appended to what was kept so far. *)
Lemma unique_from_fresh seen l1 l2 x :
  x ∉ seen -> x ∉ l1 ->
  exists rest, unique_from seen (l1 ++ x :: l2) = unique_from seen l1 ++ x :: rest.
Proof.
  revert seen. induction l1 as [|y l1 IH]; intros seen Hseen Hl1; simpl.
  - rewrite decide_False by done. eauto.
  - apply not_elem_of_cons in Hl1 as [Hxy Hl1].
    destruct (decide (y ∈ seen)).
    + by apply IH.
    + destruct (IH (y :: seen)) as [rest ->]; [|done|by exists rest].
      apply not_elem_of_cons. done.
Qed.

Lemma first_index_split l x :
  x ∈ l ->
  exists l2, l = take (first_index x l) l ++ x :: l2
             /\ x ∉ take (first_index x l) l.
Proof.
  induction l as [|y l IH]; [by intros ?%elem_of_nil|].
  intros Hx. simpl. destruct (decide (x = y)) as [->|Hne].
  - exists l. split; [done|]. apply not_elem_of_nil.
  - apply elem_of_cons in Hx as [?|Hx]; [done|].
    destruct (IH Hx) as (l2 & Heq & Hnot). exists l2. simpl. split.
    + by rewrite <- Heq.
    + apply not_elem_of_cons. done.
Qed.

(** The position of a value in [unique l] is the number of distinct values
    before its first occurrence in [l]. *)
Lemma unique_lookup l k x :
  unique l !! k = Some x <->
  x ∈ l /\ k = distinct (take (first_index x l) l).
Proof.
  assert (forall x, x ∈ l ->
    unique l !! distinct (take (first_index x l) l) = Some x) as Hpos.
  { intros y Hy. destruct (first_index_split l y Hy) as (l2 & Heq & Hnot).
    destruct (unique_from_fresh [] (take (first_index y l) l) l2 y) as [rest Hu];
      [apply not_elem_of_nil|done|].
    assert (unique l = unique (take (first_index y l) l) ++ y :: rest) as ->.
    { unfold unique. rewrite <- Hu. by rewrite <- Heq. }
    rewrite <- length_unique. by apply list_lookup_middle. }
  split.
  - intros Hk. assert (x ∈ l) as Hx.
    { apply elem_of_unique. by eapply list_elem_of_lookup_2. }
    split; [done|].
    eapply NoDup_lookup; [apply (NoDup_unique l)|done|by apply Hpos].
  - intros [Hx ->]. by apply Hpos.
Qed.

End Unique.

Lemma fst_unique_directors (movies : list movie) :
  map fst (unique_directors movies) = unique (map Director movies).
Proof.
  unfold unique_directors.
  change (fst <$> imap (fun index d => (d, Z.of_nat index + 1))
                       (unique (map Director movies)) = unique (map Director movies)).
  rewrite fmap_imap. apply list_eq. intros i.
  rewrite list_lookup_imap. by destruct (_ !! i).
Qed.

Lemma unique_directors_lookup (movies : list movie) k d id :
  unique_directors movies !! k = Some (d, id) <->
  unique (map Director movies) !! k = Some d /\ id = Z.of_nat k + 1.
Proof.
  unfold unique_directors. rewrite list_lookup_imap.
  destruct (unique (map Director movies) !! k) as [d'|]; simpl.
  - split; [by intros [= -> ->]|by intros [[= ->] ->]].
  - split; [done|by intros [? _]].
Qed.

(** A director's identifier is its rank in order of first appearance. *)
Lemma elem_of_unique_directors (movies : list movie) d id :
  (d, id) ∈ unique_directors movies <->
  d ∈ map Director movies /\ id = first_seen_id d (map Director movies).
Proof.
  rewrite list_elem_of_lookup. unfold first_seen_id. split.
  - intros (k & Hk). apply unique_directors_lookup in Hk as [Hk ->].
    apply unique_lookup in Hk as [Hd ->]. done.
  - intros [Hd ->]. exists (distinct (take (first_index d (map Director movies))
                                           (map Director movies))).
    apply unique_directors_lookup. split; [|done]. by apply unique_lookup.
Qed.

Lemma filter_none {X} (P : X -> Prop) `{forall x, Decision (P x)} (l : list X) :
  (forall x, x ∈ l -> ~ P x) -> filter P l = [].
Proof.
  induction l as [|y l IH]; intros Hl; [done|].
  rewrite filter_cons_False by (apply Hl; left).
  apply IH. intros x Hx. apply Hl. by right.
Qed.

Lemma filter_key_singleton {K V} `{EqDecision K} (r : list (K * V)) k v :
  NoDup (map fst r) -> (k, v) ∈ r -> filter (fun x => x.1 = k) r = [(k, v)].
Proof.
  induction r as [|[k' v'] r IH]; [by intros _ ?%elem_of_nil|].
  simpl. intros Hnd Hin. apply NoDup_cons in Hnd as [Hk' Hnd].
  apply elem_of_cons in Hin as [[= <- <-]|Hin].
  - rewrite filter_cons_True by done. f_equal.
    apply filter_none. intros [k2 v2] Hx ?; simpl in *; subst.
    apply Hk'. apply list_elem_of_fmap. by exists (k, v2).
  - rewrite filter_cons_False; [by apply IH|].
    simpl. intros ->. apply Hk'. apply list_elem_of_fmap. by exists (k, v).
Qed.

(** The left merge finds exactly one director row for every movie. *)
Lemma movies_dir_eq (movies : list movie) :
  movies_dir movies
  = map (fun m => (Rank m, Some (first_seen_id (Director m) (map Director movies))))
        movies.
Proof.
  unfold movies_dir, merge_left.
  set (names := map Director movies).
  assert (forall sub : list movie, (forall m, m ∈ sub -> m ∈ movies) ->
    map (fun r : Z * option string * option Z => (r.1.1, r.2))
      (map (fun m => (Rank m, Director m)) sub ≫= (fun l =>
         match filter (fun r => r.1 = l.2) (unique_directors movies) with
         | [] => [(l.1, l.2, None)]
         | matches => map (fun r => (l.1, l.2, Some r.2)) matches
         end))
    = map (fun m => (Rank m, Some (first_seen_id (Director m) names))) sub) as Hsub.
  { induction sub as [|m sub IH]; intros Hin; [done|].
    rewrite !map_cons, bind_cons, map_app, IH by (intros; apply Hin; by right).
    cbn [fst snd].
    rewrite (filter_key_singleton _ (Director m) (first_seen_id (Director m) names)).
    - done.
    - rewrite fst_unique_directors. apply NoDup_unique.
    - apply elem_of_unique_directors. split; [|done].
      apply list_elem_of_fmap. exists m. split; [done|]. apply Hin. left. }
  by apply Hsub.
Qed.

Lemma length_unique_directors (movies : list movie) :
  length (unique_directors movies) = distinct (map Director movies).
Proof. unfold unique_directors. by rewrite length_imap, length_unique. Qed.

(** ** The SQL engine *)

Section Ordering.
Context {A : Type} (o : Sql.ordering A).

Lemma insert_by_Permutation x l : Sql.insert_by o x l ≡ₚ x :: l.
Proof.
  induction l as [|y l IH]; simpl; [done|].
  destruct (o x y); [done|done|].
  rewrite IH. apply Permutation_swap.
Qed.

(** [ORDER BY] rearranges the rows and neither drops nor adds one. *)
Lemma order_by_Permutation l : Sql.order_by o l ≡ₚ l.
Proof.
  induction l as [|x l IH]; simpl; [done|].
  rewrite insert_by_Permutation. by constructor.
Qed.

Lemma length_order_by l : length (Sql.order_by o l) = length l.
Proof. apply Permutation_length, order_by_Permutation. Qed.

#[local] Abbreviation precedes := (precedes o).

Hypothesis total : forall x y, o x y = Gt -> o y x <> Gt.

Lemma insert_by_Sorted x l :
  Sorted precedes l -> Sorted precedes (Sql.insert_by o x l).
Proof.
  induction 1 as [|y l Hl IH Hhd]; simpl.
  - repeat constructor.
  - destruct (o x y) eqn:Exy.
    + constructor; [by constructor|]. constructor. unfold precedes. by rewrite Exy.
    + constructor; [by constructor|]. constructor. unfold precedes. by rewrite Exy.
    + constructor; [done|].
      destruct Hhd as [|z l Hyz]; simpl.
      * constructor. by apply total.
      * destruct (o x z); constructor; [by apply total|by apply total|done].
Qed.

Lemma order_by_Sorted l : Sorted precedes (Sql.order_by o l).
Proof.
  induction l as [|x l IH]; simpl; [constructor|]. by apply insert_by_Sorted.
Qed.

End Ordering.

Lemma insert_by_map {A B} (f : A -> B) (o : Sql.ordering B) x l :
  Sql.insert_by o (f x) (map f l)
  = map f (Sql.insert_by (fun a b => o (f a) (f b)) x l).
Proof.
  induction l as [|y l IH]; simpl; [done|].
  destruct (o (f x) (f y)); simpl; by rewrite ?IH.
Qed.

(** Sorting computed rows is sorting the rows they were computed from. *)
Lemma order_by_map {A B} (f : A -> B) (o : Sql.ordering B) l :
  Sql.order_by o (map f l) = map f (Sql.order_by (fun a b => o (f a) (f b)) l).
Proof.
  induction l as [|x l IH]; simpl; [done|].
  by rewrite IH, insert_by_map.
Qed.

Lemma Sorted_weaken {A} (R1 R2 : A -> A -> Prop) (l : list A) :
  (forall x y, R1 x y -> R2 x y) -> Sorted R1 l -> Sorted R2 l.
Proof.
  intros HR. induction 1 as [|x l Hl IH Hhd]; constructor; [done|].
  destruct Hhd; constructor. by apply HR.
Qed.

(** Sorting integers in ascending order. *)
Lemma order_by_Z_sorted (l : list Z) :
  NoDup l -> StronglySorted Z.lt (Sql.order_by Z.compare l).
Proof.
  intros Hnd.
  assert (NoDup (Sql.order_by Z.compare l)) as Hnd'
    by (by rewrite order_by_Permutation).
  assert (StronglySorted Z.le (Sql.order_by Z.compare l)) as Hs.
  { apply Sorted_StronglySorted; [intros x y z; apply Z.le_trans|].
    apply (Sorted_weaken (precedes Z.compare)).
    - intros x y Hxy. by apply Z.compare_le_iff.
    - apply order_by_Sorted.
      intros x y Hxy. rewrite Z.compare_antisym, Hxy. done. }
  induction Hs as [|x l' Hl' IH Hall]; [constructor|].
  apply NoDup_cons in Hnd' as [Hx Hnd'].
  constructor; [by apply IH|].
  rewrite Forall_forall in *. intros y Hy.
  assert (x <> y) by (intros ->; by apply Hx, list_elem_of_In).
  specialize (Hall y Hy). lia.
Qed.

(** ** Groups *)

Section Groups.
Context {A K : Type} `{Countable K} (key : A -> K).

Lemma group_by_keys (l : list A) :
  map fst (Sql.group_by key l) = unique (map key l).
Proof.
  unfold Sql.group_by. rewrite map_map. simpl. apply map_id.
Qed.

Lemma elem_of_group_by (l : list A) k g :
  (k, g) ∈ Sql.group_by key l <->
  k ∈ map key l /\ g = filter (fun a => key a = k) l.
Proof.
  unfold Sql.group_by. split.
  - intros (k' & [= -> ->] & Hk)%list_elem_of_fmap.
    split; [|done]. exact (proj1 (elem_of_unique _ _) Hk).
  - intros [Hk ->]. apply list_elem_of_fmap. exists k. split; [done|].
    exact (proj2 (elem_of_unique _ _) Hk).
Qed.

Lemma length_group_by (l : list A) :
  length (Sql.group_by key l) = distinct (map key l).
Proof. unfold Sql.group_by. by rewrite length_map, length_unique. Qed.

(** Every row falls in exactly one group of a duplicate-free list of keys
    that holds its key. *)
Lemma group_sizes (ks : list K) (l : list A) :
  NoDup ks -> (forall a, a ∈ l -> key a ∈ ks) ->
  foldr Z.add 0
    (map (fun k => Z.of_nat (length (filter (fun a => key a = k) l))) ks)
  = Z.of_nat (length l).
Proof.
  intros Hnd. induction l as [|a l IH]; intros Hin.
  - simpl. clear. induction ks; simpl; [done|]. rewrite IHks. done.
  - specialize (IH (fun b Hb => Hin b (list_elem_of_further _ _ _ Hb))).
    specialize (Hin a (list_elem_of_here _ _)).
    simpl length. rewrite Nat2Z.inj_succ, <- IH. clear IH.
    induction Hnd as [|k ks Hk Hnd IHks]; [by apply elem_of_nil in Hin|].
    simpl. destruct (decide (key a = k)) as [Heq|Hne].
    + rewrite filter_cons_True by done. simpl length. rewrite Nat2Z.inj_succ.
      assert (map (fun k0 => Z.of_nat (length (filter (fun a0 => key a0 = k0) (a :: l)))) ks
              = map (fun k0 => Z.of_nat (length (filter (fun a0 => key a0 = k0) l))) ks)
        as ->; [|lia].
      apply map_ext_in. intros k0 Hk0. rewrite filter_cons_False; [done|].
      intros ?. apply Hk. apply list_elem_of_In in Hk0. congruence.
    + rewrite filter_cons_False by done.
      apply elem_of_cons in Hin as [?|Hin]; [done|].
      rewrite IHks by done. lia.
Qed.

End Groups.

Lemma sum_Permutation (l1 l2 : list Z) :
  l1 ≡ₚ l2 -> foldr Z.add 0 l1 = foldr Z.add 0 l2.
Proof. induction 1; simpl; lia. Qed.

Lemma sum_take_le (n : nat) (l : list Z) :
  Forall (fun x => 0 <= x) l -> foldr Z.add 0 (take n l) <= foldr Z.add 0 l.
Proof.
  intros Hl. revert n. induction Hl as [|x l Hx Hl IH]; intros [|n]; simpl; try lia.
  - clear IH. induction Hl; simpl; lia.
  - specialize (IH n). lia.
Qed.

(** ** The statements *)

Example toy_top_rated :
  Sql.execute Q01 toy_db
  = Some (Frame ["Title"; "Year"; "Rating"]
            [[Text "A"; Int 2000; Real (8 # 1)]; [Text "B"; Int 2001; Real (7 # 1)]]).
Proof. vm_compute. reflexivity. Qed.

Example round2_half_up : Sql.round2 (2675 # 1000) = (67 # 25)%Q.
Proof. vm_compute. reflexivity. Qed.

Example decade_truncates : Sql.decade (-5) = 0 /\ Sql.decade 1999 = 1990.
Proof. split; reflexivity. Qed.

(** [ROUND(x, 2)] is a number of hundredths at distance at most half a
    hundredth from [x]. *)
Lemma hundredths (n : Z) : (n # 100 == inject_Z n * (1 # 100))%Q.
Proof. unfold Qeq, Qmult, inject_Z. simpl. lia. Qed.

Lemma round2_hundredths (x : Q) : exists n : Z, (Sql.round2 x == n # 100)%Q.
Proof. unfold Sql.round2. eexists. apply Qred_correct. Qed.

Lemma round2_nearest (x : Q) : (Qabs (Sql.round2 x - x) <= 1 # 200)%Q.
Proof.
  unfold Sql.round2. rewrite Qred_correct, hundredths.
  apply Qabs_Qle_condition.
  destruct (Qle_bool 0 x).
  - pose proof (Qfloor_le (x * inject_Z 100 + (1 # 2))) as Hle.
    pose proof (Qlt_floor (x * inject_Z 100 + (1 # 2))) as Hlt.
    rewrite inject_Z_plus in Hlt.
    change (inject_Z 100) with (100 # 1)%Q in *.
    change (inject_Z 1) with (1 # 1)%Q in *.
    set (n := inject_Z (Qfloor (x * (100 # 1) + (1 # 2)))) in *. split; lra.
  - pose proof (Qle_ceiling (x * inject_Z 100 - (1 # 2))) as Hle.
    pose proof (Qceiling_lt (x * inject_Z 100 - (1 # 2))) as Hlt.
    unfold Z.sub in Hlt. rewrite inject_Z_plus, inject_Z_opp in Hlt.
    change (inject_Z 100) with (100 # 1)%Q in *.
    change (inject_Z 1) with (1 # 1)%Q in *.
    set (n := inject_Z (Qceiling (x * (100 # 1) - (1 # 2)))) in *. split; lra.
Qed.

Lemma omap_id_Some (xs : list Q) : omap id (map Some xs) = xs.
Proof. induction xs as [|x xs IH]; [done|]. simpl. f_equal. exact IH. Qed.

(** On years that are not negative the engine's quotient is the floor. *)
Lemma decade_floor (year : Z) : 0 <= year -> Sql.decade year = floor_decade year.
Proof.
  intros Hy. unfold Sql.decade, floor_decade.
  by rewrite Z.quot_div_nonneg by lia.
Qed.

(** *** Averages: the exact mean and the hundredth reported *)

Lemma avg_known (xs : list (option Q)) :
  omap id xs <> [] ->
  exists a, Sql.avg xs = Some a /\ (a == mean (omap id xs))%Q.
Proof.
  intros Hne. unfold Sql.avg, mean.
  destruct (omap id xs) as [|x l]; [done|].
  eexists. split; [reflexivity|]. apply Qred_correct.
Qed.

Lemma avg_None (xs : list (option Q)) : Sql.avg xs = None <-> omap id xs = [].
Proof. unfold Sql.avg. by destruct (omap id xs). Qed.

Lemma sum_within (bound : Z) (xs : list Q) :
  within bound xs ->
  (0 <= foldr Qplus 0 xs
   /\ foldr Qplus 0 xs <= inject_Z bound * inject_Z (Z.of_nat (length xs)))%Q.
Proof.
  induction 1 as [|x xs [Hlo Hhi] _ [IHlo IHhi]]; simpl foldr; simpl length.
  - split; [apply Qle_refl|]. rewrite Qmult_0_r. apply Qle_refl.
  - rewrite Nat2Z.inj_succ. unfold Z.succ. rewrite inject_Z_plus.
    change (inject_Z 1) with 1%Q. split; [|lra].
    apply (Qplus_le_compat 0 x 0); assumption.
Qed.

Lemma mean_within (bound : Z) (xs : list Q) :
  xs <> [] -> within bound xs -> (0 <= mean xs <= inject_Z bound)%Q.
Proof.
  intros Hne [Hlo Hhi]%sum_within. unfold mean.
  assert (0 < inject_Z (Z.of_nat (length xs)))%Q as Hpos.
  { destruct xs; [done|]. unfold Qlt. simpl. lia. }
  split.
  - apply Qle_shift_div_l; [done|]. by rewrite Qmult_0_l.
  - by apply Qle_shift_div_r.
Qed.

Lemma round2_within (bound : Z) (x : Q) :
  (0 <= x <= inject_Z bound)%Q -> (0 <= Sql.round2 x <= inject_Z bound)%Q.
Proof.
  intros [Hlo Hhi]. unfold Sql.round2.
  assert (Qle_bool 0 x = true) as -> by (by apply Qle_bool_iff).
  set (n := Qfloor (x * inject_Z 100 + (1 # 2))).
  assert (0 <= n <= 100 * bound) as [Hn0 Hn1].
  { split.
    - change 0 with (Qfloor 0). apply Qfloor_resp_le.
      change (inject_Z 100) with (100 # 1)%Q. lra.
    - pose proof (Qfloor_le (x * inject_Z 100 + (1 # 2))) as Hle. fold n in Hle.
      assert (inject_Z n <= inject_Z (100 * bound) + (1 # 2))%Q as H.
      { rewrite inject_Z_mult. change (inject_Z 100) with (100 # 1)%Q in *. lra. }
      unfold Qle, Qplus, inject_Z in H. simpl in H. lia. }
  rewrite Qred_correct. unfold Qle, inject_Z. simpl. lia.
Qed.

Lemma round2_two_decimals (x y : Q) : (x == y)%Q -> to_two_decimals (Sql.round2 x) y.
Proof.
  intros Heq. split; [apply round2_hundredths|].
  rewrite <- Heq. apply Qle_lt_trans with (1 # 200)%Q; [apply round2_nearest|done].
Qed.

(** [ROUND(AVG(x), 2)] over numbers between 0 and [bound], one at least
    being known: a number to two decimals next to the mean, within the
    same bounds. *)
Lemma reported_average (bound : Z) (xs : list (option Q)) :
  omap id xs <> [] -> within bound (omap id xs) ->
  exists v, mean2 xs = Some v
    /\ to_two_decimals v (mean (omap id xs))
    /\ (0 <= v <= inject_Z bound)%Q.
Proof.
  intros Hne Hin. destruct (avg_known xs Hne) as (a & Ha & Heq).
  exists (Sql.round2 a). unfold mean2. rewrite Ha. split; [done|].
  split; [by apply round2_two_decimals|].
  apply round2_within. rewrite Heq. by apply mean_within.
Qed.

(** Eight ratings whose mean, 8.075, lies on a half.  The exact
    [ROUND(AVG(x), 2)] is 8.08; the engine, whose binary sum comes out
    just below the half, reports 8.07.  Both are the mean to two
    decimals. *)
Example mean_on_a_half :
  let ratings := [7.9; 7.8; 8.6; 8.3; 8.9; 7.3; 8.2; 7.6]%Q in
  (mean ratings == 8.075)%Q
  /\ mean2 (map Some ratings) = Some (202 # 25)%Q
  /\ to_two_decimals 8.08 (mean ratings)
  /\ to_two_decimals 8.07 (mean ratings).
Proof.
  cbv zeta. split; [reflexivity|]. split; [vm_compute; reflexivity|].
  split; (split; [by eexists (_ : Z)|reflexivity]).
Qed.

Lemma within_sub (bound : Z) (xs ys : list Q) :
  (forall x, x ∈ xs -> x ∈ ys) -> within bound ys -> within bound xs.
Proof.
  unfold within. rewrite !Forall_forall. intros Hsub Hys x Hx. by apply Hys, Hsub.
Qed.

Lemma decade_opp (year : Z) : year <= 0 -> Sql.decade year = - floor_decade (- year).
Proof.
  intros Hy. unfold Sql.decade, floor_decade.
  rewrite <- (Z.opp_involutive year) at 1.
  rewrite Z.quot_opp_l by lia. rewrite Z.quot_div_nonneg by lia. lia.
Qed.

(** C2: on the two-movie dataset of the worked example, statement 02 yields
    genre War with average rating 8.0 and genre Drama with average rating
    7.5, and statement 07 yields no row. *)
Theorem toy_dataset_results :
  Sql.execute Q02 (loaded toy_movies)
  = Some (Frame ["Genre"; "avg_rating"]
            [[Text "War"; Real (8 # 1)]; [Text "Drama"; Real (15 # 2)]])
  /\ Sql.execute Q07 (loaded toy_movies)
     = Some (Frame ["Director"; "avg_revenue"; "movies_count"] [])
  /\ (15 # 2 == 7.5)%Q.
Proof.
  split; [|split].
  - vm_compute. reflexivity.
  - vm_compute. reflexivity.
  - reflexivity.
Qed.

(** The rows of statement 08 before [ORDER BY] and [LIMIT]. *)
Lemma genre_counts_sum (movie_genres : list (Z * string)) :
  sum_counts
    (map (fun g : string * list (Z * string) => [Text g.1; Int (Sql.count_rows g.2)])
         (Sql.group_by snd movie_genres))
  = Z.of_nat (length movie_genres).
Proof.
  unfold sum_counts, Sql.group_by. rewrite !map_map. simpl.
  apply (group_sizes snd).
  - apply NoDup_unique.
  - intros a Ha. apply elem_of_unique. apply list_elem_of_fmap. by exists a.
Qed.

Lemma movie_count_nonneg (result : list (list value)) :
  (forall row, row ∈ result -> 0 <= movie_count row) ->
  Forall (fun x => 0 <= x) (map movie_count result).
Proof.
  intros Hrow. apply Forall_forall.
  intros x (row & -> & Hin)%list_elem_of_fmap. by apply Hrow.
Qed.

(** C6, amended: statement 08 returns five rows when the genre association
    has five distinct genres or more, and one row per distinct genre
    otherwise; each row holds a genre and the number of its association
    rows, and the counts returned add up to at most the size of the
    association. *)
Theorem top_genres_rows (db : database) (movie_genres : list (Z * string)) :
  tbl_movie_genres db = Some movie_genres ->
  exists result,
    Sql.execute Q08 db = Some (Frame ["Genre"; "movie_count"] result)
    /\ length result = Nat.min 5 (distinct (map snd movie_genres))
    /\ (forall row, row ∈ result ->
          exists g, g ∈ map snd movie_genres
            /\ row = [Text g; Int (Z.of_nat (length (filter (fun r => r.2 = g) movie_genres)))])
    /\ sum_counts result <= Z.of_nat (length movie_genres).
Proof.
  intros Htbl.
  set (all := map (fun g : string * list (Z * string) =>
                     [Text g.1; Int (Sql.count_rows g.2)])
                  (Sql.group_by snd movie_genres)).
  set (o := Sql.desc (fun r : list value => nth 1 r Null)).
  exists (Sql.limit 5 (Sql.order_by o all)).
  split; [unfold Sql.execute, Sql.q08; by rewrite Htbl|].
  assert (forall row, row ∈ all ->
    exists g, g ∈ map snd movie_genres
      /\ row = [Text g; Int (Z.of_nat (length (filter (fun r => r.2 = g) movie_genres)))])
    as Hall.
  { intros row ([g rs] & -> & Hg)%list_elem_of_fmap.
    apply elem_of_group_by in Hg as [Hg ->]. by exists g. }
  assert (forall row, row ∈ Sql.order_by o all -> row ∈ all) as Hsub.
  { intros row. by rewrite order_by_Permutation. }
  split; [|split].
  - unfold Sql.limit. rewrite length_take, length_order_by.
    unfold all. by rewrite length_map, length_group_by.
  - intros row Hrow. apply Hall, Hsub. unfold Sql.limit in Hrow.
    by apply (subseteq_take 5).
  - rewrite <- (genre_counts_sum movie_genres). fold all.
    unfold sum_counts, Sql.limit.
    rewrite (sum_Permutation (map movie_count all)
                             (map movie_count (Sql.order_by o all)))
      by (apply Permutation_map; symmetry; apply order_by_Permutation).
    change (map movie_count (take 5 (Sql.order_by o all)))
      with (movie_count <$> take 5 (Sql.order_by o all)).
    rewrite fmap_take. apply sum_take_le, movie_count_nonneg.
    intros row Hrow. destruct (Hall row (Hsub row Hrow)) as (g & _ & ->).
    unfold movie_count. simpl. lia.
Qed.

(** The rows of statement 10, with the cell of the average as the
    embedding computes it. *)
Lemma decade_rows (db : database) (movies : list movie) :
  tbl_movies db = Some movies ->
  exists decades,
    Sql.execute Q10 db
    = Some (Frame ["decade"; "avg_rating"; "movie_count"]
        (map (fun d =>
                [Int d;
                 Sql.rounded_avg (map (fun m => Some (Rating m)) (in_decade d movies));
                 Int (Z.of_nat (length (in_decade d movies)))])
             decades))
    /\ StronglySorted Z.lt decades
    /\ (forall d, d ∈ decades <-> exists m, m ∈ movies /\ Sql.decade (Year m) = d).
Proof.
  intros Htbl.
  exists (Sql.order_by Z.compare (unique (map (fun m => Sql.decade (Year m)) movies))).
  split; [|split].
  - unfold Sql.execute, Sql.q10. rewrite Htbl. simpl. do 2 f_equal.
    unfold Sql.group_by. rewrite map_map. simpl.
    by rewrite order_by_map.
  - apply order_by_Z_sorted, NoDup_unique.
  - intros d. rewrite order_by_Permutation, elem_of_unique, list_elem_of_fmap.
    split; intros (m & ? & ?); by exists m.
Qed.


(** C6, as stated, fails on the worked example: its genre association has
    two distinct genres, and statement 08 returns two rows. *)
Lemma top_genres_toy_two_rows :
  Sql.execute Q08 (loaded toy_movies)
  = Some (Frame ["Genre"; "movie_count"] [[Text "Drama"; Int 2]; [Text "War"; Int 1]])
  /\ length [[Text "Drama"; Int 2]; [Text "War"; Int 1]] <> 5%nat.
Proof. split; [vm_compute; reflexivity|discriminate]. Qed.

Lemma top_genres_rows_witness :
  exists result,
    Sql.execute Q08 toy_db = Some (Frame ["Genre"; "movie_count"] result)
    /\ length result = Nat.min 5 (distinct (map snd (genre_records toy_movies)))
    /\ (forall row, row ∈ result ->
          exists g, g ∈ map snd (genre_records toy_movies)
            /\ row = [Text g; Int (Z.of_nat (length (filter (fun r => r.2 = g)
                                                      (genre_records toy_movies))))])
    /\ sum_counts result <= Z.of_nat (length (genre_records toy_movies)).
Proof.
  apply (top_genres_rows toy_db (genre_records toy_movies)). reflexivity.
Defined.



(** ** Computations on the world *)

Lemma bind_returned {A B} (m : io A) (k : A -> io B) w b w' :
  (m ≫= k) w = Returned b w' <->
  exists a w1, m w = Returned a w1 /\ k a w1 = Returned b w'.
Proof.
  unfold mbind, io_bind. destruct (m w) as [a w1|e w1]; split.
  - intros Hk. by exists a, w1.
  - by intros (? & ? & [= -> ->] & Hk).
  - discriminate.
  - by intros (? & ? & ? & _).
Qed.

Lemma bind_raised {A B} (m : io A) (k : A -> io B) w e w' :
  (m ≫= k) w = Raised e w' <->
  m w = Raised e w' \/ exists a w1, m w = Returned a w1 /\ k a w1 = Raised e w'.
Proof.
  unfold mbind, io_bind. destruct (m w) as [a w1|e1 w1]; split.
  - intros Hk. right. by exists a, w1.
  - intros [Hm|(a' & w2 & Hm & Hk)]; [discriminate|].
    by injection Hm as <- <-.
  - intros [= -> ->]. by left.
  - intros [[= -> ->]|(a' & w2 & Hm & Hk)]; [done|discriminate].
Qed.

(** Splitting a hypothesis on a sequence that returned into its steps. *)
Ltac io_step H :=
  let a := fresh "a" in
  let w := fresh "w" in
  let Hm := fresh "Hstep" in
  apply bind_returned in H as (a & w & Hm & H).

Ltac io_steps H := repeat io_step H.

Lemma print_returned line w (a : unit) w' :
  Os.print line w = Returned a w' ->
  fs w' = fs w /\ requests w' = requests w.
Proof. by intros [= <- <-]. Qed.

Lemma write_node_returned path n w (a : unit) w' :
  Os.write_node path n w = Returned a w' ->
  fs w' = <[path := n]> (fs w) /\ requests w' = requests w.
Proof. by intros [= <- <-]. Qed.

Lemma open_w_returned path w (a : unit) w' :
  Os.open_w path w = Returned a w' ->
  fs w' = <[path := File (Bytes "")]> (fs w) /\ requests w' = requests w
  /\ fs w !! path <> Some Directory.
Proof.
  unfold Os.open_w. destruct (fs w !! path) as [[c|]|] eqn:E; try discriminate;
    by intros [= <- <-].
Qed.

Lemma write_file_returned path data w (a : unit) w' :
  Os.write_file path data w = Returned a w' ->
  fs w' = <[path := File (Bytes data)]> (fs w) /\ requests w' = requests w.
Proof.
  unfold Os.write_file. intros H. io_steps H.
  apply open_w_returned in Hstep as (Hfs & Hreq & _).
  apply write_node_returned in H as [-> ->].
  rewrite Hfs, Hreq. by rewrite insert_insert_eq.
Qed.

Lemma write_file_raised path data w e w' :
  Os.write_file path data w = Raised e w' -> e = IsADirectoryError /\ w' = w.
Proof.
  unfold Os.write_file. intros [H|(a & w1 & _ & H)]%bind_raised; [|done].
  unfold Os.open_w in H. destruct (fs w !! path) as [[c|]|]; try discriminate.
  by injection H as <- <-.
Qed.

Lemma mkdir_returned path w (a : unit) w' :
  Os.mkdir path w = Returned a w' ->
  fs w' = <[path := Directory]> (fs w) /\ requests w' = requests w.
Proof.
  unfold Os.mkdir. destruct (fs w !! path) as [[c|]|]; try discriminate;
    by intros [= <- <-].
Qed.

Lemma mkdir_raised path w e w' :
  Os.mkdir path w = Raised e w' -> e = FileExistsError /\ w' = w.
Proof.
  unfold Os.mkdir. destruct (fs w !! path) as [[c|]|]; try discriminate.
  by intros [= <- <-].
Qed.

Lemma read_file_returned path w data w' :
  Os.read_file path w = Returned data w' <->
  w' = w /\ fs w !! path = Some (File (Bytes data)).
Proof.
  unfold Os.read_file. destruct (fs w !! path) as [[[d|db]|]|]; split;
    try discriminate; try (by intros [_ ?]).
  - by intros [= <- <-].
  - by intros [-> [= ->]].
Qed.

(** A connection is opened on a path that holds a file, or on a free path,
    where an empty database is created. *)
Lemma connect_returned path w conn w' :
  Sqlite3.connect path w = Returned conn w' ->
  conn = path /\ requests w' = requests w
  /\ ((exists c, fs w !! path = Some (File c)) /\ fs w' = fs w
      \/ fs w !! path = None
         /\ fs w' = <[path := File (Sqlite empty_database)]> (fs w)).
Proof.
  unfold Sqlite3.connect. destruct (fs w !! path) as [[c|]|] eqn:E; try discriminate.
  - intros [= <- <-]. split; [done|]. split; [done|]. left. eauto.
  - intros [= <- <-]. split; [done|]. split; [done|]. by right.
Qed.

Lemma connect_raised path w e w' :
  Sqlite3.connect path w = Raised e w' -> e = OperationalError /\ w' = w.
Proof.
  unfold Sqlite3.connect. destruct (fs w !! path) as [[c|]|] eqn:E; try discriminate.
  by intros [= <- <-].
Qed.

(** The store behind a path depends on the node at that path only. *)
Lemma store_ext conn w1 w2 :
  fs w1 !! conn = fs w2 !! conn -> Sqlite3.store conn w1 = Sqlite3.store conn w2.
Proof. unfold Sqlite3.store. by intros ->. Qed.

Lemma store_lookup conn w db :
  fs w !! conn = Some (File (Sqlite db)) -> Sqlite3.store conn w = Some db.
Proof. unfold Sqlite3.store. by intros ->. Qed.

Lemma store_bytes conn w data db :
  fs w !! conn = Some (File (Bytes data)) ->
  Sqlite3.store conn w = Some db -> db = empty_database.
Proof.
  unfold Sqlite3.store. intros ->. destruct data; [by intros [= <-]|done].
Qed.

(** No statement of the script runs on a store without tables. *)
Lemma execute_empty q : Sql.execute q empty_database = None.
Proof. by destruct q. Qed.

(** ** Loader: what [build_database] does to the world *)

Lemma to_sql_returned replace conn w (a : unit) w' :
  to_sql replace conn w = Returned a w' ->
  exists db, Sqlite3.store conn w = Some db
    /\ fs w' = <[conn := File (Sqlite (replace db))]> (fs w)
    /\ requests w' = requests w.
Proof.
  unfold to_sql. destruct (Sqlite3.store conn w) as [db|]; [|discriminate].
  intros [Hfs Hreq]%write_node_returned. by exists db.
Qed.

Lemma store_after_to_sql conn w w' db :
  fs w' = <[conn := File (Sqlite db)]> (fs w) -> Sqlite3.store conn w' = Some db.
Proof. intros Hfs. apply store_lookup. by rewrite Hfs, lookup_insert_eq. Qed.

Lemma records_to_sql_returned records conn w (a : unit) w' :
  records_to_sql records conn w = Returned a w' ->
  records <> []
  /\ exists db, Sqlite3.store conn w = Some db
       /\ fs w' = <[conn := File (Sqlite (set_movie_genres (Some records) db))]> (fs w)
       /\ requests w' = requests w.
Proof.
  destruct records as [|r records]; simpl.
  - intros H. io_steps H. discriminate.
  - intros H. split; [done|]. by apply (to_sql_returned _ _ _ a).
Qed.

Lemma seq_returned {A B} (m : io A) (k : A -> io B) w a w1 b w' :
  m w = Returned a w1 -> k a w1 = Returned b w' -> (m ≫= k) w = Returned b w'.
Proof. intros Hm Hk. apply bind_returned. by exists a, w1. Qed.

Lemma to_sql_succeeds replace conn w db :
  Sqlite3.store conn w = Some db ->
  exists w', to_sql replace conn w = Returned tt w'
    /\ Sqlite3.store conn w' = Some (replace db).
Proof.
  intros Hs. unfold to_sql. rewrite Hs. eexists. split; [reflexivity|].
  apply store_lookup. simpl. apply lookup_insert_eq.
Qed.

Lemma connect_succeeds path w :
  can_connect path w ->
  exists w' db, Sqlite3.connect path w = Returned path w'
    /\ Sqlite3.store path w' = Some db.
Proof.
  unfold Sqlite3.connect. intros [Hnone|(db & Hdb)].
  - rewrite Hnone. eexists _, empty_database. split; [reflexivity|].
    apply store_lookup. simpl. apply lookup_insert_eq.
  - exists w, db. split; [|done]. unfold Sqlite3.store in Hdb.
    by destruct (fs w !! path) as [[c|]|].
Qed.

Section Loader.
Variable read_csv : string -> option (list movie).

Lemma pd_read_csv_returned path w movies w' :
  pd_read_csv read_csv path w = Returned movies w' <->
  w' = w /\ exists data,
    fs w !! path = Some (File (Bytes data)) /\ read_csv data = Some movies.
Proof.
  unfold pd_read_csv. rewrite bind_returned. split.
  - intros (data & w1 & [-> Hfile]%read_file_returned & Hparse).
    destruct (read_csv data) as [ms|] eqn:E; [|discriminate].
    injection Hparse as -> ->. split; [done|]. by exists data.
  - intros (-> & data & Hfile & Hparse). exists data, w. split.
    + by apply read_file_returned.
    + by rewrite Hparse.
Qed.

(** A run of the loader that returns has read a dataset that is not empty
    and leaves the store [loaded] from it, whatever the store held. *)
Lemma build_database_returned csv_path db_path w w' :
  build_database read_csv csv_path db_path w = Returned tt w' ->
  exists movies,
    pd_read_csv read_csv csv_path w = Returned movies w
    /\ movies <> []
    /\ fs w' = <[db_path := File (Sqlite (loaded movies))]> (fs w)
    /\ requests w' = requests w.
Proof.
  unfold build_database. intros H. io_steps H.
  apply print_returned in Hstep as [Hfs0 Hreq0].
  assert (pd_read_csv read_csv csv_path w = Returned a0 w) as Hread.
  { apply pd_read_csv_returned in Hstep0 as (-> & data & Hfile & Hparse).
    apply pd_read_csv_returned. split; [done|]. exists data.
    by rewrite <- Hfs0. }
  apply pd_read_csv_returned in Hstep0 as (-> & _).
  apply print_returned in Hstep1 as [Hfs1 Hreq1].
  apply connect_returned in Hstep2 as (-> & Hreq2 & Hconn).
  apply to_sql_returned in Hstep3 as (db3 & _ & Hfs3 & Hreq3).
  apply records_to_sql_returned in Hstep4 as (Hne & db4 & Hdb4 & Hfs4 & Hreq4).
  apply to_sql_returned in Hstep5 as (db5 & Hdb5 & Hfs5 & Hreq5).
  apply to_sql_returned in Hstep6 as (db6 & Hdb6 & Hfs6 & Hreq6).
  injection Hstep7 as _ <-.
  apply print_returned in H as [Hfs8 Hreq8].
  rewrite (store_after_to_sql _ _ _ _ Hfs3) in Hdb4. injection Hdb4 as <-.
  rewrite (store_after_to_sql _ _ _ _ Hfs4) in Hdb5. injection Hdb5 as <-.
  rewrite (store_after_to_sql _ _ _ _ Hfs5) in Hdb6. injection Hdb6 as <-.
  exists a0. split; [done|]. split.
  { intros ->. by apply Hne. }
  split; [|congruence].
  rewrite Hfs8, Hfs6, Hfs5, Hfs4, Hfs3, !insert_insert_eq.
  destruct Hconn as [[_ ->]|[_ ->]]; rewrite ?insert_insert_eq, Hfs1, Hfs0; done.
Qed.

(** The loader returns on every dataset that parses and is not empty, when
    a connection to the store can be opened. *)
Lemma build_database_succeeds csv_path db_path w data movies :
  fs w !! csv_path = Some (File (Bytes data)) ->
  read_csv data = Some movies ->
  movies <> [] ->
  can_connect db_path w ->
  exists w', build_database read_csv csv_path db_path w = Returned tt w'.
Proof.
  intros Hfile Hparse Hne Hconn.
  assert (genre_records movies <> []) as Hrec by (by rewrite genre_records_nil_iff).
  set (w1 := World (fs w) (requests w) (stdout w ++ ["Loading CSV…"])).
  set (w2 := World (fs w1) (requests w1)
               (stdout w1 ++ ["Writing data to database " +:+ db_path +:+ "…"])).
  destruct (connect_succeeds db_path w2 Hconn) as (w3 & db3 & Hc & Hs3).
  destruct (to_sql_succeeds (set_movies movies) _ _ _ Hs3) as (w4 & H4 & Hs4).
  destruct (to_sql_succeeds (set_movie_genres (Some (genre_records movies))) _ _ _ Hs4)
    as (w5 & H5 & Hs5).
  destruct (to_sql_succeeds (set_directors (unique_directors movies)) _ _ _ Hs5)
    as (w6 & H6 & Hs6).
  destruct (to_sql_succeeds (set_movie_directors (movies_dir movies)) _ _ _ Hs6)
    as (w7 & H7 & Hs7).
  eexists. unfold build_database.
  apply (seq_returned _ _ w tt w1); [done|].
  apply (seq_returned _ _ w1 movies w1).
  { apply pd_read_csv_returned. split; [done|]. by exists data. }
  apply (seq_returned _ _ w1 tt w2); [done|].
  apply (seq_returned _ _ w2 db_path w3); [done|].
  apply (seq_returned _ _ w3 tt w4); [done|].
  apply (seq_returned _ _ w4 tt w5).
  { unfold records_to_sql. by destruct (genre_records movies). }
  apply (seq_returned _ _ w5 tt w6); [done|].
  apply (seq_returned _ _ w6 tt w7); [done|].
  apply (seq_returned _ _ w7 tt w7); [done|].
  reflexivity.
Qed.

End Loader.

(** ** The tables of a loaded store *)

Lemma loaded_store read_csv csv_path db_path w w' :
  build_database read_csv csv_path db_path w = Returned tt w' ->
  exists movies,
    pd_read_csv read_csv csv_path w = Returned movies w
    /\ movies <> []
    /\ Sqlite3.store db_path w' = Some (loaded movies).
Proof.
  intros (movies & Hread & Hne & Hfs & _)%build_database_returned.
  exists movies. split; [done|]. split; [done|].
  by apply (store_after_to_sql _ w).
Qed.

(** C3: in every store the loader has built, the genre association has as
    many rows as the movies' genre fields have comma-separated tokens in
    total, and its rows are the pairs of a movie's identifier with one of
    the tokens of its genre field, trimmed of surrounding white space.
    [fields] lists the tokens of each movie's field. *)
Theorem movie_genres_rows (read_csv : string -> option (list movie))
    (csv_path db_path : string) (w w' : world) :
  build_database read_csv csv_path db_path w = Returned tt w' ->
  exists movies records fields,
    pd_read_csv read_csv csv_path w = Returned movies w
    /\ table tbl_movie_genres db_path w' = Some records
    /\ Forall2 (fun m toks => genre_field (Genre m) toks) movies fields
    /\ length records = sum_list_with length fields
    /\ (forall rank g, (rank, g) ∈ records <->
          exists m toks tok, m ∈ movies /\ rank = Rank m
            /\ genre_field (Genre m) toks /\ tok ∈ toks /\ trimmed tok g).
Proof.
  intros (movies & Hread & _ & Hstore)%loaded_store.
  exists movies, (genre_records movies),
    (map (fun m => Py.split "," (str (Genre m))) movies).
  split; [done|]. split; [unfold table; by rewrite Hstore|].
  split; [|split].
  - apply Forall2_fmap_r, Forall_Forall2_diag, Forall_forall.
    intros m _. by apply genre_field_iff.
  - rewrite length_genre_records. clear.
    induction movies as [|m ms IH]; [done|]. simpl. rewrite IH.
    unfold genre_tokens. by rewrite length_split.
  - intros rank g. rewrite elem_of_genre_records. split.
    + intros (m & tok & Hm & Hrank & Htok & Hg).
      exists m, (Py.split "," (str (Genre m))), tok.
      split; [done|]. split; [done|]. split; [by apply genre_field_iff|].
      split; [done|]. by apply trimmed_iff.
    + intros (m & toks & tok & Hm & Hrank & Hfield & Htok & Hg).
      apply genre_field_iff in Hfield as ->. apply trimmed_iff in Hg.
      by exists m, tok.
Qed.

Lemma movie_genres_rows_witness :
  exists movies records fields,
    pd_read_csv toy_read_csv toy_csv_path toy_world = Returned movies toy_world
    /\ table tbl_movie_genres toy_db_path toy_loaded_world = Some records
    /\ Forall2 (fun m toks => genre_field (Genre m) toks) movies fields
    /\ length records = sum_list_with length fields
    /\ (forall rank g, (rank, g) ∈ records <->
          exists m toks tok, m ∈ movies /\ rank = Rank m
            /\ genre_field (Genre m) toks /\ tok ∈ toks /\ trimmed tok g).
Proof.
  apply (movie_genres_rows toy_read_csv toy_csv_path toy_db_path
           toy_world toy_loaded_world).
  vm_compute. reflexivity.
Defined.

(** C9: a movie record whose genre field is missing is neither skipped nor
    fatal: the loader returns, and between the rows of the records before
    it and those of the records after it the genre association holds
    exactly one row for it, with the genre ["nan"]. *)
Theorem missing_genre_row (read_csv : string -> option (list movie))
    (csv_path db_path data : string) (w : world)
    (before after : list movie) (m : movie) :
  fs w !! csv_path = Some (File (Bytes data)) ->
  read_csv data = Some (before ++ m :: after) ->
  can_connect db_path w ->
  Genre m = None ->
  exists w',
    build_database read_csv csv_path db_path w = Returned tt w'
    /\ table tbl_movie_genres db_path w'
       = Some (genre_records before ++ (Rank m, "nan") :: genre_records after).
Proof.
  intros Hfile Hparse Hconn Hgenre.
  destruct (build_database_succeeds read_csv csv_path db_path w data
              (before ++ m :: after)) as [w' Hrun]; [done|done| |done|].
  { by destruct before. }
  exists w'. split; [done|].
  apply loaded_store in Hrun as (movies & Hread & _ & Hstore).
  apply pd_read_csv_returned in Hread as (_ & data' & Hfile' & Hparse').
  assert (movies = before ++ m :: after) as -> by congruence.
  unfold table. rewrite Hstore. simpl.
  rewrite genre_records_app, genre_records_cons.
  unfold genres_of. by rewrite Hgenre.
Qed.

Lemma missing_genre_row_witness :
  exists w',
    build_database nan_read_csv toy_csv_path toy_db_path toy_world = Returned tt w'
    /\ table tbl_movie_genres toy_db_path w'
       = Some (genre_records [] ++ (1, "nan") :: genre_records (drop 1 nan_movies)).
Proof.
  apply (missing_genre_row nan_read_csv toy_csv_path toy_db_path "Rank,Title"
           toy_world [] (drop 1 nan_movies)
           (Movie 1 "A" None (Some "X") 2000 (Some 120) (8 # 1) (Some (50 # 1)))).
  - vm_compute. reflexivity.
  - reflexivity.
  - left. vm_compute. reflexivity.
  - reflexivity.
Defined.

(** C4: in every store the loader has built, the directors table lists the
    distinct director names of the movies table in order of first
    appearance, and the k-th of them has identifier k: the row at position
    [k] (from 0) holds [k + 1], which is one more than the number of
    distinct names met before the first occurrence of its name. *)
Theorem director_ids_first_seen (read_csv : string -> option (list movie))
    (csv_path db_path : string) (w w' : world) :
  build_database read_csv csv_path db_path w = Returned tt w' ->
  exists movies directors,
    pd_read_csv read_csv csv_path w = Returned movies w
    /\ table tbl_directors db_path w' = Some directors
    /\ (forall k d id, directors !! k = Some (d, id) -> id = Z.of_nat k + 1)
    /\ (forall d id, (d, id) ∈ directors <->
          d ∈ map Director movies
          /\ id = first_seen_id d (map Director movies)).
Proof.
  intros (movies & Hread & _ & Hstore)%loaded_store.
  exists movies, (unique_directors movies).
  split; [done|]. split; [unfold table; by rewrite Hstore|]. split.
  - intros k d id Hk. by apply unique_directors_lookup in Hk as [_ ->].
  - apply elem_of_unique_directors.
Qed.

Lemma director_ids_first_seen_witness :
  exists movies directors,
    pd_read_csv toy_read_csv toy_csv_path toy_world = Returned movies toy_world
    /\ table tbl_directors toy_db_path toy_loaded_world = Some directors
    /\ (forall k d id, directors !! k = Some (d, id) -> id = Z.of_nat k + 1)
    /\ (forall d id, (d, id) ∈ directors <->
          d ∈ map Director movies
          /\ id = first_seen_id d (map Director movies)).
Proof.
  apply (director_ids_first_seen toy_read_csv toy_csv_path toy_db_path
           toy_world toy_loaded_world).
  vm_compute. reflexivity.
Defined.

(** C5: in every store the loader has built, the directors table has
    exactly one row per distinct director name of the movies table, and
    every identifier of the directors table is referenced by a row of the
    movie-directors association, that of a movie by this director. *)
Theorem directors_distinct_and_used (read_csv : string -> option (list movie))
    (csv_path db_path : string) (w w' : world) :
  build_database read_csv csv_path db_path w = Returned tt w' ->
  exists movies directors movie_directors,
    pd_read_csv read_csv csv_path w = Returned movies w
    /\ table tbl_directors db_path w' = Some directors
    /\ table tbl_movie_directors db_path w' = Some movie_directors
    /\ length directors = distinct (map Director movies)
    /\ NoDup (map fst directors)
    /\ (forall d, d ∈ map fst directors <-> d ∈ map Director movies)
    /\ (forall d id, (d, id) ∈ directors ->
          exists m, m ∈ movies /\ Director m = d
            /\ (Rank m, Some id) ∈ movie_directors).
Proof.
  intros (movies & Hread & _ & Hstore)%loaded_store.
  exists movies, (unique_directors movies), (movies_dir movies).
  split; [done|]. split; [unfold table; by rewrite Hstore|].
  split; [unfold table; by rewrite Hstore|].
  split; [apply length_unique_directors|].
  rewrite fst_unique_directors.
  split; [apply NoDup_unique|]. split; [apply elem_of_unique|].
  intros d id [Hd ->]%elem_of_unique_directors.
  apply list_elem_of_fmap in Hd as (m & -> & Hm).
  exists m. split; [done|]. split; [done|].
  rewrite movies_dir_eq. apply list_elem_of_fmap. by exists m.
Qed.

Lemma directors_distinct_and_used_witness :
  exists movies directors movie_directors,
    pd_read_csv toy_read_csv toy_csv_path toy_world = Returned movies toy_world
    /\ table tbl_directors toy_db_path toy_loaded_world = Some directors
    /\ table tbl_movie_directors toy_db_path toy_loaded_world = Some movie_directors
    /\ length directors = distinct (map Director movies)
    /\ NoDup (map fst directors)
    /\ (forall d, d ∈ map fst directors <-> d ∈ map Director movies)
    /\ (forall d id, (d, id) ∈ directors ->
          exists m, m ∈ movies /\ Director m = d
            /\ (Rank m, Some id) ∈ movie_directors).
Proof.
  apply (directors_distinct_and_used toy_read_csv toy_csv_path toy_db_path
           toy_world toy_loaded_world).
  vm_compute. reflexivity.
Defined.

(** ** Reporter: the files of the output directory *)

Lemma write_all_app files1 files2 m :
  write_all (files1 ++ files2) m = write_all files2 (write_all files1 m).
Proof. unfold write_all. apply foldl_app. Qed.

Lemma write_all_other files m path :
  path ∉ map fst files -> write_all files m !! path = m !! path.
Proof.
  revert m. induction files as [|[p c] files IH]; intros m Hnot; [done|].
  simpl in *. apply not_elem_of_cons in Hnot as [Hne Hnot].
  rewrite IH by done. by apply lookup_insert_ne.
Qed.

(** A path written once holds what was written. *)
Lemma write_all_lookup files m path data :
  NoDup (map fst files) -> (path, data) ∈ files ->
  write_all files m !! path = Some (File (Bytes data)).
Proof.
  revert m. induction files as [|[p c] files IH]; intros m Hnd Hin;
    [by apply elem_of_nil in Hin|].
  simpl in *. apply NoDup_cons in Hnd as [Hp Hnd].
  apply elem_of_cons in Hin as [[= -> ->]|Hin].
  - rewrite write_all_other by done. apply lookup_insert_eq.
  - by apply IH.
Qed.

(** A path written at all is a regular file. *)
Lemma write_all_is_file files m path :
  path ∈ map fst files -> exists data, write_all files m !! path = Some (File (Bytes data)).
Proof.
  revert m. induction files as [|[p c] files IH]; intros m Hin;
    [by apply elem_of_nil in Hin|].
  simpl in *. destruct (decide (path ∈ map fst files)) as [Hlater|Hlater].
  - by apply IH.
  - apply elem_of_cons in Hin as [->|Hin]; [|done].
    exists c. rewrite write_all_other by done. apply lookup_insert_eq.
Qed.

(** Paths below a directory. *)
Lemma append_inj_r (s a b : string) : s +:+ a = s +:+ b -> a = b.
Proof.
  induction s as [|c s IH]; step_append; [done|].
  intros [= H]. by apply IH.
Qed.

Lemma join_inj (dir a b : string) : Os.join dir a = Os.join dir b -> a = b.
Proof.
  unfold Os.join. intros H%append_inj_r. by injection H.
Qed.

Lemma length_append (s t : string) :
  String.length (s +:+ t) = (String.length s + String.length t)%nat.
Proof. induction s as [|c s IH]; step_append; simpl; [done|]. by rewrite IH. Qed.

Lemma join_ne_dir (dir name : string) : Os.join dir name <> dir.
Proof.
  unfold Os.join. intros H.
  apply (f_equal String.length) in H.
  rewrite !length_append in H. simpl in H. lia.
Qed.

#[local] Instance join_Inj dir : Inj (=) (=) (Os.join dir).
Proof. intros a b. apply join_inj. Qed.

(** The thirty-three artefact names are pairwise distinct, and so are the
    eleven statements. *)
Lemma artefact_names_NoDup : NoDup (queries ≫= artefact_names).
Proof. refine (bool_decide_unpack _ _). vm_compute. exact I. Qed.

Lemma statements_NoDup : NoDup (map snd queries).
Proof. refine (bool_decide_unpack _ _). vm_compute. exact I. Qed.

Lemma artefact_paths_names output_dir (qs : list (string * statement)) :
  qs ≫= artefact_paths output_dir = Os.join output_dir <$> (qs ≫= artefact_names).
Proof.
  induction qs as [|e qs IH]; [done|].
  rewrite !bind_cons, fmap_app, IH. done.
Qed.

Lemma artefact_paths_NoDup output_dir : NoDup (queries ≫= artefact_paths output_dir).
Proof.
  rewrite artefact_paths_names. apply NoDup_fmap_2; [apply _|].
  apply artefact_names_NoDup.
Qed.

Lemma pd_read_sql_returned q conn w df w' :
  pd_read_sql q conn w = Returned df w' ->
  w' = w /\ Sqlite3.store conn w ≫= Sql.execute q = Some df.
Proof.
  unfold pd_read_sql.
  destruct (Sqlite3.store conn w ≫= Sql.execute q) as [df'|]; [|discriminate].
  by intros [= -> ->].
Qed.

Lemma pd_read_sql_raised q conn w e w' :
  pd_read_sql q conn w = Raised e w' -> e = DatabaseError q /\ w' = w.
Proof.
  unfold pd_read_sql.
  destruct (Sqlite3.store conn w ≫= Sql.execute q) as [df'|]; [discriminate|].
  by intros [= <- <-].
Qed.

Lemma serves_insert conn db w w' path data :
  serves conn db w -> fs w' = <[path := File (Bytes data)]> (fs w) ->
  serves conn db w'.
Proof.
  unfold serves. intros Hs ->. destruct (decide (path = conn)) as [->|Hne].
  - right. exists data. apply lookup_insert_eq.
  - by rewrite lookup_insert_ne.
Qed.

(** A statement that ran on a connection that serves [db] ran on [db]. *)
Lemma serves_execute conn db w q df :
  serves conn db w -> Sqlite3.store conn w ≫= Sql.execute q = Some df ->
  Sql.execute q db = Some df.
Proof.
  intros [Hdb|[data Hdata]] Hrun.
  - by rewrite (store_lookup _ _ _ Hdb) in Hrun.
  - destruct (Sqlite3.store conn w) as [db'|] eqn:E; [|done]. simpl in Hrun.
    rewrite (store_bytes _ _ _ _ Hdata E), execute_empty in Hrun. done.
Qed.

(** ** The Reporter's loop on any engine *)

(** With [Sql.execute] for engine the three definitions are those of the
    script. *)
Lemma run_queries_on_execute
    (to_csv : frame -> string)
    (render : nat -> list string -> list (list value) -> option string)
    (db_path output_dir : string) :
  run_queries_on Sql.execute to_csv render db_path output_dir
  = run_queries to_csv render db_path output_dir.
Proof. reflexivity. Qed.

Section ReporterOn.
Variable execute : statement -> database -> option frame.
Variable to_csv : frame -> string.
Variable render : nat -> list string -> list (list value) -> option string.

Lemma pd_read_sql_on_returned q conn w df w' :
  pd_read_sql_on execute q conn w = Returned df w' ->
  w' = w /\ Sqlite3.store conn w ≫= execute q = Some df.
Proof.
  unfold pd_read_sql_on.
  destruct (Sqlite3.store conn w ≫= execute q) as [df'|]; [|discriminate].
  by intros [= -> ->].
Qed.

Lemma pd_read_sql_on_raised q conn w e w' :
  pd_read_sql_on execute q conn w = Raised e w' -> e = DatabaseError q /\ w' = w.
Proof.
  unfold pd_read_sql_on.
  destruct (Sqlite3.store conn w ≫= execute q) as [df'|]; [discriminate|].
  by intros [= <- <-].
Qed.

(** One turn of the loop that returns has written the text of the
    statement, run it, and written its two renderings, in this order. *)
Lemma report_on_returned_files conn output_dir entry w w' :
  report_on execute to_csv render conn output_dir entry w = Returned tt w' ->
  exists df png w1,
    fs w1 = <[sql_path output_dir entry.1
              := File (Bytes (Py.strip (sql_text entry.2) +:+ newline))]> (fs w)
    /\ Sqlite3.store conn w1 ≫= execute entry.2 = Some df
    /\ preview render df = Some png
    /\ fs w' = <[png_path_of output_dir entry.1 := File (Bytes png)]>
                (<[csv_path_of output_dir entry.1 := File (Bytes (to_csv df))]> (fs w1))
    /\ requests w' = requests w.
Proof.
  unfold report_on. cbv zeta. intros H. do 3 io_step H.
  apply write_file_returned in Hstep as [Hfs1 Hreq1].
  apply pd_read_sql_on_returned in Hstep0 as [-> Hrun].
  apply write_file_returned in Hstep1 as [Hfs2 Hreq2].
  fold (preview render a0) in H.
  destruct (preview render a0) as [png|] eqn:Hpng; [|discriminate].
  apply write_file_returned in H as [Hfs3 Hreq3].
  exists a0, png, w0. split; [done|]. split; [done|]. split; [done|].
  split; [|congruence]. by rewrite Hfs3, Hfs2.
Qed.

(** One turn of the loop that fails on its statement has written the text
    of the statement and nothing else. *)
Lemma report_on_raised_database conn output_dir entry w q w' :
  report_on execute to_csv render conn output_dir entry w
    = Raised (DatabaseError q) w' ->
  q = entry.2
  /\ fs w' = <[sql_path output_dir entry.1
               := File (Bytes (Py.strip (sql_text entry.2) +:+ newline))]> (fs w).
Proof.
  unfold report_on. cbv zeta.
  intros [H|(a & w1 & Hsql & H)]%bind_raised.
  { by apply write_file_raised in H as [? _]. }
  apply write_file_returned in Hsql as [Hfs1 _].
  apply bind_raised in H as [H|(df & w2 & _ & H)].
  { apply pd_read_sql_on_raised in H as [[= ->] ->]. done. }
  apply bind_raised in H as [H|(a' & w3 & _ & H)];
    [by apply write_file_raised in H as [? _]|].
  destruct (render _ _ _); [by apply write_file_raised in H as [? _]|done].
Qed.

Lemma for_each_report_on_files conn output_dir qs w w' :
  for_each qs (report_on execute to_csv render conn output_dir) w = Returned tt w' ->
  exists files,
    map fst files = qs ≫= artefact_paths output_dir
    /\ fs w' = write_all files (fs w).
Proof.
  revert w. induction qs as [|entry qs IH]; intros w H.
  - injection H as <-. by exists [].
  - simpl in H. apply bind_returned in H as ([] & w1 & Hturn & H).
    apply report_on_returned_files in Hturn
      as (df & png & w0 & Hfs0 & _ & _ & Hfs1 & _).
    destruct (IH w1 H) as (files & Hpaths & Hfs).
    eexists ((_, _) :: (_, _) :: (_, _) :: files). split.
    + rewrite bind_cons. simpl. by rewrite Hpaths.
    + by rewrite Hfs, Hfs1, Hfs0.
Qed.

(** The loop fails on a statement in the turn of that statement, after
    every earlier turn has returned. *)
Lemma for_each_report_on_raised_member conn output_dir qs w q w' :
  for_each qs (report_on execute to_csv render conn output_dir) w
    = Raised (DatabaseError q) w' ->
  q ∈ map snd qs.
Proof.
  revert w. induction qs as [|entry qs IH]; intros w H; [done|].
  simpl in H. apply bind_raised in H as [H|(a & w1 & _ & H)].
  - apply report_on_raised_database in H as [-> _]. left.
  - right. by eapply IH.
Qed.

Lemma for_each_report_on_raised_at conn output_dir before entry after w w' :
  NoDup (map snd (before ++ entry :: after)) ->
  for_each (before ++ entry :: after) (report_on execute to_csv render conn output_dir) w
    = Raised (DatabaseError entry.2) w' ->
  exists w1,
    for_each before (report_on execute to_csv render conn output_dir) w = Returned tt w1
    /\ report_on execute to_csv render conn output_dir entry w1
       = Raised (DatabaseError entry.2) w'.
Proof.
  revert w. induction before as [|e before IH]; intros w Hnd H.
  - exists w. split; [done|]. simpl in *.
    apply bind_raised in H as [H|(a & w1 & _ & H)]; [done|].
    apply for_each_report_on_raised_member in H.
    apply NoDup_cons in Hnd as [Hnot _]. done.
  - simpl in *. apply NoDup_cons in Hnd as [Hnot Hnd].
    apply bind_raised in H as [H|([] & w1 & Hturn & H)].
    + apply report_on_raised_database in H as [Heq _]. destruct Hnot.
      rewrite <- Heq, map_app. apply elem_of_app. right. left.
    + destruct (IH w1 Hnd H) as (w2 & Hloop & Hfail).
      exists w2. split; [|done]. apply bind_returned. by exists tt, w1.
Qed.

End ReporterOn.

Section Reporter.
Variable to_csv : frame -> string.
Variable render : nat -> list string -> list (list value) -> option string.

(** One turn of the loop that returns has written the text of the
    statement, run it, and written its two renderings, in this order. *)
Lemma report_returned_files conn output_dir entry w w' :
  report to_csv render conn output_dir entry w = Returned tt w' ->
  exists df png w1,
    fs w1 = <[sql_path output_dir entry.1
              := File (Bytes (Py.strip (sql_text entry.2) +:+ newline))]> (fs w)
    /\ Sqlite3.store conn w1 ≫= Sql.execute entry.2 = Some df
    /\ preview render df = Some png
    /\ fs w' = <[png_path_of output_dir entry.1 := File (Bytes png)]>
                (<[csv_path_of output_dir entry.1 := File (Bytes (to_csv df))]> (fs w1))
    /\ requests w' = requests w.
Proof. apply (report_on_returned_files Sql.execute). Qed.

Lemma report_returned conn output_dir db entry w w' :
  serves conn db w ->
  report to_csv render conn output_dir entry w = Returned tt w' ->
  reported render db entry
  /\ fs w' = write_all (artefacts to_csv render db output_dir entry) (fs w)
  /\ requests w' = requests w
  /\ serves conn db w'.
Proof.
  intros Hs (df & png & w1 & Hfs1 & Hrun & Hpng & Hfs' & Hreq)%report_returned_files.
  pose proof (serves_insert _ _ _ _ _ _ Hs Hfs1) as Hs1.
  apply (serves_execute _ _ _ _ _ Hs1) in Hrun.
  split; [by exists df, png|]. split; [|split; [done|]].
  - unfold artefacts. rewrite Hrun, Hpng, Hfs', Hfs1. done.
  - set (w2 := World (<[csv_path_of output_dir entry.1 := File (Bytes (to_csv df))]>
                        (fs w1)) [] []).
    assert (serves conn db w2) as Hs2 by (by eapply serves_insert).
    eapply serves_insert; [exact Hs2|exact Hfs'].
Qed.

(** The loop, when every turn returns. *)
Lemma for_each_report_returned conn output_dir db qs w w' :
  serves conn db w ->
  for_each qs (report to_csv render conn output_dir) w = Returned tt w' ->
  fs w' = write_all (qs ≫= artefacts to_csv render db output_dir) (fs w)
  /\ Forall (reported render db) qs
  /\ requests w' = requests w.
Proof.
  revert w. induction qs as [|entry qs IH]; intros w Hs H.
  - by injection H as <-.
  - simpl in H. apply bind_returned in H as ([] & w1 & Hturn & H).
    apply (report_returned _ _ db) in Hturn as (Hrun & Hfs1 & Hreq1 & Hs1); [|done].
    destruct (IH w1 Hs1 H) as (Hfs & Hall & Hreq).
    split; [|split; [by constructor|congruence]].
    by rewrite bind_cons, write_all_app, <- Hfs1.
Qed.

Lemma for_each_report_files conn output_dir qs w w' :
  for_each qs (report to_csv render conn output_dir) w = Returned tt w' ->
  exists files,
    map fst files = qs ≫= artefact_paths output_dir
    /\ fs w' = write_all files (fs w).
Proof. apply (for_each_report_on_files Sql.execute). Qed.

End Reporter.

(** ** Acquirer *)

Example download_into_empty_world :
  exists w,
    download_csv toy_remote toy_csv_path empty_world = Returned tt w
    /\ fs w !! toy_csv_path = Some (File (Bytes "Rank,Title"))
    /\ requests w = [REPO_URL].
Proof. eexists. split; [vm_compute; reflexivity|]. split; vm_compute; reflexivity. Qed.

(** When the target exists, nothing is fetched and nothing is written. *)
Lemma download_csv_present (remote : string -> response) csv_path w :
  is_Some (fs w !! csv_path) ->
  download_csv remote csv_path w
  = Returned tt (World (fs w) (requests w)
                       (stdout w ++ ["CSV already present at " +:+ csv_path])).
Proof.
  intros Hsome. unfold download_csv, Os.path_exists, mbind, io_bind.
  by rewrite bool_decide_eq_true_2.
Qed.

(** A run that returns leaves a target that exists. *)
Lemma download_csv_returned (remote : string -> response) csv_path w w' :
  download_csv remote csv_path w = Returned tt w' -> is_Some (fs w' !! csv_path).
Proof.
  destruct (decide (is_Some (fs w !! csv_path))) as [Hsome|Hnone].
  - rewrite download_csv_present by done. by intros [= <-].
  - unfold download_csv. intros H.
    apply bind_returned in H as (present & w0 & Hexists & H).
    unfold Os.path_exists in Hexists. injection Hexists as <- <-.
    rewrite bool_decide_eq_false_2 in H by done.
    do 5 io_step H.
    apply write_node_returned in Hstep3 as [Hfs _].
    apply print_returned in H as [Hfs' _].
    rewrite Hfs', Hfs, lookup_insert_eq. eauto.
Qed.

(** C8: when the target file exists, [download_csv] sends no request and
    leaves the file system as it is; hence a second run after a first run
    that returned is a no-op on the file system and the network. *)
Theorem download_csv_idempotent (remote : string -> response)
    (csv_path : string) (w : world) :
  (is_Some (fs w !! csv_path) ->
     exists w', download_csv remote csv_path w = Returned tt w'
       /\ fs w' = fs w /\ requests w' = requests w)
  /\ (forall w1, download_csv remote csv_path w = Returned tt w1 ->
        exists w2, download_csv remote csv_path w1 = Returned tt w2
          /\ fs w2 = fs w1 /\ requests w2 = requests w1).
Proof.
  assert (forall w0, is_Some (fs w0 !! csv_path) ->
    exists w', download_csv remote csv_path w0 = Returned tt w'
      /\ fs w' = fs w0 /\ requests w' = requests w0) as Hpresent.
  { intros w0 Hsome. eexists. split; [by apply download_csv_present|done]. }
  split; [apply Hpresent|].
  intros w1 Hrun. by apply Hpresent, (download_csv_returned remote _ w).
Qed.

Example download_twice :
  exists w1 w2,
    download_csv toy_remote toy_csv_path empty_world = Returned tt w1
    /\ download_csv toy_remote toy_csv_path w1 = Returned tt w2
    /\ fs w2 = fs w1 /\ requests w2 = [REPO_URL].
Proof.
  do 2 eexists. split; [vm_compute; reflexivity|].
  split; [vm_compute; reflexivity|]. split; vm_compute; reflexivity.
Qed.

(** ** The Reporter and the pipeline *)

Section Pipeline.
Variable read_csv : string -> option (list movie).
Variable to_csv : frame -> string.
Variable render : nat -> list string -> list (list value) -> option string.

Lemma artefacts_paths db output_dir (qs : list (string * statement)) :
  Forall (reported render db) qs ->
  map fst (qs ≫= artefacts to_csv render db output_dir)
  = qs ≫= artefact_paths output_dir.
Proof.
  induction 1 as [|entry qs (df & png & Hrun & Hpng) _ IH]; [done|].
  rewrite !bind_cons, map_app, IH. f_equal.
  unfold artefacts. by rewrite Hrun, Hpng.
Qed.

(** The Reporter on a store [db]: a run that returns has executed every
    statement on [db] and has written the artefacts of every entry. *)
Lemma run_queries_returned db_path output_dir db w w' :
  fs w !! db_path = Some (File (Sqlite db)) ->
  run_queries to_csv render db_path output_dir w = Returned tt w' ->
  fs w' = write_all (queries ≫= artefacts to_csv render db output_dir)
                    (<[output_dir := Directory]> (fs w))
  /\ Forall (reported render db) queries.
Proof.
  intros Hdb H. unfold run_queries in H. do 4 io_step H.
  apply mkdir_returned in Hstep as [Hfs0 _].
  apply connect_returned in Hstep0 as (-> & _ & Hconn).
  assert (fs w1 = fs w0 /\ fs w0 !! db_path = Some (File (Sqlite db))) as [Hfs1 Hdb0].
  { rewrite Hfs0 in *. destruct (decide (output_dir = db_path)) as [->|Hne].
    - rewrite lookup_insert_eq in Hconn. by destruct Hconn as [[[c ?] _]|[? _]].
    - rewrite lookup_insert_ne in Hconn |- * by done.
      rewrite Hdb in Hconn. by destruct Hconn as [[_ ?]|[? _]]. }
  destruct a1.
  apply (for_each_report_returned to_csv render db_path output_dir db)
    in Hstep1 as (Hfs2 & Hall & _).
  - injection Hstep2 as _ <-. apply print_returned in H as [Hfs3 _].
    split; [|done]. by rewrite Hfs3, Hfs2, Hfs1, Hfs0.
  - left. by rewrite Hfs1.
Qed.

(** One run of the pipeline: the CSV file of every statement holds
    [csv_output] of the dataset's text. *)
Lemma pipeline_csv csv_path db_path output_dir data w w' :
  fs w !! csv_path = Some (File (Bytes data)) ->
  pipeline read_csv to_csv render csv_path db_path output_dir w = Returned tt w' ->
  forall fname q, (fname, q) ∈ queries ->
    exists content,
      csv_output read_csv to_csv data q = Some content
      /\ fs w' !! csv_path_of output_dir fname = Some (File (Bytes content)).
Proof.
  intros Hdata H fname q Hin. unfold pipeline in H.
  apply bind_returned in H as ([] & w0 & Hbuild & Hrun).
  apply build_database_returned in Hbuild as (movies & Hread & _ & Hfs0 & _).
  apply pd_read_csv_returned in Hread as (_ & data' & Hdata' & Hparse).
  assert (data' = data) as -> by congruence.
  apply (run_queries_returned _ _ (loaded movies)) in Hrun as [Hfs Hall];
    [|by rewrite Hfs0, lookup_insert_eq].
  pose proof Hall as Hq. rewrite Forall_forall in Hq.
  destruct (Hq _ Hin) as (df & png & Hdf & Hpng). simpl in Hdf.
  exists (to_csv df). split.
  - unfold csv_output. rewrite Hparse. simpl. by rewrite Hdf.
  - rewrite Hfs. apply write_all_lookup.
    + rewrite artefacts_paths by done. apply artefact_paths_NoDup.
    + apply list_elem_of_bind. exists (fname, q). split; [|done].
      unfold artefacts. simpl. rewrite Hdf. right. left.
Qed.

(** The pipeline leaves alone every path that is neither the store, nor
    the output directory, nor an artefact. *)
Lemma pipeline_frame csv_path db_path output_dir w w' path :
  pipeline read_csv to_csv render csv_path db_path output_dir w = Returned tt w' ->
  path <> db_path -> path <> output_dir ->
  path ∉ queries ≫= artefact_paths output_dir ->
  fs w' !! path = fs w !! path.
Proof.
  intros H Hdb Hout Hart. unfold pipeline in H.
  apply bind_returned in H as ([] & w0 & Hbuild & Hrun).
  apply build_database_returned in Hbuild as (movies & _ & _ & Hfs0 & _).
  apply (run_queries_returned _ _ (loaded movies)) in Hrun as [Hfs Hall];
    [|by rewrite Hfs0, lookup_insert_eq].
  rewrite Hfs, write_all_other by (by rewrite artefacts_paths).
  by rewrite lookup_insert_ne, Hfs0, lookup_insert_ne.
Qed.

Lemma append_assoc (a b c : string) : (a +:+ b) +:+ c = a +:+ (b +:+ c).
Proof. induction a as [|x a IH]; step_append; [done|]. by rewrite IH. Qed.

(** In the layout of [main] the dataset is none of the paths written. *)
Lemma dataset_apart (base_dir : string) :
  let csv_path := Os.join base_dir "IMDB-Movie-Data.csv" in
  let output_dir := Os.join base_dir "query_results" in
  csv_path <> Os.join base_dir "imdb_top1000.db"
  /\ csv_path <> output_dir
  /\ csv_path ∉ queries ≫= artefact_paths output_dir.
Proof.
  cbv zeta. split; [|split].
  - by intros H%join_inj.
  - by intros H%join_inj.
  - rewrite artefact_paths_names. intros (name & H & _)%list_elem_of_fmap.
    unfold Os.join in H. rewrite append_assoc in H.
    apply append_inj_r in H. step_append. discriminate.
Qed.

(** Running the whole script a second time rewrites every CSV output with
    the bytes it already holds. *)
Lemma main_rerun (remote : string -> response) base_dir w w1 w2 :
  main read_csv to_csv render remote base_dir w = Returned tt w1 ->
  main read_csv to_csv render remote base_dir w1 = Returned tt w2 ->
  forall fname q, (fname, q) ∈ queries ->
    exists content,
      fs w1 !! csv_path_of (Os.join base_dir "query_results") fname
        = Some (File (Bytes content))
      /\ fs w2 !! csv_path_of (Os.join base_dir "query_results") fname
        = Some (File (Bytes content)).
Proof.
  unfold main. cbv zeta.
  set (csv_path := Os.join base_dir "IMDB-Movie-Data.csv").
  set (db_path := Os.join base_dir "imdb_top1000.db").
  set (output_dir := Os.join base_dir "query_results").
  change (build_database read_csv csv_path db_path
          ≫= (fun _ => run_queries to_csv render db_path output_dir))
    with (pipeline read_csv to_csv render csv_path db_path output_dir).
  intros H1 H2 fname q Hin.
  apply bind_returned in H1 as ([] & w0 & Hget1 & Hrun1).
  apply bind_returned in H2 as ([] & w0' & Hget2 & Hrun2).
  assert (exists data, fs w0 !! csv_path = Some (File (Bytes data))) as [data Hdata].
  { pose proof Hrun1 as H. unfold pipeline in H.
    apply bind_returned in H as ([] & w' & Hbuild & _).
    apply build_database_returned in Hbuild as (movies & Hread & _).
    apply pd_read_csv_returned in Hread as (_ & data & Hdata & _). eauto. }
  destruct (dataset_apart base_dir) as (Hdb & Hout & Hart).
  assert (fs w1 !! csv_path = Some (File (Bytes data))) as Hdata1.
  { transitivity (fs w0 !! csv_path); [|done].
    exact (pipeline_frame _ _ _ _ _ _ Hrun1 Hdb Hout Hart). }
  assert (fs w0' !! csv_path = Some (File (Bytes data))) as Hdata2.
  { rewrite download_csv_present in Hget2 by (by rewrite Hdata1).
    injection Hget2 as <-. exact Hdata1. }
  destruct (pipeline_csv _ _ _ _ _ _ Hdata Hrun1 fname q Hin) as (c1 & Hc1 & Hf1).
  destruct (pipeline_csv _ _ _ _ _ _ Hdata2 Hrun2 fname q Hin) as (c2 & Hc2 & Hf2).
  exists c1. split; [done|]. congruence.
Qed.

End Pipeline.

(** C1: the CSV outputs of the pipeline are a function of the text of the
    dataset: two runs of the Loader followed by the Reporter on the same
    dataset file, from worlds that may differ in everything else (an older
    store, older outputs), leave for each of the eleven statements a CSV
    file with the same bytes, namely [csv_output] of the dataset. *)
Theorem csv_outputs_deterministic
    (read_csv : string -> option (list movie)) (to_csv : frame -> string)
    (render : nat -> list string -> list (list value) -> option string)
    (csv_path db_path output_dir data : string) (w1 w2 w1' w2' : world) :
  fs w1 !! csv_path = Some (File (Bytes data)) ->
  fs w2 !! csv_path = Some (File (Bytes data)) ->
  pipeline read_csv to_csv render csv_path db_path output_dir w1 = Returned tt w1' ->
  pipeline read_csv to_csv render csv_path db_path output_dir w2 = Returned tt w2' ->
  forall fname q, (fname, q) ∈ queries ->
    exists content,
      csv_output read_csv to_csv data q = Some content
      /\ fs w1' !! csv_path_of output_dir fname = Some (File (Bytes content))
      /\ fs w2' !! csv_path_of output_dir fname = Some (File (Bytes content)).
Proof.
  intros Hdata1 Hdata2 Hrun1 Hrun2 fname q Hin.
  destruct (pipeline_csv _ _ _ _ _ _ _ _ _ Hdata1 Hrun1 fname q Hin)
    as (content1 & Hout1 & Hfile1).
  destruct (pipeline_csv _ _ _ _ _ _ _ _ _ Hdata2 Hrun2 fname q Hin)
    as (content2 & Hout2 & Hfile2).
  exists content1. split; [done|]. split; [done|]. congruence.
Qed.

Lemma csv_outputs_deterministic_witness :
  exists content,
    csv_output toy_read_csv header_csv "Rank,Title" Q02 = Some content
    /\ fs (world_after
             (pipeline toy_read_csv header_csv stub_render
                       toy_csv_path toy_db_path toy_output_dir toy_world))
       !! csv_path_of toy_output_dir "02_average_rating_per_genre.sql"
       = Some (File (Bytes content))
    /\ fs (world_after
             (pipeline toy_read_csv header_csv stub_render
                       toy_csv_path toy_db_path toy_output_dir stale_world))
       !! csv_path_of toy_output_dir "02_average_rating_per_genre.sql"
       = Some (File (Bytes content)).
Proof.
  apply (csv_outputs_deterministic toy_read_csv header_csv stub_render
           toy_csv_path toy_db_path toy_output_dir "Rank,Title"
           toy_world stale_world).
  - vm_compute. reflexivity.
  - vm_compute. reflexivity.
  - vm_compute. reflexivity.
  - vm_compute. reflexivity.
  - right. left.
Defined.

(** The Reporter aborting on a statement, whatever the engine and for any
    store path that is neither the [.csv] nor the [.png] path of that
    statement. *)
Lemma run_queries_on_raised_database
    (execute : statement -> database -> option frame)
    (to_csv : frame -> string)
    (render : nat -> list string -> list (list value) -> option string)
    (db_path output_dir : string) (w w' : world)
    (before after : list (string * statement)) (fname : string) (q : statement) :
  queries = before ++ (fname, q) :: after ->
  db_path <> csv_path_of output_dir fname ->
  db_path <> png_path_of output_dir fname ->
  run_queries_on execute to_csv render db_path output_dir w
    = Raised (DatabaseError q) w' ->
  (forall entry path,
     entry ∈ before -> path ∈ artefact_paths output_dir entry -> is_file path w')
  /\ fs w' !! sql_path output_dir fname
     = Some (File (Bytes (Py.strip (sql_text q) +:+ newline)))
  /\ fs w' !! csv_path_of output_dir fname = fs w !! csv_path_of output_dir fname
  /\ fs w' !! png_path_of output_dir fname = fs w !! png_path_of output_dir fname.
Proof.
  intros Hqs Hdb_csv Hdb_png H.
  pose proof (artefact_paths_NoDup output_dir) as Hnd.
  rewrite Hqs, bind_app, bind_cons in Hnd.
  apply NoDup_app in Hnd as (_ & Hbefore & Hnd).
  apply NoDup_app in Hnd as (Hentry & _ & _).
  unfold artefact_paths in Hentry. simpl in Hentry.
  apply NoDup_cons in Hentry as [Hsql Hentry].
  assert (sql_path output_dir fname <> csv_path_of output_dir fname
          /\ sql_path output_dir fname <> png_path_of output_dir fname)
    as [Hsql_csv Hsql_png].
  { split; intros Heq; apply Hsql; rewrite Heq; [left|right; left]. }
  clear Hsql Hentry.
  unfold run_queries_on in H.
  apply bind_raised in H as [H|([] & w0 & Hmk & H)];
    [by apply mkdir_raised in H as [? _]|].
  apply mkdir_returned in Hmk as [Hfs0 _].
  apply bind_raised in H as [H|(conn & w1 & Hconn & H)];
    [by apply connect_raised in H as [? _]|].
  apply connect_returned in Hconn as (-> & _ & Hconn).
  apply bind_raised in H as [H|([] & w2 & _ & H)]; [|done].
  rewrite Hqs in H.
  apply (for_each_report_on_raised_at execute to_csv render db_path output_dir
           before (fname, q) after) in H as (w2 & Hloop & Hfail);
    [|rewrite <- Hqs; apply statements_NoDup].
  apply report_on_raised_database in Hfail as [_ Hfs'].
  apply for_each_report_on_files in Hloop as (files & Hpaths & Hfs2).
  simpl in Hfs'.
  assert (forall path,
    path ∈ [csv_path_of output_dir fname; png_path_of output_dir fname] ->
    db_path <> path -> sql_path output_dir fname <> path ->
    fs w' !! path = fs w !! path) as Hkept.
  { intros path Hpath Hdb Hne.
    rewrite Hfs', lookup_insert_ne by done. rewrite Hfs2, write_all_other.
    - assert (fs w1 !! path = fs w0 !! path) as ->.
      { destruct Hconn as [[_ ->]|[_ ->]]; [done|by rewrite lookup_insert_ne]. }
      rewrite Hfs0. apply lookup_insert_ne.
      intros Heq. unfold csv_path_of, png_path_of in Hpath.
      apply elem_of_cons in Hpath as [->|[->|[]%elem_of_nil]%elem_of_cons];
        by apply eq_sym, join_ne_dir in Heq.
    - rewrite Hpaths. intros Hin. apply (Hbefore path Hin).
      apply elem_of_app. left. unfold artefact_paths. simpl. by right. }
  split; [|split; [|split]].
  - intros entry path Hentry Hpath.
    assert (path ∈ map fst files) as Hin.
    { rewrite Hpaths. apply list_elem_of_bind. by exists entry. }
    destruct (write_all_is_file files (fs w1) path Hin) as [data Hdata].
    unfold is_file. rewrite Hfs'.
    destruct (decide (sql_path output_dir fname = path)) as [<-|Hne].
    + rewrite lookup_insert_eq. eauto.
    + rewrite lookup_insert_ne, Hfs2 by done. eauto.
  - rewrite Hfs'. apply lookup_insert_eq.
  - apply Hkept; [left|done|done].
  - apply Hkept; [right; left|done|done].
Qed.

(** In the layout of [main] the store is no artefact path. *)
Lemma store_apart (base_dir fname : string) :
  let db_path := Os.join base_dir "imdb_top1000.db" in
  let output_dir := Os.join base_dir "query_results" in
  db_path <> csv_path_of output_dir fname
  /\ db_path <> png_path_of output_dir fname.
Proof.
  cbv zeta. unfold csv_path_of, png_path_of, Os.join.
  split; intros H; rewrite append_assoc in H; apply append_inj_r in H;
    step_append; discriminate.
Qed.

(** Every statement can be the one that fails: on the store of the worked
    example, the engine that rejects the statement [q] alone makes the
    Reporter abort on [q]. *)
Lemma every_statement_can_fail (fname : string) (q : statement) :
  (fname, q) ∈ queries ->
  exists w',
    run_queries_on (execute_but q) header_csv stub_render toy_db_path toy_output_dir
      toy_loaded_world
    = Raised (DatabaseError q) w'.
Proof.
  intros Hin. unfold queries in Hin.
  repeat (apply elem_of_cons in Hin as [[= -> ->]|Hin];
          [eexists; vm_compute; reflexivity|]).
  by apply elem_of_nil in Hin.
Qed.

(** C10, amended: in every turn of the Reporter's loop the text of the
    statement is written before the statement is executed.  When the run
    aborts because the engine rejects statement k, for whatever reason,
    the three artefacts of every earlier statement and the [.sql] file of
    statement k are files of the output directory, and the [.csv] and
    [.png] paths of statement k are left as they were before the run:
    absent if they were absent, the files of an earlier run otherwise.
    For the engine [Sql.execute], [run_queries_on] is [run_queries]. *)
Theorem artefacts_when_statement_fails
    (execute : statement -> database -> option frame)
    (to_csv : frame -> string)
    (render : nat -> list string -> list (list value) -> option string)
    (base_dir : string) (w w' : world)
    (before after : list (string * statement)) (fname : string) (q : statement) :
  let db_path := Os.join base_dir "imdb_top1000.db" in
  let output_dir := Os.join base_dir "query_results" in
  queries = before ++ (fname, q) :: after ->
  run_queries_on execute to_csv render db_path output_dir w
    = Raised (DatabaseError q) w' ->
  (forall entry path,
     entry ∈ before -> path ∈ artefact_paths output_dir entry -> is_file path w')
  /\ fs w' !! sql_path output_dir fname
     = Some (File (Bytes (Py.strip (sql_text q) +:+ newline)))
  /\ fs w' !! csv_path_of output_dir fname = fs w !! csv_path_of output_dir fname
  /\ fs w' !! png_path_of output_dir fname = fs w !! png_path_of output_dir fname.
Proof.
  intros db_path output_dir Hqs Hrun.
  destruct (store_apart base_dir fname) as [Hcsv Hpng].
  by apply (run_queries_on_raised_database execute to_csv render db_path output_dir
              w w' before after fname q).
Qed.

Lemma artefacts_when_statement_fails_witness :
  (forall entry path,
     entry ∈ take 4 queries -> path ∈ artefact_paths toy_output_dir entry ->
     is_file path
       (world_after (run_queries_on execute_without_windows header_csv stub_render
                       toy_db_path toy_output_dir toy_loaded_world)))
  /\ fs (world_after (run_queries_on execute_without_windows header_csv stub_render
                        toy_db_path toy_output_dir toy_loaded_world))
       !! sql_path toy_output_dir "05_top_movie_per_year.sql"
     = Some (File (Bytes (Py.strip (sql_text Q05) +:+ newline)))
  /\ fs (world_after (run_queries_on execute_without_windows header_csv stub_render
                        toy_db_path toy_output_dir toy_loaded_world))
       !! csv_path_of toy_output_dir "05_top_movie_per_year.sql"
     = fs toy_loaded_world !! csv_path_of toy_output_dir "05_top_movie_per_year.sql"
  /\ fs (world_after (run_queries_on execute_without_windows header_csv stub_render
                        toy_db_path toy_output_dir toy_loaded_world))
       !! png_path_of toy_output_dir "05_top_movie_per_year.sql"
     = fs toy_loaded_world !! png_path_of toy_output_dir "05_top_movie_per_year.sql".
Proof.
  apply (artefacts_when_statement_fails execute_without_windows header_csv stub_render
           "/repo" toy_loaded_world _
           (take 4 queries) (drop 5 queries)
           "05_top_movie_per_year.sql" Q05).
  - reflexivity.
  - vm_compute. reflexivity.
Defined.

(** C10, as stated, fails on an output directory that a previous run has
    filled: statement 02 fails on a store without genre association, and
    its [.csv] file, left by the earlier run, is there after the abort. *)
Lemma stale_csv_survives_failure :
  exists w',
    run_queries header_csv stub_render toy_db_path toy_output_dir stale_broken_world
    = Raised (DatabaseError Q02) w'
    /\ is_file (sql_path toy_output_dir "02_average_rating_per_genre.sql") w'
    /\ is_file (csv_path_of toy_output_dir "02_average_rating_per_genre.sql") w'.
Proof.
  eexists. split; [vm_compute; reflexivity|].
  split; eexists; vm_compute; reflexivity.
Qed.

(** ** Acquirer: the outcomes of [download_csv] *)

Lemma download_csv_absent (remote : string -> response) csv_path w :
  fs w !! csv_path = None ->
  download_csv remote csv_path w
  = (Os.print ("Downloading data to " +:+ csv_path +:+ "…") ;;
     response ← urlopen remote REPO_URL;
     Os.open_w csv_path ;;
     data ← read response;
     Os.write_node csv_path (File (Bytes data)) ;;
     Os.print "Download complete.") w.
Proof.
  intros Hnone. unfold download_csv at 1, Os.path_exists.
  unfold mbind at 1, io_bind at 1.
  rewrite bool_decide_eq_false_2; [done|]. rewrite Hnone. by intros [? ?].
Qed.

(** X1: when the target is absent and the server answers with a body,
    [download_csv] returns after exactly one request, to [REPO_URL]; the
    target then holds the body, byte for byte, and two lines were
    printed. *)
Theorem download_csv_fetches (remote : string -> response)
    (csv_path data : string) (w : world) :
  fs w !! csv_path = None ->
  remote REPO_URL = Body data ->
  exists w',
    download_csv remote csv_path w = Returned tt w'
    /\ fs w' = <[csv_path := File (Bytes data)]> (fs w)
    /\ requests w' = requests w ++ [REPO_URL]
    /\ stdout w' = stdout w ++ ["Downloading data to " +:+ csv_path +:+ "…";
                                "Download complete."].
Proof.
  intros Hnone Hbody. rewrite download_csv_absent by done.
  unfold mbind, io_bind, Os.print, urlopen, Os.open_w, read, Os.write_node, mret, io_ret.
  simpl. rewrite Hbody. simpl. rewrite Hnone. simpl.
  eexists. split; [reflexivity|]. simpl.
  split; [apply insert_insert_eq|]. split; [done|]. by rewrite <- app_assoc.
Qed.

Lemma download_csv_fetches_witness :
  exists w',
    download_csv toy_remote toy_csv_path empty_world = Returned tt w'
    /\ fs w' = <[toy_csv_path := File (Bytes "Rank,Title")]> (fs empty_world)
    /\ requests w' = requests empty_world ++ [REPO_URL]
    /\ stdout w' = stdout empty_world
                   ++ ["Downloading data to " +:+ toy_csv_path +:+ "…";
                       "Download complete."].
Proof.
  apply (download_csv_fetches toy_remote toy_csv_path "Rank,Title" empty_world).
  - reflexivity.
  - reflexivity.
Defined.

(** X2: [download_csv] raises only when the target is absent, and after its
    one request: either the server could not be reached, and the file
    system is as it was, or the body could not be read to its end, and the
    target is left behind as an empty file. *)
Theorem download_csv_raised (remote : string -> response)
    (csv_path : string) (w : world) (e : exn) (w' : world) :
  download_csv remote csv_path w = Raised e w' ->
  fs w !! csv_path = None
  /\ requests w' = requests w ++ [REPO_URL]
  /\ (remote REPO_URL = Unreachable /\ fs w' = fs w
      \/ remote REPO_URL = Truncated
         /\ fs w' = <[csv_path := File (Bytes "")]> (fs w)).
Proof.
  destruct (fs w !! csv_path) as [n|] eqn:Hnode.
  { rewrite download_csv_present by (by rewrite Hnode). discriminate. }
  rewrite download_csv_absent by done.
  unfold mbind, io_bind, Os.print, urlopen, Os.open_w, read, Os.write_node,
    mret, io_ret, raise.
  simpl. destruct (remote REPO_URL) as [| |data] eqn:Hremote; simpl.
  - intros [= <- <-]. split; [done|]. split; [done|]. by left.
  - rewrite Hnode. simpl. intros [= <- <-]. split; [done|]. split; [done|]. by right.
  - rewrite Hnode. discriminate.
Qed.

Lemma download_csv_raised_witness :
  fs empty_world !! toy_csv_path = None
  /\ requests (world_after (download_csv truncating_remote toy_csv_path empty_world))
     = requests empty_world ++ [REPO_URL]
  /\ (truncating_remote REPO_URL = Unreachable
      /\ fs (world_after (download_csv truncating_remote toy_csv_path empty_world))
         = fs empty_world
      \/ truncating_remote REPO_URL = Truncated
         /\ fs (world_after (download_csv truncating_remote toy_csv_path empty_world))
            = <[toy_csv_path := File (Bytes "")]> (fs empty_world)).
Proof.
  apply (download_csv_raised truncating_remote toy_csv_path empty_world URLError).
  vm_compute. reflexivity.
Defined.

(** X3: a download that breaks off while the body is read is not tried
    again: it leaves an empty target, and the next call finds the target
    present, sends no request and leaves the empty file in place. *)
Theorem truncated_download_not_retried (remote : string -> response)
    (csv_path : string) (w : world) :
  fs w !! csv_path = None ->
  remote REPO_URL = Truncated ->
  exists e w1 w2,
    download_csv remote csv_path w = Raised e w1
    /\ download_csv remote csv_path w1 = Returned tt w2
    /\ fs w2 !! csv_path = Some (File (Bytes ""))
    /\ requests w2 = requests w ++ [REPO_URL].
Proof.
  intros Hnone Htrunc.
  set (w1 := World (<[csv_path := File (Bytes "")]> (fs w)) (requests w ++ [REPO_URL])
                   (stdout w ++ ["Downloading data to " +:+ csv_path +:+ "…"])).
  assert (download_csv remote csv_path w = Raised URLError w1) as Hrun.
  { rewrite download_csv_absent by done.
    unfold mbind, io_bind, Os.print, urlopen, Os.open_w, read, raise. simpl.
    rewrite Htrunc. simpl. by rewrite Hnone. }
  exists URLError, w1. eexists. split; [done|]. split.
  - apply download_csv_present. simpl. rewrite lookup_insert_eq. eauto.
  - simpl. split; [apply lookup_insert_eq|done].
Qed.

Lemma truncated_download_not_retried_witness :
  exists e w1 w2,
    download_csv truncating_remote toy_csv_path empty_world = Raised e w1
    /\ download_csv truncating_remote toy_csv_path w1 = Returned tt w2
    /\ fs w2 !! toy_csv_path = Some (File (Bytes ""))
    /\ requests w2 = requests empty_world ++ [REPO_URL].
Proof.
  apply (truncated_download_not_retried truncating_remote toy_csv_path empty_world).
  - reflexivity.
  - reflexivity.
Defined.

(** X4: whatever its outcome, [download_csv] changes no path but its
    target, and sends no request at all or one request to [REPO_URL]. *)
Theorem download_csv_effects (remote : string -> response)
    (csv_path : string) (w : world) :
  let w' := world_after (download_csv remote csv_path w) in
  (forall path, path <> csv_path -> fs w' !! path = fs w !! path)
  /\ (requests w' = requests w \/ requests w' = requests w ++ [REPO_URL]).
Proof.
  cbv zeta. destruct (fs w !! csv_path) as [n|] eqn:Hnode.
  { rewrite download_csv_present by (by rewrite Hnode). simpl. split; [done|by left]. }
  rewrite download_csv_absent by done.
  unfold mbind, io_bind, Os.print, urlopen, Os.open_w, read, Os.write_node,
    mret, io_ret, raise.
  simpl. destruct (remote REPO_URL) as [| |data]; simpl; rewrite ?Hnode; simpl.
  - split; [done|by right].
  - split; [|by right]. intros path Hne. by rewrite lookup_insert_ne.
  - split; [|by right]. intros path Hne. by rewrite !lookup_insert_ne.
Qed.

(** A download into a free path, when the server answers. *)
Lemma download_csv_body (remote : string -> response) csv_path data w :
  fs w !! csv_path = None ->
  remote REPO_URL = Body data ->
  exists w',
    download_csv remote csv_path w = Returned tt w'
    /\ fs w' = <[csv_path := File (Bytes data)]> (fs w)
    /\ requests w' = requests w ++ [REPO_URL].
Proof.
  intros Hnone Hbody. rewrite download_csv_absent by done.
  unfold mbind, io_bind, Os.print, urlopen, Os.open_w, read, Os.write_node, mret, io_ret.
  simpl. rewrite Hbody. simpl. rewrite Hnone. simpl.
  eexists. split; [reflexivity|]. simpl. split; [apply insert_insert_eq|done].
Qed.

Lemma download_csv_same_outside (remote : string -> response) csv_path :
  always (same_outside [csv_path]) (download_csv remote csv_path).
Proof.
  intros w path Hpath%not_elem_of_cons. destruct Hpath as [Hne _].
  destruct (fs w !! csv_path) as [n|] eqn:Hnode.
  { by rewrite download_csv_present by (by rewrite Hnode). }
  rewrite download_csv_absent by done.
  unfold mbind, io_bind, Os.print, urlopen, Os.open_w, read, Os.write_node,
    mret, io_ret, raise.
  simpl. destruct (remote REPO_URL) as [| |data]; simpl; rewrite ?Hnode; simpl;
    by rewrite ?lookup_insert_ne.
Qed.

Lemma download_csv_requests (remote : string -> response) csv_path w :
  requests (world_after (download_csv remote csv_path w)) = requests w
  \/ requests (world_after (download_csv remote csv_path w)) = requests w ++ [REPO_URL].
Proof.
  destruct (fs w !! csv_path) as [n|] eqn:Hnode.
  { rewrite download_csv_present by (by rewrite Hnode). by left. }
  rewrite download_csv_absent by done.
  unfold mbind, io_bind, Os.print, urlopen, Os.open_w, read, Os.write_node,
    mret, io_ret, raise.
  simpl. destruct (remote REPO_URL) as [| |data]; simpl; rewrite ?Hnode; simpl;
    by right.
Qed.

(** ** Frames: what a step leaves alone, whatever its outcome *)

Lemma world_after_bind {A B} (m : io A) (k : A -> io B) w :
  world_after ((m ≫= k) w)
  = match m w with
    | Returned a w1 => world_after (k a w1)
    | Raised _ w1 => w1
    end.
Proof. unfold mbind, io_bind. by destruct (m w). Qed.

Lemma always_bind {A B} (R : world -> world -> Prop) `{!Transitive R}
    (m : io A) (k : A -> io B) :
  always R m -> (forall a, always R (k a)) -> always R (m ≫= k).
Proof.
  intros Hm Hk w. rewrite world_after_bind. specialize (Hm w).
  destruct (m w) as [a w1|e w1]; simpl in Hm; [|done].
  etrans; [exact Hm|apply Hk].
Qed.

Lemma always_for_each {A} (R : world -> world -> Prop) `{!PreOrder R}
    (l : list A) (body : A -> io unit) :
  (forall x, x ∈ l -> always R (body x)) -> always R (for_each l body).
Proof.
  induction l as [|x l IH]; intros Hbody; simpl.
  - intros w. simpl. reflexivity.
  - apply always_bind; [apply _|apply Hbody; left|].
    intros _. apply IH. intros y Hy. apply Hbody. by right.
Qed.

#[local] Instance confined_preorder written : PreOrder (confined written).
Proof.
  split.
  - intros w. by split.
  - intros w1 w2 w3 [Hr1 Hf1] [Hr2 Hf2]. split.
    + unfold silent in *. congruence.
    + intros path Hpath. by rewrite Hf2, Hf1.
Qed.

Lemma confined_mret {A} written (a : A) : always (confined written) (mret a).
Proof. intros w. reflexivity. Qed.

Lemma confined_raise {A} written e : always (confined written) (raise (A := A) e).
Proof. intros w. reflexivity. Qed.

Lemma confined_print written line : always (confined written) (Os.print line).
Proof. intros w. by split. Qed.

Lemma confined_write_node written path n :
  path ∈ written -> always (confined written) (Os.write_node path n).
Proof.
  intros Hin w. split; [done|]. intros p Hp. simpl.
  apply lookup_insert_ne. by intros ->.
Qed.

Lemma confined_open_w written path :
  path ∈ written -> always (confined written) (Os.open_w path).
Proof.
  intros Hin w. unfold Os.open_w.
  destruct (fs w !! path) as [[c|]|]; try reflexivity;
    by apply confined_write_node.
Qed.

Lemma confined_write_file written path data :
  path ∈ written -> always (confined written) (Os.write_file path data).
Proof.
  intros Hin. unfold Os.write_file. apply always_bind; [apply _| |intros _].
  - by apply confined_open_w.
  - by apply confined_write_node.
Qed.

Lemma confined_mkdir written path :
  path ∈ written -> always (confined written) (Os.mkdir path).
Proof.
  intros Hin w. unfold Os.mkdir.
  destruct (fs w !! path) as [[c|]|]; try reflexivity;
    by apply confined_write_node.
Qed.

Lemma confined_read_file written path : always (confined written) (Os.read_file path).
Proof.
  intros w. unfold Os.read_file.
  destruct (fs w !! path) as [[[data|db]|]|]; reflexivity.
Qed.

Lemma confined_connect written path :
  path ∈ written -> always (confined written) (Sqlite3.connect path).
Proof.
  intros Hin w. unfold Sqlite3.connect.
  destruct (fs w !! path) as [[c|]|]; try reflexivity.
  apply (always_bind (confined written)); [by apply confined_write_node|].
  intros _. apply confined_mret.
Qed.

Lemma confined_to_sql written replace conn :
  conn ∈ written -> always (confined written) (to_sql replace conn).
Proof.
  intros Hin w. unfold to_sql.
  destruct (Sqlite3.store conn w); [by apply confined_write_node|reflexivity].
Qed.

Lemma confined_records_to_sql written records conn :
  conn ∈ written -> always (confined written) (records_to_sql records conn).
Proof.
  intros Hin. destruct records as [|r records]; simpl.
  - apply always_bind; [apply _|by apply confined_to_sql|].
    intros _. apply confined_raise.
  - by apply confined_to_sql.
Qed.

Lemma confined_pd_read_csv written read_csv path :
  always (confined written) (pd_read_csv read_csv path).
Proof.
  unfold pd_read_csv. apply always_bind; [apply _|apply confined_read_file|].
  intros data. destruct (read_csv data); [apply confined_mret|apply confined_raise].
Qed.

Lemma confined_pd_read_sql written q conn :
  always (confined written) (pd_read_sql q conn).
Proof.
  intros w. unfold pd_read_sql.
  destruct (Sqlite3.store conn w ≫= Sql.execute q); reflexivity.
Qed.

(** Splitting a frame goal on a sequence into its steps. *)
Ltac frame_steps :=
  unfold Sqlite3.close;
  repeat (apply always_bind; [apply _| |intros ?]);
  first
    [ apply confined_print | apply confined_mret | apply confined_raise
    | apply confined_pd_read_csv | apply confined_pd_read_sql
    | apply confined_read_file
    | apply confined_connect | apply confined_to_sql
    | apply confined_records_to_sql | apply confined_write_file
    | apply confined_mkdir | apply confined_write_node
    | idtac ].

(** A connection is the path it was opened on. *)
Lemma always_connect {B} (R : world -> world -> Prop) `{!Transitive R}
    (path : string) (k : string -> io B) :
  always R (Sqlite3.connect path) -> always R (k path) ->
  always R (Sqlite3.connect path ≫= k).
Proof.
  intros Hm Hk w. rewrite world_after_bind. specialize (Hm w).
  destruct (Sqlite3.connect path w) as [conn w1|e w1] eqn:Hc; simpl in Hm; [|done].
  apply connect_returned in Hc as (-> & _). etrans; [exact Hm|apply Hk].
Qed.

Lemma confined_build_database read_csv csv_path db_path :
  always (confined [db_path]) (build_database read_csv csv_path db_path).
Proof.
  assert (db_path ∈ [db_path]) as Hin by left.
  unfold build_database.
  apply always_bind; [apply _|apply confined_print|intros _].
  apply always_bind; [apply _|apply confined_pd_read_csv|intros movies].
  apply always_bind; [apply _|apply confined_print|intros _].
  apply always_connect; [apply _|by apply confined_connect|].
  frame_steps; done.
Qed.

(** ** Loader: the outcomes of [build_database] *)

(** X5: when the dataset cannot be read (no file at its path, a directory,
    or a text that pandas rejects), [build_database] raises before it
    connects to the store: one line has been printed, and the file system
    is as it was, with no database file created. *)
Theorem build_database_unreadable (read_csv : string -> option (list movie))
    (csv_path db_path : string) (w : world) :
  (forall data, fs w !! csv_path = Some (File (Bytes data)) -> read_csv data = None) ->
  exists e,
    build_database read_csv csv_path db_path w
    = Raised e (World (fs w) (requests w) (stdout w ++ ["Loading CSV…"]))
    /\ (fs w !! csv_path = None -> e = FileNotFoundError).
Proof.
  intros Hbad. unfold build_database, pd_read_csv, Os.read_file, Os.print.
  unfold mbind, io_bind. simpl.
  destruct (fs w !! csv_path) as [[[data|db]|]|] eqn:Hnode.
  - rewrite (Hbad data eq_refl). by eexists.
  - by eexists.
  - by eexists.
  - by eexists.
Qed.

Lemma build_database_unreadable_witness :
  exists e,
    build_database failing_read_csv toy_csv_path toy_db_path toy_world
    = Raised e (World (fs toy_world) (requests toy_world)
                      (stdout toy_world ++ ["Loading CSV…"]))
    /\ (fs toy_world !! toy_csv_path = None -> e = FileNotFoundError).
Proof.
  apply (build_database_unreadable failing_read_csv toy_csv_path toy_db_path toy_world).
  intros data _. reflexivity.
Defined.

(** X6: the loader replaces the four tables and appends nothing: run a
    second time on the same dataset, it returns again and leaves the file
    system exactly as the first run left it. *)
Theorem build_database_idempotent (read_csv : string -> option (list movie))
    (csv_path db_path : string) (w w1 : world) :
  csv_path <> db_path ->
  build_database read_csv csv_path db_path w = Returned tt w1 ->
  exists w2,
    build_database read_csv csv_path db_path w1 = Returned tt w2
    /\ fs w2 = fs w1 /\ requests w2 = requests w1.
Proof.
  intros Hne Hrun.
  apply build_database_returned in Hrun as (movies & Hread & Hsome & Hfs1 & Hreq1).
  apply pd_read_csv_returned in Hread as (_ & data & Hfile & Hparse).
  assert (fs w1 !! csv_path = Some (File (Bytes data))) as Hfile1
    by (by rewrite Hfs1, lookup_insert_ne).
  destruct (build_database_succeeds read_csv csv_path db_path w1 data movies)
    as [w2 Hrun2]; [done|done|done| |].
  { right. exists (loaded movies). by apply (store_after_to_sql _ w). }
  exists w2. split; [done|].
  apply build_database_returned in Hrun2 as (movies' & Hread' & _ & Hfs2 & Hreq2).
  apply pd_read_csv_returned in Hread' as (_ & data' & Hfile' & Hparse').
  assert (movies' = movies) as -> by congruence.
  split; [|done]. by rewrite Hfs2, Hfs1, insert_insert_eq.
Qed.

Lemma build_database_idempotent_witness :
  exists w2,
    build_database toy_read_csv toy_csv_path toy_db_path toy_loaded_world
    = Returned tt w2
    /\ fs w2 = fs toy_loaded_world /\ requests w2 = requests toy_loaded_world.
Proof.
  apply (build_database_idempotent toy_read_csv toy_csv_path toy_db_path
           toy_world toy_loaded_world).
  - discriminate.
  - vm_compute. reflexivity.
Defined.

(** X7: whatever its outcome, [build_database] sends no request and changes
    no path but that of the store; the dataset file in particular is left
    as it is. *)
Theorem build_database_effects (read_csv : string -> option (list movie))
    (csv_path db_path : string) (w : world) :
  let w' := world_after (build_database read_csv csv_path db_path w) in
  requests w' = requests w
  /\ (forall path, path <> db_path -> fs w' !! path = fs w !! path).
Proof.
  cbv zeta.
  destruct (confined_build_database read_csv csv_path db_path w) as [Hreq Hfs].
  split; [done|]. intros path Hne. apply Hfs.
  by intros ->%list_elem_of_singleton.
Qed.

(** ** Reporter: the outcomes of [run_queries] *)

Lemma write_file_succeeds path data w :
  fs w !! path <> Some Directory ->
  exists w', Os.write_file path data w = Returned tt w'.
Proof.
  intros Hnode. unfold Os.write_file, Os.open_w, mbind, io_bind.
  destruct (fs w !! path) as [[c|]|]; [eexists; reflexivity|done|eexists; reflexivity].
Qed.

(** Every statement runs on a store that has the two tables it may read. *)
Lemma execute_is_Some q db :
  is_Some (tbl_movies db) -> is_Some (tbl_movie_genres db) ->
  is_Some (Sql.execute q db).
Proof.
  intros [movies Hm] [mg Hmg].
  destruct q; unfold Sql.execute, Sql.q01, Sql.q02, Sql.q03, Sql.q04, Sql.q05,
    Sql.q06, Sql.q07, Sql.q08, Sql.q09, Sql.q10, Sql.q11;
    rewrite ?Hm, ?Hmg; simpl; rewrite ?Hm, ?Hmg; simpl; eauto.
Qed.

Section ReporterOutcomes.
Variable to_csv : frame -> string.
Variable render : nat -> list string -> list (list value) -> option string.

Lemma report_succeeds conn output_dir db entry w :
  fs w !! conn = Some (File (Sqlite db)) ->
  conn ∉ artefact_paths output_dir entry ->
  reported render db entry ->
  (forall path, path ∈ artefact_paths output_dir entry ->
     fs w !! path <> Some Directory) ->
  exists w',
    report to_csv render conn output_dir entry w = Returned tt w'
    /\ fs w' = write_all (artefacts to_csv render db output_dir entry) (fs w).
Proof.
  intros Hdb Hconn (df & png & Hrun & Hpng) Hdirs.
  unfold artefact_paths in Hconn, Hdirs.
  apply not_elem_of_cons in Hconn as [Hsql Hconn].
  destruct (write_file_succeeds (sql_path output_dir entry.1)
              (Py.strip (sql_text entry.2) +:+ newline) w) as [w1 H1];
    [apply Hdirs; left|].
  pose proof H1 as [Hfs1 _]%write_file_returned.
  assert (pd_read_sql entry.2 conn w1 = Returned df w1) as H2.
  { unfold pd_read_sql. rewrite (store_lookup conn w1 db).
    - simpl. by rewrite Hrun.
    - by rewrite Hfs1, lookup_insert_ne. }
  destruct (write_file_succeeds (csv_path_of output_dir entry.1) (to_csv df) w1)
    as [w2 H3].
  { rewrite Hfs1. destruct (decide (sql_path output_dir entry.1
                                   = csv_path_of output_dir entry.1)) as [<-|Hne].
    - by rewrite lookup_insert_eq.
    - rewrite lookup_insert_ne by done. apply Hdirs. right. left. }
  pose proof H3 as [Hfs2 _]%write_file_returned.
  destruct (write_file_succeeds (png_path_of output_dir entry.1) png w2)
    as [w3 H4].
  { rewrite Hfs2, Hfs1.
    destruct (decide (csv_path_of output_dir entry.1
                      = png_path_of output_dir entry.1)) as [<-|Hne1];
      [by rewrite lookup_insert_eq|rewrite lookup_insert_ne by done].
    destruct (decide (sql_path output_dir entry.1
                      = png_path_of output_dir entry.1)) as [<-|Hne2];
      [by rewrite lookup_insert_eq|rewrite lookup_insert_ne by done].
    apply Hdirs. right. right. left. }
  assert (report to_csv render conn output_dir entry w = Returned tt w3) as Hret.
  { unfold report. cbv zeta.
    apply (seq_returned _ _ w tt w1); [done|].
    apply (seq_returned _ _ w1 df w1); [done|].
    apply (seq_returned _ _ w1 tt w2); [done|].
    fold (preview render df). by rewrite Hpng. }
  exists w3. split; [done|].
  apply (report_returned to_csv render conn output_dir db) in Hret as (_ & Hfs & _);
    [done|by left].
Qed.

Lemma for_each_report_succeeds conn output_dir db qs w :
  fs w !! conn = Some (File (Sqlite db)) ->
  conn ∉ qs ≫= artefact_paths output_dir ->
  Forall (reported render db) qs ->
  (forall path, path ∈ qs ≫= artefact_paths output_dir ->
     fs w !! path <> Some Directory) ->
  exists w', for_each qs (report to_csv render conn output_dir) w = Returned tt w'.
Proof.
  intros Hdb Hconn Hall. revert w Hdb Hconn.
  induction Hall as [|entry qs Hentry Hall IH]; intros w Hdb Hconn Hdirs.
  - by eexists.
  - rewrite bind_cons in Hconn, Hdirs.
    apply not_elem_of_app in Hconn as [Hconn1 Hconn2].
    destruct (report_succeeds conn output_dir db entry w) as (w1 & H1 & Hfs1);
      [done|done|done| |].
    { intros path Hpath. apply Hdirs, elem_of_app. by left. }
    destruct (IH w1) as [w' H']; [|done| |].
    + rewrite Hfs1, write_all_other; [done|].
      destruct Hentry as (df & png & Hrun & Hpng).
      unfold artefacts. by rewrite Hrun, Hpng.
    + intros path Hpath.
      destruct (decide (path ∈ map fst (artefacts to_csv render db output_dir entry)))
        as [Hin|Hnot].
      * destruct (write_all_is_file _ (fs w) path Hin) as [data Hdata].
        by rewrite Hfs1, Hdata.
      * rewrite Hfs1, write_all_other by done. apply Hdirs, elem_of_app. by right.
    + exists w'. simpl. by apply (seq_returned _ _ w tt w1).
Qed.

(** The Reporter returns when the store is in place, every statement runs
    and can be drawn, and nothing stands in the way of its files. *)
Lemma run_queries_returns db_path output_dir db w :
  fs w !! db_path = Some (File (Sqlite db)) ->
  db_path ∉ output_dir :: (queries ≫= artefact_paths output_dir) ->
  Forall (reported render db) queries ->
  (forall c, fs w !! output_dir <> Some (File c)) ->
  (forall path, path ∈ queries ≫= artefact_paths output_dir ->
     fs w !! path <> Some Directory) ->
  exists w',
    run_queries to_csv render db_path output_dir w = Returned tt w'
    /\ fs w' = write_all (queries ≫= artefacts to_csv render db output_dir)
                         (<[output_dir := Directory]> (fs w))
    /\ requests w' = requests w.
Proof.
  intros Hdb Hapart Hall Hout Hdirs.
  apply not_elem_of_cons in Hapart as [Hne Hapart].
  set (w1 := World (<[output_dir := Directory]> (fs w)) (requests w) (stdout w)).
  assert (Os.mkdir output_dir w = Returned tt w1) as H1.
  { unfold Os.mkdir. destruct (fs w !! output_dir) as [[c|]|] eqn:E; [|done|done].
    by destruct (Hout c). }
  assert (fs w1 !! db_path = Some (File (Sqlite db))) as Hdb1.
  { simpl. by rewrite lookup_insert_ne. }
  assert (Sqlite3.connect db_path w1 = Returned db_path w1) as H2.
  { unfold Sqlite3.connect. by rewrite Hdb1. }
  destruct (for_each_report_succeeds db_path output_dir db queries w1)
    as [w2 H3]; [done|done|done| |].
  { intros path Hpath. simpl. rewrite lookup_insert_ne; [by apply Hdirs|].
    intros ->. rewrite artefact_paths_names in Hpath.
    apply list_elem_of_fmap in Hpath as (name & Heq & _).
    by apply eq_sym, join_ne_dir in Heq. }
  assert (exists w', run_queries to_csv render db_path output_dir w = Returned tt w')
    as [w' Hrun].
  { eexists. unfold run_queries.
    apply (seq_returned _ _ w tt w1); [done|].
    apply (seq_returned _ _ w1 db_path w1); [done|].
    apply (seq_returned _ _ w1 tt w2); [done|].
    apply (seq_returned _ _ w2 tt w2); [done|]. reflexivity. }
  exists w'. split; [done|].
  pose proof (run_queries_returned to_csv render db_path output_dir db w w' Hdb Hrun)
    as [Hfs _].
  split; [done|].
  revert Hrun. unfold run_queries. intros Hrun. do 4 io_step Hrun.
  rewrite H1 in Hstep. injection Hstep as <- <-.
  rewrite H2 in Hstep0. injection Hstep0 as <- <-.
  destruct a1.
  apply (for_each_report_returned to_csv render db_path output_dir db)
    in Hstep1 as (_ & _ & Hreq); [|by left].
  injection Hstep2 as _ <-. apply print_returned in Hrun as [_ Hreq'].
  rewrite Hreq', Hreq. done.
Qed.

End ReporterOutcomes.

(** In the layout of [main] the store is neither the output directory nor
    an artefact. *)
Lemma store_not_written (base_dir : string) :
  Os.join base_dir "imdb_top1000.db"
  ∉ Os.join base_dir "query_results"
    :: (queries ≫= artefact_paths (Os.join base_dir "query_results")).
Proof.
  apply not_elem_of_cons. split.
  - by intros H%join_inj.
  - rewrite artefact_paths_names. intros (name & H & _)%list_elem_of_fmap.
    unfold Os.join in H. rewrite append_assoc in H.
    apply append_inj_r in H. step_append. discriminate.
Qed.

Lemma artefact_not_output_dir output_dir path :
  path ∈ queries ≫= artefact_paths output_dir -> path <> output_dir.
Proof.
  rewrite artefact_paths_names. intros (name & -> & _)%list_elem_of_fmap.
  apply join_ne_dir.
Qed.

(** X8: the Reporter returns whenever the store under [db_path] has the
    movies table and the genre association, every result can be drawn, the
    store is not one of the Reporter's own paths, the output directory is
    not a regular file and no artefact path is a directory.  It then has
    sent no request, has left the store as it was and made the output
    directory; for each entry the [.sql] file holds the stripped text of
    the statement and a line feed, the [.csv] file the result of the
    statement on the store, and the [.png] file its preview. *)
Theorem run_queries_succeeds (to_csv : frame -> string)
    (render : nat -> list string -> list (list value) -> option string)
    (db_path output_dir : string) (db : database) (w : world) :
  fs w !! db_path = Some (File (Sqlite db)) ->
  is_Some (tbl_movies db) ->
  is_Some (tbl_movie_genres db) ->
  (forall q df, Sql.execute q db = Some df -> is_Some (preview render df)) ->
  db_path ∉ output_dir :: (queries ≫= artefact_paths output_dir) ->
  (forall c, fs w !! output_dir <> Some (File c)) ->
  (forall path, path ∈ queries ≫= artefact_paths output_dir ->
     fs w !! path <> Some Directory) ->
  exists w',
    run_queries to_csv render db_path output_dir w = Returned tt w'
    /\ requests w' = requests w
    /\ fs w' !! output_dir = Some Directory
    /\ fs w' !! db_path = Some (File (Sqlite db))
    /\ (forall fname q, (fname, q) ∈ queries ->
          exists df png,
            Sql.execute q db = Some df
            /\ preview render df = Some png
            /\ fs w' !! sql_path output_dir fname
               = Some (File (Bytes (Py.strip (sql_text q) +:+ newline)))
            /\ fs w' !! csv_path_of output_dir fname = Some (File (Bytes (to_csv df)))
            /\ fs w' !! png_path_of output_dir fname = Some (File (Bytes png))).
Proof.
  intros Hdb Hm Hmg Hdraw Hapart Hout Hdirs.
  assert (Forall (reported render db) queries) as Hall.
  { apply Forall_forall. intros [fname q] _.
    destruct (execute_is_Some q db Hm Hmg) as [df Hdf].
    destruct (Hdraw q df Hdf) as [png Hpng]. by exists df, png. }
  destruct (run_queries_returns to_csv render db_path output_dir db w)
    as (w' & Hrun & Hfs & Hreq); [done..|].
  exists w'. split; [done|]. split; [done|].
  pose proof (artefacts_paths to_csv render db output_dir queries Hall) as Hpaths.
  apply not_elem_of_cons in Hapart as [Hne Hapart].
  split; [|split].
  - rewrite Hfs, write_all_other; [apply lookup_insert_eq|].
    rewrite Hpaths. intros Hin. by apply artefact_not_output_dir in Hin.
  - rewrite Hfs, write_all_other by (by rewrite Hpaths).
    by rewrite lookup_insert_ne.
  - intros fname q Hin. pose proof Hall as Hq. rewrite Forall_forall in Hq.
    destruct (Hq _ Hin) as (df & png & Hdf & Hpng). simpl in Hdf.
    exists df, png. split; [done|]. split; [done|].
    assert (forall path data,
      (path, data) ∈ artefacts to_csv render db output_dir (fname, q) ->
      fs w' !! path = Some (File (Bytes data))) as Hfile.
    { intros path data Hpath. rewrite Hfs. apply write_all_lookup.
      - rewrite Hpaths. apply artefact_paths_NoDup.
      - apply list_elem_of_bind. by exists (fname, q). }
    unfold artefacts in Hfile. simpl in Hfile. rewrite Hdf, Hpng in Hfile.
    split; [apply Hfile; left|]. split; [apply Hfile; right; left|].
    apply Hfile. right. right. left.
Qed.

Lemma run_queries_succeeds_witness :
  exists w',
    run_queries header_csv stub_render toy_db_path toy_output_dir store_only_world
    = Returned tt w'
    /\ requests w' = requests store_only_world
    /\ fs w' !! toy_output_dir = Some Directory
    /\ fs w' !! toy_db_path = Some (File (Sqlite toy_db))
    /\ (forall fname q, (fname, q) ∈ queries ->
          exists df png,
            Sql.execute q toy_db = Some df
            /\ preview stub_render df = Some png
            /\ fs w' !! sql_path toy_output_dir fname
               = Some (File (Bytes (Py.strip (sql_text q) +:+ newline)))
            /\ fs w' !! csv_path_of toy_output_dir fname
               = Some (File (Bytes (header_csv df)))
            /\ fs w' !! png_path_of toy_output_dir fname = Some (File (Bytes png))).
Proof.
  apply (run_queries_succeeds header_csv stub_render toy_db_path toy_output_dir
           toy_db store_only_world).
  - reflexivity.
  - eexists. reflexivity.
  - eexists. reflexivity.
  - intros q df _. eexists. reflexivity.
  - apply (store_not_written "/repo").
  - intros c. discriminate.
  - intros path _. unfold store_only_world. simpl.
    destruct (decide (path = toy_db_path)) as [->|Hne].
    + by rewrite lookup_singleton_eq.
    + by rewrite lookup_singleton_ne.
Defined.

Lemma seq_raised {A B} (m : io A) (k : A -> io B) w a w1 e w' :
  m w = Returned a w1 -> k a w1 = Raised e w' -> (m ≫= k) w = Raised e w'.
Proof. intros Hm Hk. apply bind_raised. right. by exists a, w1. Qed.

(** X9: run without a store, the Reporter makes the output directory,
    creates an empty database file where the store was expected, writes
    the text of the first statement and fails on executing it; nothing
    else is written. *)
Theorem run_queries_without_store (to_csv : frame -> string)
    (render : nat -> list string -> list (list value) -> option string)
    (base_dir : string) (w : world) :
  let db_path := Os.join base_dir "imdb_top1000.db" in
  let output_dir := Os.join base_dir "query_results" in
  let first := sql_path output_dir "01_top_10_highest_rated.sql" in
  fs w !! db_path = None ->
  (forall c, fs w !! output_dir <> Some (File c)) ->
  fs w !! first <> Some Directory ->
  exists w',
    run_queries to_csv render db_path output_dir w = Raised (DatabaseError Q01) w'
    /\ requests w' = requests w
    /\ fs w' = <[first := File (Bytes (Py.strip (sql_text Q01) +:+ newline))]>
                 (<[db_path := File (Sqlite empty_database)]>
                    (<[output_dir := Directory]> (fs w))).
Proof.
  intros db_path output_dir first Hdb Hout Hfirst.
  pose proof (store_not_written base_dir) as Hapart.
  fold db_path output_dir in Hapart.
  apply not_elem_of_cons in Hapart as [Hne Hapart].
  assert (first ∈ queries ≫= artefact_paths output_dir) as Hin.
  { apply list_elem_of_bind. exists ("01_top_10_highest_rated.sql", Q01).
    split; [left|left]. }
  assert (first <> db_path) as Hfirst_db by (intros Heq; apply Hapart; by rewrite <- Heq).
  assert (first <> output_dir) as Hfirst_out by (by apply artefact_not_output_dir).
  set (w1 := World (<[output_dir := Directory]> (fs w)) (requests w) (stdout w)).
  assert (Os.mkdir output_dir w = Returned tt w1) as H1.
  { unfold Os.mkdir. destruct (fs w !! output_dir) as [[c|]|] eqn:E; [|done|done].
    by destruct (Hout c). }
  set (w2 := World (<[db_path := File (Sqlite empty_database)]> (fs w1))
                   (requests w) (stdout w)).
  assert (Sqlite3.connect db_path w1 = Returned db_path w2) as H2.
  { unfold Sqlite3.connect. simpl. by rewrite lookup_insert_ne, Hdb. }
  destruct (write_file_succeeds first (Py.strip (sql_text Q01) +:+ newline) w2)
    as [w3 H3].
  { simpl. by rewrite !lookup_insert_ne. }
  pose proof H3 as [Hfs3 Hreq3]%write_file_returned.
  assert (pd_read_sql Q01 db_path w3 = Raised (DatabaseError Q01) w3) as H4.
  { unfold pd_read_sql. rewrite (store_lookup db_path w3 empty_database); [done|].
    rewrite Hfs3, lookup_insert_ne by done. simpl. apply lookup_insert_eq. }
  exists w3. split; [|by split].
  unfold run_queries.
  apply (seq_raised _ _ w tt w1); [done|].
  apply (seq_raised _ _ w1 db_path w2); [done|].
  apply bind_raised. left.
  unfold queries. cbn [for_each].
  apply bind_raised. left. unfold report. cbv zeta.
  apply (seq_raised _ _ w2 tt w3); [done|].
  apply bind_raised. by left.
Qed.

Lemma run_queries_without_store_witness :
  exists w',
    run_queries header_csv stub_render (Os.join "/repo" "imdb_top1000.db")
                (Os.join "/repo" "query_results") toy_world
    = Raised (DatabaseError Q01) w'
    /\ requests w' = requests toy_world
    /\ fs w' = <[sql_path (Os.join "/repo" "query_results") "01_top_10_highest_rated.sql"
                 := File (Bytes (Py.strip (sql_text Q01) +:+ newline))]>
                 (<[Os.join "/repo" "imdb_top1000.db" := File (Sqlite empty_database)]>
                    (<[Os.join "/repo" "query_results" := Directory]> (fs toy_world))).
Proof.
  apply (run_queries_without_store header_csv stub_render "/repo" toy_world).
  - reflexivity.
  - intros c. discriminate.
  - discriminate.
Defined.

(** X10: when a regular file stands at the path of the output directory,
    the Reporter raises at once and leaves the world as it is: it has
    neither connected to the store nor written a file. *)
Theorem run_queries_blocked (to_csv : frame -> string)
    (render : nat -> list string -> list (list value) -> option string)
    (db_path output_dir : string) (c : content) (w : world) :
  fs w !! output_dir = Some (File c) ->
  run_queries to_csv render db_path output_dir w = Raised FileExistsError w.
Proof.
  intros Hfile. unfold run_queries, Os.mkdir, mbind, io_bind. by rewrite Hfile.
Qed.

Lemma run_queries_blocked_witness :
  run_queries header_csv stub_render toy_db_path toy_output_dir blocked_world
  = Raised FileExistsError blocked_world.
Proof.
  apply (run_queries_blocked header_csv stub_render toy_db_path toy_output_dir
           (Bytes "") blocked_world).
  reflexivity.
Defined.

(** *** What the Reporter leaves alone *)

#[local] Instance reporter_frame_preorder db_path output_dir :
  PreOrder (reporter_frame db_path output_dir).
Proof.
  split.
  - intros w. by split.
  - intros w1 w2 w3 [Hr1 Hf1] [Hr2 Hf2]. split.
    + unfold silent in *. congruence.
    + intros path Hpath Hstore. rewrite Hf2, Hf1; [done|done|done|done|].
      destruct Hstore as [Hne|Hsome]; [by left|].
      destruct (decide (db_path ∈ output_dir :: (queries ≫= artefact_paths output_dir)))
        as [Hin|Hnot].
      * left. by intros ->.
      * right. rewrite Hf1; [done|done|by right].
Qed.

Lemma always_weaken {A} (R1 R2 : world -> world -> Prop) (m : io A) :
  (forall w w', R1 w w' -> R2 w w') -> always R1 m -> always R2 m.
Proof. intros HR Hm w. apply HR, Hm. Qed.

Lemma confined_reporter_frame written db_path output_dir w w' :
  written ⊆ output_dir :: (queries ≫= artefact_paths output_dir) ->
  confined written w w' -> reporter_frame db_path output_dir w w'.
Proof.
  intros Hsub [Hreq Hfs]. split; [done|].
  intros path Hpath _. apply Hfs. intros Hin. by apply Hpath, Hsub.
Qed.

Lemma reporter_frame_connect db_path output_dir :
  always (reporter_frame db_path output_dir) (Sqlite3.connect db_path).
Proof.
  intros w. unfold Sqlite3.connect.
  destruct (fs w !! db_path) as [[c|]|] eqn:Hnode; try reflexivity.
  split; [done|]. simpl. intros path _ [Hne|[n Hn]].
  - by apply lookup_insert_ne.
  - by rewrite Hnode in Hn.
Qed.

Lemma confined_report to_csv render conn output_dir entry :
  always (confined (artefact_paths output_dir entry))
         (report to_csv render conn output_dir entry).
Proof.
  unfold report, artefact_paths. cbv zeta.
  apply always_bind; [apply _|apply confined_write_file; left|intros _].
  apply always_bind; [apply _|apply confined_pd_read_sql|intros df].
  apply always_bind; [apply _|apply confined_write_file; right; left|intros _].
  destruct (render _ _ _);
    [apply confined_write_file; right; right; left|apply confined_raise].
Qed.

Lemma reporter_frame_run_queries to_csv render db_path output_dir :
  always (reporter_frame db_path output_dir)
         (run_queries to_csv render db_path output_dir).
Proof.
  unfold run_queries.
  apply always_bind; [apply _| |intros _].
  { apply (always_weaken (confined [output_dir])); [|apply confined_mkdir; left].
    intros w w'. apply confined_reporter_frame.
    intros p ->%list_elem_of_singleton. left. }
  apply always_connect; [apply _|apply reporter_frame_connect|].
  apply always_bind; [apply _| |intros _].
  { apply always_for_each; [apply _|]. intros entry Hentry.
    apply (always_weaken (confined (artefact_paths output_dir entry)));
      [|apply confined_report].
    intros w w'. apply confined_reporter_frame.
    intros p Hp. right. apply list_elem_of_bind. by exists entry. }
  apply always_bind; [apply _| |intros _].
  - intros w. reflexivity.
  - apply (always_weaken (confined [])); [|apply confined_print].
    intros w w'. apply confined_reporter_frame. by intros p ?%elem_of_nil.
Qed.

(** X11: whatever its outcome, the Reporter sends no request, and changes
    no path but the output directory and the directories above it (which
    [mkdir] makes where they are missing), the artefact paths, and the
    path of a store that did not exist (where connecting creates an empty
    database); a store that exists is read and never written. *)
Theorem run_queries_effects (to_csv : frame -> string)
    (render : nat -> list string -> list (list value) -> option string)
    (db_path output_dir : string) (w : world) :
  let w' := world_after (run_queries to_csv render db_path output_dir w) in
  requests w' = requests w
  /\ (forall path,
        path <> output_dir ->
        ~ below path output_dir ->
        path ∉ queries ≫= artefact_paths output_dir ->
        path <> db_path \/ is_Some (fs w !! db_path) ->
        fs w' !! path = fs w !! path).
Proof.
  cbv zeta.
  destruct (reporter_frame_run_queries to_csv render db_path output_dir w)
    as [Hreq Hfs].
  split; [done|]. intros path Hout _ Hart Hstore. apply Hfs; [|done].
  by apply not_elem_of_cons.
Qed.

(** *** A result that cannot be drawn *)

Section Drawing.
Variable to_csv : frame -> string.
Variable render : nat -> list string -> list (list value) -> option string.

(** One turn of the loop that fails on drawing has written the text of the
    statement and its result, in this order. *)
Lemma report_raised_render conn output_dir db entry w w' :
  serves conn db w ->
  report to_csv render conn output_dir entry w = Raised RenderError w' ->
  exists df,
    Sql.execute entry.2 db = Some df
    /\ preview render df = None
    /\ fs w' = <[csv_path_of output_dir entry.1 := File (Bytes (to_csv df))]>
                 (<[sql_path output_dir entry.1
                    := File (Bytes (Py.strip (sql_text entry.2) +:+ newline))]> (fs w)).
Proof.
  intros Hs. unfold report. cbv zeta.
  intros [H|(a & w1 & Hsql & H)]%bind_raised.
  { by apply write_file_raised in H as [? _]. }
  apply write_file_returned in Hsql as [Hfs1 _].
  apply bind_raised in H as [H|(df & w2 & Hrun & H)].
  { by apply pd_read_sql_raised in H as [? _]. }
  apply pd_read_sql_returned in Hrun as [-> Hrun].
  apply (serves_execute conn db) in Hrun; [|by eapply serves_insert].
  apply bind_raised in H as [H|(a' & w3 & Hcsv & H)];
    [by apply write_file_raised in H as [? _]|].
  apply write_file_returned in Hcsv as [Hfs3 _].
  fold (preview render df) in H.
  destruct (preview render df) as [png|] eqn:Hpng;
    [by apply write_file_raised in H as [? _]|].
  injection H as <-. exists df. split; [done|]. split; [done|].
  by rewrite Hfs3, Hfs1.
Qed.

Lemma for_each_report_raised_render conn output_dir db qs w w' :
  serves conn db w ->
  for_each qs (report to_csv render conn output_dir) w = Raised RenderError w' ->
  exists before entry after w1 df,
    qs = before ++ entry :: after
    /\ for_each before (report to_csv render conn output_dir) w = Returned tt w1
    /\ Forall (reported render db) before
    /\ Sql.execute entry.2 db = Some df
    /\ preview render df = None
    /\ fs w' = <[csv_path_of output_dir entry.1 := File (Bytes (to_csv df))]>
                 (<[sql_path output_dir entry.1
                    := File (Bytes (Py.strip (sql_text entry.2) +:+ newline))]> (fs w1)).
Proof.
  revert w. induction qs as [|entry qs IH]; intros w Hs H; [done|].
  simpl in H. apply bind_raised in H as [H|([] & w1 & Hturn & H)].
  - apply (report_raised_render _ _ db) in H as (df & Hrun & Hpng & Hfs); [|done].
    exists [], entry, qs, w, df. done.
  - pose proof Hturn as (Hrep & _ & _ & Hs1)%(report_returned _ _ _ _ db); [|done].
    destruct (IH w1 Hs1 H) as (before & e & after & w2 & df & -> & Hloop & Hall & Hrest).
    exists (entry :: before), e, after, w2, df.
    split; [done|]. split; [|split; [by constructor|done]].
    simpl. by apply (seq_returned _ _ w tt w1).
Qed.

End Drawing.

(** X12: the result of a statement is written before it is drawn.  When the
    run aborts because the result of a statement cannot be drawn, that
    statement has run, its [.sql] and [.csv] files hold its text and its
    result, its [.png] path is as it was before the run, and the three
    artefacts of every earlier statement are files. *)
Theorem artefacts_when_drawing_fails (to_csv : frame -> string)
    (render : nat -> list string -> list (list value) -> option string)
    (base_dir : string) (db : database) (w w' : world) :
  let db_path := Os.join base_dir "imdb_top1000.db" in
  let output_dir := Os.join base_dir "query_results" in
  fs w !! db_path = Some (File (Sqlite db)) ->
  run_queries to_csv render db_path output_dir w = Raised RenderError w' ->
  exists before fname q after df,
    queries = before ++ (fname, q) :: after
    /\ Sql.execute q db = Some df
    /\ preview render df = None
    /\ (forall entry path,
          entry ∈ before -> path ∈ artefact_paths output_dir entry -> is_file path w')
    /\ fs w' !! sql_path output_dir fname
       = Some (File (Bytes (Py.strip (sql_text q) +:+ newline)))
    /\ fs w' !! csv_path_of output_dir fname = Some (File (Bytes (to_csv df)))
    /\ fs w' !! png_path_of output_dir fname = fs w !! png_path_of output_dir fname.
Proof.
  intros db_path output_dir Hdb H.
  pose proof (store_not_written base_dir) as Hapart.
  fold db_path output_dir in Hapart.
  apply not_elem_of_cons in Hapart as [Hne Hapart].
  unfold run_queries in H.
  apply bind_raised in H as [H|([] & w0 & Hmk & H)];
    [by apply mkdir_raised in H as [? _]|].
  apply mkdir_returned in Hmk as [Hfs0 _].
  apply bind_raised in H as [H|(conn & w1 & Hconn & H)];
    [by apply connect_raised in H as [? _]|].
  apply connect_returned in Hconn as (-> & _ & Hconn).
  assert (fs w1 = fs w0) as Hfs1.
  { destruct Hconn as [[_ ?]|[Hnone _]]; [done|].
    by rewrite Hfs0, lookup_insert_ne, Hdb in Hnone. }
  apply bind_raised in H as [H|([] & w2 & _ & H)]; [|done].
  apply (for_each_report_raised_render to_csv render db_path output_dir db) in H
    as (before & [fname q] & after & w2 & df & Hqs & Hloop & _ & Hrun & Hpng & Hfs');
    [|left; by rewrite Hfs1, Hfs0, lookup_insert_ne].
  apply for_each_report_files in Hloop as (files & Hpaths & Hfs2).
  simpl in Hrun, Hfs'.
  pose proof (artefact_paths_NoDup output_dir) as Hnd.
  rewrite Hqs, bind_app, bind_cons in Hnd.
  apply NoDup_app in Hnd as (_ & Hbefore & Hnd).
  apply NoDup_app in Hnd as (Hentry & _ & _).
  unfold artefact_paths in Hentry. simpl in Hentry.
  apply NoDup_cons in Hentry as [Hsql Hentry].
  apply NoDup_cons in Hentry as [Hcsv _].
  assert (sql_path output_dir fname <> csv_path_of output_dir fname) as Hsql_csv.
  { intros Heq. apply Hsql. rewrite Heq. left. }
  assert (sql_path output_dir fname <> png_path_of output_dir fname) as Hsql_png.
  { intros Heq. apply Hsql. rewrite Heq. right. left. }
  assert (csv_path_of output_dir fname <> png_path_of output_dir fname) as Hcsv_png.
  { intros Heq. apply Hcsv. rewrite Heq. left. }
  exists before, fname, q, after, df.
  split; [done|]. split; [done|]. split; [done|]. split; [|split; [|split]].
  - intros entry path Hentry Hpath.
    assert (path ∈ map fst files) as Hin.
    { rewrite Hpaths. apply list_elem_of_bind. by exists entry. }
    destruct (write_all_is_file files (fs w1) path Hin) as [data Hdata].
    unfold is_file. rewrite Hfs'.
    destruct (decide (csv_path_of output_dir fname = path)) as [<-|Hne1];
      [rewrite lookup_insert_eq; eauto|rewrite lookup_insert_ne by done].
    destruct (decide (sql_path output_dir fname = path)) as [<-|Hne2];
      [rewrite lookup_insert_eq; eauto|rewrite lookup_insert_ne by done].
    rewrite Hfs2. eauto.
  - rewrite Hfs', lookup_insert_ne by done. apply lookup_insert_eq.
  - rewrite Hfs'. apply lookup_insert_eq.
  - rewrite Hfs', !lookup_insert_ne by done.
    rewrite Hfs2, write_all_other.
    + rewrite Hfs1, Hfs0. apply lookup_insert_ne.
      unfold png_path_of. apply not_eq_sym, join_ne_dir.
    + rewrite Hpaths. intros Hin. apply (Hbefore _ Hin).
      apply elem_of_app. left. unfold artefact_paths. simpl. right. right. left.
Qed.

Lemma artefacts_when_drawing_fails_witness :
  exists before fname q after df,
    queries = before ++ (fname, q) :: after
    /\ Sql.execute q toy_db = Some df
    /\ preview strict_render df = None
    /\ (forall entry path,
          entry ∈ before ->
          path ∈ artefact_paths (Os.join "/repo" "query_results") entry ->
          is_file path
            (world_after (run_queries header_csv strict_render
                            (Os.join "/repo" "imdb_top1000.db")
                            (Os.join "/repo" "query_results") store_only_world)))
    /\ fs (world_after (run_queries header_csv strict_render
                          (Os.join "/repo" "imdb_top1000.db")
                          (Os.join "/repo" "query_results") store_only_world))
         !! sql_path (Os.join "/repo" "query_results") fname
       = Some (File (Bytes (Py.strip (sql_text q) +:+ newline)))
    /\ fs (world_after (run_queries header_csv strict_render
                          (Os.join "/repo" "imdb_top1000.db")
                          (Os.join "/repo" "query_results") store_only_world))
         !! csv_path_of (Os.join "/repo" "query_results") fname
       = Some (File (Bytes (header_csv df)))
    /\ fs (world_after (run_queries header_csv strict_render
                          (Os.join "/repo" "imdb_top1000.db")
                          (Os.join "/repo" "query_results") store_only_world))
         !! png_path_of (Os.join "/repo" "query_results") fname
       = fs store_only_world !! png_path_of (Os.join "/repo" "query_results") fname.
Proof.
  apply (artefacts_when_drawing_fails header_csv strict_render "/repo" toy_db
           store_only_world).
  - reflexivity.
  - vm_compute. reflexivity.
Defined.

(** ** The script as a whole: [main] *)

Lemma startswith_append (p s : string) : Py.startswith p (p +:+ s) = true.
Proof.
  induction p as [|c p IH]; [done|]. step_append. simpl.
  by rewrite Ascii.eqb_refl.
Qed.

Lemma below_join (dir name : string) : below dir (Os.join dir name).
Proof.
  unfold below, Os.join. rewrite <- append_assoc. apply startswith_append.
Qed.

Lemma below_join_join (dir sub name : string) :
  below dir (Os.join (Os.join dir sub) name).
Proof.
  unfold below, Os.join. rewrite !append_assoc, <- append_assoc.
  apply startswith_append.
Qed.

Lemma main_paths_below (base_dir path : string) :
  path ∈ main_paths base_dir -> below base_dir path.
Proof.
  unfold main_paths, reporter_paths.
  intros [->|[->|[->|Hart]%elem_of_cons]%elem_of_cons]%elem_of_cons;
    try apply below_join.
  rewrite artefact_paths_names in Hart.
  apply list_elem_of_fmap in Hart as (name & -> & _). apply below_join_join.
Qed.

#[local] Instance same_outside_preorder written : PreOrder (same_outside written).
Proof.
  split.
  - by intros w path _.
  - intros w1 w2 w3 H1 H2 path Hpath. by rewrite H2, H1.
Qed.

#[local] Instance silent_preorder : PreOrder silent.
Proof.
  split; [done|]. intros w1 w2 w3. unfold silent. congruence.
Qed.

Section Main.
Variable read_csv : string -> option (list movie).
Variable to_csv : frame -> string.
Variable render : nat -> list string -> list (list value) -> option string.
Variable remote : string -> response.

Lemma pipeline_silent csv_path db_path output_dir :
  always silent (pipeline read_csv to_csv render csv_path db_path output_dir).
Proof.
  unfold pipeline. apply always_bind; [apply _| |intros _].
  - intros w. apply (confined_build_database read_csv csv_path db_path w).
  - intros w. apply (reporter_frame_run_queries to_csv render db_path output_dir w).
Qed.

Lemma main_same_outside base_dir :
  always (same_outside (main_paths base_dir))
         (main read_csv to_csv render remote base_dir).
Proof.
  unfold main. cbv zeta.
  apply always_bind; [apply _| |intros _].
  { intros w path Hpath. apply (download_csv_same_outside remote _ w).
    intros ->%list_elem_of_singleton. apply Hpath. left. }
  apply always_bind; [apply _| |intros _].
  { intros w path Hpath. apply (confined_build_database read_csv _ _ w).
    intros ->%list_elem_of_singleton. apply Hpath. right. left. }
  intros w path Hpath.
  apply (reporter_frame_run_queries to_csv render _ _ w).
  - intros Hin. apply Hpath. right. by right.
  - left. intros ->. apply Hpath. right. left.
Qed.

End Main.

(** X13: whatever its outcome, [main] changes no path outside the directory
    of the script, and sends no request at all or one request to
    [REPO_URL]. *)
Theorem main_effects (read_csv : string -> option (list movie))
    (to_csv : frame -> string)
    (render : nat -> list string -> list (list value) -> option string)
    (remote : string -> response) (base_dir : string) (w : world) :
  let w' := world_after (main read_csv to_csv render remote base_dir w) in
  (requests w' = requests w \/ requests w' = requests w ++ [REPO_URL])
  /\ (forall path, ~ below base_dir path -> fs w' !! path = fs w !! path).
Proof.
  cbv zeta. split.
  - unfold main. cbv zeta.
    change (build_database read_csv ?c ?d ≫= (fun _ => run_queries to_csv render ?d' ?o))
      with (pipeline read_csv to_csv render c d o).
    rewrite world_after_bind.
    pose proof (download_csv_requests remote
                  (Os.join base_dir "IMDB-Movie-Data.csv") w) as Hget.
    destruct (download_csv remote _ w) as [[] w0|e w0]; simpl in Hget; [|done].
    by rewrite (pipeline_silent read_csv to_csv render _ _ _ w0).
  - intros path Hpath. apply (main_same_outside read_csv to_csv render remote base_dir w).
    intros Hin. by apply Hpath, main_paths_below.
Qed.

(** X14: when the dataset is absent and the server cannot be reached,
    [main] stops at the download: it raises after its one request, and
    the file system is as it was, with no store and no output directory
    made. *)
Theorem main_offline (read_csv : string -> option (list movie))
    (to_csv : frame -> string)
    (render : nat -> list string -> list (list value) -> option string)
    (remote : string -> response) (base_dir : string) (w : world) :
  fs w !! Os.join base_dir "IMDB-Movie-Data.csv" = None ->
  remote REPO_URL = Unreachable ->
  exists w',
    main read_csv to_csv render remote base_dir w = Raised URLError w'
    /\ fs w' = fs w
    /\ requests w' = requests w ++ [REPO_URL].
Proof.
  intros Hnone Hdead. unfold main. cbv zeta.
  eexists. split.
  - apply bind_raised. left. rewrite download_csv_absent by done.
    unfold mbind, io_bind, Os.print, urlopen. simpl. rewrite Hdead. reflexivity.
  - done.
Qed.

Lemma main_offline_witness :
  exists w',
    main toy_read_csv header_csv stub_render dead_remote "/repo" empty_world
    = Raised URLError w'
    /\ fs w' = fs empty_world
    /\ requests w' = requests empty_world ++ [REPO_URL].
Proof.
  apply (main_offline toy_read_csv header_csv stub_render dead_remote "/repo"
           empty_world).
  - reflexivity.
  - reflexivity.
Defined.

Lemma write_all_ext files m1 m2 path :
  path ∈ map fst files -> write_all files m1 !! path = write_all files m2 !! path.
Proof.
  revert m1 m2. induction files as [|[p c] files IH]; intros m1 m2 Hin;
    [by apply elem_of_nil in Hin|].
  simpl in *. destruct (decide (path ∈ map fst files)) as [Hlater|Hlater].
  - by apply IH.
  - apply elem_of_cons in Hin as [->|Hin]; [|done].
    by rewrite !write_all_other, !lookup_insert_eq.
Qed.

Section MainRuns.
Variable read_csv : string -> option (list movie).
Variable to_csv : frame -> string.
Variable render : nat -> list string -> list (list value) -> option string.
Variable remote : string -> response.

(** The pipeline on a dataset that is in place. *)
Lemma pipeline_returns base_dir data movies w :
  let csv_path := Os.join base_dir "IMDB-Movie-Data.csv" in
  let db_path := Os.join base_dir "imdb_top1000.db" in
  let output_dir := Os.join base_dir "query_results" in
  fs w !! csv_path = Some (File (Bytes data)) ->
  read_csv data = Some movies ->
  movies <> [] ->
  Forall (reported render (loaded movies)) queries ->
  can_connect db_path w ->
  (forall c, fs w !! output_dir <> Some (File c)) ->
  (forall path, path ∈ queries ≫= artefact_paths output_dir ->
     fs w !! path <> Some Directory) ->
  exists w',
    pipeline read_csv to_csv render csv_path db_path output_dir w = Returned tt w'
    /\ requests w' = requests w
    /\ fs w' = write_all (queries ≫= artefacts to_csv render (loaded movies) output_dir)
                 (<[output_dir := Directory]>
                    (<[db_path := File (Sqlite (loaded movies))]> (fs w))).
Proof.
  intros csv_path db_path output_dir Hfile Hparse Hne Hall Hconn Hout Hdirs.
  pose proof (store_not_written base_dir) as Hapart.
  fold db_path output_dir in Hapart.
  pose proof Hapart as [Hdb_out Hdb_art]%not_elem_of_cons.
  destruct (build_database_succeeds read_csv csv_path db_path w data movies)
    as [wb Hbuild]; [done..|].
  pose proof Hbuild as (movies' & Hread & _ & Hfsb & Hreqb)%build_database_returned.
  apply pd_read_csv_returned in Hread as (_ & data' & Hfile' & Hparse').
  assert (movies' = movies) as -> by congruence.
  destruct (run_queries_returns to_csv render db_path output_dir (loaded movies) wb)
    as (w' & Hrun & Hfs & Hreq); [by rewrite Hfsb, lookup_insert_eq|done|done| | |].
  { intros c. rewrite Hfsb, lookup_insert_ne by done. apply Hout. }
  { intros path Hpath. rewrite Hfsb, lookup_insert_ne; [by apply Hdirs|].
    by intros <-. }
  exists w'. split; [|split].
  - unfold pipeline. by apply (seq_returned _ _ w tt wb).
  - congruence.
  - by rewrite Hfs, Hfsb.
Qed.

End MainRuns.

(** X15: from a directory without dataset, when the server answers with a
    dataset that parses and is not empty, every result can be drawn, a
    connection to the store can be opened and nothing stands in the way of
    the output files, [main] returns after exactly one request; the
    dataset file holds the body of the response, the store holds the four
    tables loaded from it, and the CSV file of each statement holds the
    result of that statement on this store. *)
Theorem main_succeeds (read_csv : string -> option (list movie))
    (to_csv : frame -> string)
    (render : nat -> list string -> list (list value) -> option string)
    (remote : string -> response) (base_dir data : string)
    (movies : list movie) (w : world) :
  let csv_path := Os.join base_dir "IMDB-Movie-Data.csv" in
  let db_path := Os.join base_dir "imdb_top1000.db" in
  let output_dir := Os.join base_dir "query_results" in
  fs w !! csv_path = None ->
  remote REPO_URL = Body data ->
  read_csv data = Some movies ->
  movies <> [] ->
  (forall q df, Sql.execute q (loaded movies) = Some df -> is_Some (preview render df)) ->
  can_connect db_path w ->
  (forall c, fs w !! output_dir <> Some (File c)) ->
  (forall path, path ∈ queries ≫= artefact_paths output_dir ->
     fs w !! path <> Some Directory) ->
  exists w',
    main read_csv to_csv render remote base_dir w = Returned tt w'
    /\ requests w' = requests w ++ [REPO_URL]
    /\ fs w' !! csv_path = Some (File (Bytes data))
    /\ fs w' !! db_path = Some (File (Sqlite (loaded movies)))
    /\ fs w' !! output_dir = Some Directory
    /\ (forall fname q, (fname, q) ∈ queries ->
          exists df, Sql.execute q (loaded movies) = Some df
            /\ fs w' !! csv_path_of output_dir fname = Some (File (Bytes (to_csv df))))
    /\ (forall path, path ∈ queries ≫= artefact_paths output_dir -> is_file path w').
Proof.
  intros csv_path db_path output_dir Hnone Hbody Hparse Hne Hdraw Hconn Hout Hdirs.
  destruct (dataset_apart base_dir) as (Hcsv_db & Hcsv_out & Hcsv_art).
  fold csv_path in Hcsv_db, Hcsv_out, Hcsv_art. fold output_dir in Hcsv_out, Hcsv_art.
  fold db_path in Hcsv_db.
  pose proof (store_not_written base_dir) as Hapart.
  fold db_path output_dir in Hapart.
  apply not_elem_of_cons in Hapart as [Hdb_out Hdb_art].
  assert (Forall (reported render (loaded movies)) queries) as Hall.
  { apply Forall_forall. intros [fname q] _.
    destruct (execute_is_Some q (loaded movies)) as [df Hdf]; [by eexists..|].
    destruct (Hdraw q df Hdf) as [png Hpng]. by exists df, png. }
  destruct (download_csv_body remote csv_path data w Hnone Hbody)
    as (w0 & Hget & Hfs0 & Hreq0).
  destruct (pipeline_returns read_csv to_csv render base_dir data movies w0)
    as (w' & Hrun & Hreq & Hfs); [by rewrite Hfs0, lookup_insert_eq|done|done|done| | | |].
  { fold db_path. destruct Hconn as [Hfree|[db Hdb]].
    - left. by rewrite Hfs0, lookup_insert_ne.
    - right. exists db. rewrite <- Hdb. apply store_ext.
      by rewrite Hfs0, lookup_insert_ne. }
  { fold output_dir. intros c. rewrite Hfs0, lookup_insert_ne by done. apply Hout. }
  { fold output_dir. intros path Hpath. rewrite Hfs0, lookup_insert_ne; [by apply Hdirs|].
    by intros <-. }
  fold csv_path db_path output_dir in Hrun, Hfs.
  pose proof (artefacts_paths to_csv render (loaded movies) output_dir queries Hall)
    as Hpaths.
  exists w'. split; [|split; [congruence|split; [|split; [|split; [|split]]]]].
  - unfold main. cbv zeta. by apply (seq_returned _ _ w tt w0).
  - rewrite Hfs, write_all_other by (by rewrite Hpaths).
    by rewrite !lookup_insert_ne, Hfs0, lookup_insert_eq.
  - rewrite Hfs, write_all_other by (by rewrite Hpaths).
    by rewrite lookup_insert_ne, lookup_insert_eq.
  - rewrite Hfs, write_all_other; [apply lookup_insert_eq|].
    rewrite Hpaths. intros Hin. by apply artefact_not_output_dir in Hin.
  - intros fname q Hin. pose proof Hall as Hq. rewrite Forall_forall in Hq.
    destruct (Hq _ Hin) as (df & png & Hdf & Hpng). simpl in Hdf.
    exists df. split; [done|]. rewrite Hfs. apply write_all_lookup.
    + rewrite Hpaths. apply artefact_paths_NoDup.
    + apply list_elem_of_bind. exists (fname, q). split; [|done].
      unfold artefacts. simpl. rewrite Hdf. right. left.
  - intros path Hpath. unfold is_file. rewrite Hfs.
    apply write_all_is_file. by rewrite Hpaths.
Qed.

Lemma main_succeeds_witness :
  exists w',
    main toy_read_csv header_csv stub_render toy_remote "/repo" empty_world
    = Returned tt w'
    /\ requests w' = requests empty_world ++ [REPO_URL]
    /\ fs w' !! Os.join "/repo" "IMDB-Movie-Data.csv" = Some (File (Bytes "Rank,Title"))
    /\ fs w' !! Os.join "/repo" "imdb_top1000.db"
       = Some (File (Sqlite (loaded toy_movies)))
    /\ fs w' !! Os.join "/repo" "query_results" = Some Directory
    /\ (forall fname q, (fname, q) ∈ queries ->
          exists df, Sql.execute q (loaded toy_movies) = Some df
            /\ fs w' !! csv_path_of (Os.join "/repo" "query_results") fname
               = Some (File (Bytes (header_csv df))))
    /\ (forall path, path ∈ queries ≫= artefact_paths (Os.join "/repo" "query_results") ->
          is_file path w').
Proof.
  apply (main_succeeds toy_read_csv header_csv stub_render toy_remote "/repo"
           "Rank,Title" toy_movies empty_world).
  - reflexivity.
  - reflexivity.
  - reflexivity.
  - discriminate.
  - intros q df _. eexists. reflexivity.
  - left. reflexivity.
  - intros c. discriminate.
  - intros path _. discriminate.
Defined.

(** X16: the script is idempotent: after a run of [main] that returned, a
    second run returns as well and sends no request; it writes the
    preview images anew, and every other path (the dataset, the store,
    the [.sql] and [.csv] files included) holds exactly what the first
    run left there. *)
Theorem main_idempotent (read_csv : string -> option (list movie))
    (to_csv : frame -> string)
    (render : nat -> list string -> list (list value) -> option string)
    (remote : string -> response) (base_dir : string) (w w1 : world) :
  main read_csv to_csv render remote base_dir w = Returned tt w1 ->
  exists w2,
    main read_csv to_csv render remote base_dir w1 = Returned tt w2
    /\ requests w2 = requests w1
    /\ (forall path,
          (forall fname q, (fname, q) ∈ queries ->
             path <> png_path_of (Os.join base_dir "query_results") fname) ->
          fs w2 !! path = fs w1 !! path)
    /\ (forall fname q, (fname, q) ∈ queries ->
          is_file (png_path_of (Os.join base_dir "query_results") fname) w2).
Proof.
  unfold main. cbv zeta.
  set (csv_path := Os.join base_dir "IMDB-Movie-Data.csv").
  set (db_path := Os.join base_dir "imdb_top1000.db").
  set (output_dir := Os.join base_dir "query_results").
  change (build_database read_csv csv_path db_path
          ≫= (fun _ => run_queries to_csv render db_path output_dir))
    with (pipeline read_csv to_csv render csv_path db_path output_dir).
  intros H1.
  destruct (dataset_apart base_dir) as (Hcsv_db & Hcsv_out & Hcsv_art).
  fold csv_path in Hcsv_db, Hcsv_out, Hcsv_art. fold output_dir in Hcsv_out, Hcsv_art.
  fold db_path in Hcsv_db.
  pose proof (store_not_written base_dir) as Hapart.
  fold db_path output_dir in Hapart.
  pose proof Hapart as [Hdb_out Hdb_art]%not_elem_of_cons.
  apply bind_returned in H1 as ([] & w0 & Hget & Hrun).
  unfold pipeline in Hrun.
  apply bind_returned in Hrun as ([] & wb & Hbuild & Hrun).
  apply build_database_returned in Hbuild as (movies & Hread & Hne & Hfsb & _).
  apply pd_read_csv_returned in Hread as (_ & data & Hfile & Hparse).
  apply (run_queries_returned _ _ _ _ (loaded movies)) in Hrun as [Hfs1 Hall];
    [|by rewrite Hfsb, lookup_insert_eq].
  pose proof (artefacts_paths to_csv render (loaded movies) output_dir queries Hall)
    as Hpaths.
  set (files := queries ≫= artefacts to_csv render (loaded movies) output_dir) in *.
  assert (fs w1 !! csv_path = Some (File (Bytes data))) as Hfile1.
  { rewrite Hfs1, write_all_other by (by rewrite Hpaths).
    by rewrite lookup_insert_ne, Hfsb, lookup_insert_ne. }
  assert (fs w1 !! db_path = Some (File (Sqlite (loaded movies)))) as Hdb1.
  { rewrite Hfs1, write_all_other by (by rewrite Hpaths).
    by rewrite lookup_insert_ne, Hfsb, lookup_insert_eq. }
  assert (fs w1 !! output_dir = Some Directory) as Hout1.
  { rewrite Hfs1, write_all_other; [apply lookup_insert_eq|].
    rewrite Hpaths. intros Hin. by apply artefact_not_output_dir in Hin. }
  set (w1' := World (fs w1) (requests w1)
                    (stdout w1 ++ ["CSV already present at " +:+ csv_path])).
  assert (download_csv remote csv_path w1 = Returned tt w1') as Hget2.
  { apply download_csv_present. by rewrite Hfile1. }
  destruct (pipeline_returns read_csv to_csv render base_dir data movies w1')
    as (w2 & Hrun2 & Hreq2 & Hfs2); [done|done|done|done| | | |].
  { right. exists (loaded movies). by apply store_lookup. }
  { intros c. fold output_dir. simpl. by rewrite Hout1. }
  { intros path Hpath. fold output_dir in Hpath. simpl. rewrite Hfs1.
    destruct (write_all_is_file files (<[output_dir:=Directory]> (fs wb)) path)
      as [c ->]; [by rewrite Hpaths|done]. }
  fold csv_path db_path output_dir files in Hrun2, Hfs2.
  assert (fs w2 = fs w1) as Hsame.
  { rewrite Hfs2. change (fs w1') with (fs w1). apply map_eq. intros path.
    destruct (decide (path ∈ map fst files)) as [Hin|Hnot].
    - rewrite Hfs1. by apply write_all_ext.
    - rewrite write_all_other by done.
      destruct (decide (path = output_dir)) as [->|Hne_out];
        [by rewrite lookup_insert_eq|rewrite lookup_insert_ne by done].
      destruct (decide (path = db_path)) as [->|Hne_db];
        [by rewrite lookup_insert_eq|by rewrite lookup_insert_ne]. }
  exists w2. split; [|split; [done|split]].
  - by apply (seq_returned _ _ w1 tt w1').
  - intros path _. by rewrite Hsame.
  - intros fname q Hin. unfold is_file. rewrite Hsame, Hfs1.
    apply write_all_is_file. rewrite Hpaths.
    apply list_elem_of_bind. exists (fname, q). split; [|done].
    unfold artefact_paths. simpl. right. right. left.
Qed.

Lemma main_idempotent_witness :
  exists w2,
    main toy_read_csv header_csv stub_render toy_remote "/repo"
         (world_after (main toy_read_csv header_csv stub_render toy_remote "/repo"
                            empty_world))
    = Returned tt w2
    /\ requests w2
       = requests (world_after (main toy_read_csv header_csv stub_render toy_remote
                                     "/repo" empty_world))
    /\ (forall path,
          (forall fname q, (fname, q) ∈ queries ->
             path <> png_path_of (Os.join "/repo" "query_results") fname) ->
          fs w2 !! path
          = fs (world_after (main toy_read_csv header_csv stub_render toy_remote
                                  "/repo" empty_world)) !! path)
    /\ (forall fname q, (fname, q) ∈ queries ->
          is_file (png_path_of (Os.join "/repo" "query_results") fname) w2).
Proof.
  apply (main_idempotent toy_read_csv header_csv stub_render toy_remote "/repo"
           empty_world).
  vm_compute. reflexivity.
Defined.

(** ** Loader: the rows of the derived tables *)

Lemma count_lstrip (c : ascii) (s : string) :
  (Py.count c (Py.lstrip s) <= Py.count c s)%nat.
Proof.
  induction s as [|c' s IH]; simpl; [done|].
  destruct (Py.isspace c'); simpl; lia.
Qed.

Lemma count_rstrip (c : ascii) (s : string) :
  (Py.count c (Py.rstrip s) <= Py.count c s)%nat.
Proof.
  induction s as [|c' s IH]; simpl; [done|].
  destruct (Py.rstrip s) as [|c'' r] eqn:E.
  - destruct (Py.isspace c'); simpl in *; lia.
  - simpl in *. lia.
Qed.

Lemma strip_strip (s : string) : Py.strip (Py.strip s) = Py.strip s.
Proof.
  symmetry. apply trimmed_from_iff.
  destruct (strip_trimmed_from s) as (_ & Hstart & Hend).
  split; [|done]. exists "", "". split; [|done].
  step_append. clear. induction (Py.strip s) as [|c t IH]; [done|].
  step_append. by rewrite <- IH.
Qed.

(** X17: the genre association is in first normal form and loses no movie:
    no genre it stores holds a comma or surrounding white space
    (stripping it again changes nothing), every movie of the dataset has a
    row at least, and so the association has at least as many rows as the
    dataset has movies. *)
Theorem genre_records_atomic (movies : list movie) :
  (forall rank g, (rank, g) ∈ genre_records movies ->
     Py.count "," g = 0%nat /\ Py.strip g = g)
  /\ (forall m, m ∈ movies -> exists g, (Rank m, g) ∈ genre_records movies)
  /\ (length movies <= length (genre_records movies))%nat.
Proof.
  split; [|split].
  - intros rank g (m & tok & _ & _ & Htok & ->)%elem_of_genre_records.
    split; [|apply strip_strip].
    apply split_no_sep in Htok.
    pose proof (count_rstrip "," (Py.lstrip tok)) as H1.
    pose proof (count_lstrip "," tok) as H2.
    unfold Py.strip. lia.
  - intros m Hm.
    destruct (Py.split "," (str (Genre m))) as [|tok toks] eqn:E;
      [by apply split_not_nil in E|].
    exists (Py.strip tok). apply elem_of_genre_records.
    exists m, tok. split; [done|]. split; [done|]. split; [|done].
    rewrite E. left.
  - rewrite length_genre_records.
    induction movies as [|m ms IH]; [done|].
    change (sum_list_with genre_tokens (m :: ms))
      with (genre_tokens m + sum_list_with genre_tokens ms)%nat.
    unfold genre_tokens at 1. simpl length. lia.
Qed.

Lemma NoDup_director_ids (movies : list movie) :
  NoDup (map snd (unique_directors movies)).
Proof.
  apply NoDup_alt. intros i j id Hi Hj.
  change (map snd (unique_directors movies)) with (snd <$> unique_directors movies)
    in Hi, Hj.
  rewrite list_lookup_fmap in Hi, Hj.
  destruct (unique_directors movies !! i) as [[di idi]|] eqn:Ei; [|done].
  destruct (unique_directors movies !! j) as [[dj idj]|] eqn:Ej; [|done].
  simpl in Hi, Hj. injection Hi as ->. injection Hj as ->.
  apply unique_directors_lookup in Ei as [_ Hi].
  apply unique_directors_lookup in Ej as [_ Hj]. lia.
Qed.

(** X18: the movie-directors association has exactly one row per movie, in
    the order of the movies table, and its [director_id] is never missing:
    it is the identifier of one row of the directors table, the row of the
    movie's own director (a missing director name included).  Identifiers
    are a key of the directors table. *)
Theorem movie_directors_rows (movies : list movie) :
  map fst (movies_dir movies) = map Rank movies
  /\ NoDup (map snd (unique_directors movies))
  /\ (forall k m, movies !! k = Some m ->
        exists id,
          movies_dir movies !! k = Some (Rank m, Some id)
          /\ forall d, (d, id) ∈ unique_directors movies <-> d = Director m).
Proof.
  split; [|split].
  - rewrite movies_dir_eq, map_map. done.
  - apply NoDup_director_ids.
  - intros k m Hk.
    set (names := map Director movies).
    exists (first_seen_id (Director m) names). split.
    + rewrite movies_dir_eq.
      change (map ?f movies !! k) with ((f <$> movies) !! k).
      by rewrite list_lookup_fmap, Hk.
    + assert ((Director m, first_seen_id (Director m) names)
              ∈ unique_directors movies) as Hown.
      { apply elem_of_unique_directors. split; [|done].
        apply list_elem_of_fmap. exists m. split; [done|].
        by eapply list_elem_of_lookup_2. }
      intros d. split; [|by intros ->].
      intros Hd.
      apply list_elem_of_lookup in Hd as [i Hi].
      apply list_elem_of_lookup in Hown as [j Hj].
      pose proof (NoDup_director_ids movies) as Hnd.
      assert (i = j) as ->.
      { eapply NoDup_lookup; [exact Hnd| |].
        - change (map snd ?l) with (snd <$> l).
          by rewrite list_lookup_fmap, Hi.
        - change (map snd ?l) with (snd <$> l).
          by rewrite list_lookup_fmap, Hj. }
      congruence.
Qed.

(** X30: splitting the genre field loses nothing: for a movie whose genre
    field has no white space around its comma-separated tokens, joining
    the genres stored for it with commas gives the field back. *)
Theorem genres_round_trip (m : movie) (s : string) :
  Genre m = Some s ->
  (forall tok, tok ∈ Py.split "," s -> Py.strip tok = tok) ->
  Py.join "," (genres_of m) = s
  /\ map snd (genre_records [m]) = Py.split "," s.
Proof.
  intros Hgenre Htidy.
  assert (genres_of m = Py.split "," s) as Hsplit.
  { unfold genres_of. rewrite Hgenre. simpl.
    rewrite <- (map_id (Py.split "," s)) at 2.
    apply map_ext_in. intros tok Htok%list_elem_of_In. by apply Htidy. }
  split.
  - rewrite Hsplit. apply (join_split ","%char).
  - rewrite genre_records_cons, app_nil_r, map_map. simpl.
    by rewrite map_id.
Qed.

Lemma genres_round_trip_witness :
  Py.join "," (genres_of tidy_movie) = "Action,Sci-Fi"
  /\ map snd (genre_records [tidy_movie]) = Py.split "," "Action,Sci-Fi".
Proof.
  apply (genres_round_trip tidy_movie "Action,Sci-Fi").
  - reflexivity.
  - intros tok Htok. change (tok ∈ ["Action"; "Sci-Fi"]) in Htok.
    apply elem_of_cons in Htok as [->|Htok]; [reflexivity|].
    apply list_elem_of_singleton in Htok as ->. reflexivity.
Defined.

(** ** The statements: sorting and limiting *)

Section Sorting.
Context {A : Type} (o : Sql.ordering A) (R : relation A).
Hypothesis o_R : forall a b, precedes o a b <-> R a b.
Hypothesis R_total : forall a b, R a b \/ R b a.
Context `{!Transitive R}.

Lemma order_by_StronglySorted l : StronglySorted R (Sql.order_by o l).
Proof.
  apply Sorted_StronglySorted; [done|].
  apply (Sorted_weaken (precedes o)); [intros a b; apply o_R|].
  apply order_by_Sorted. intros x y Hxy.
  destruct (R_total x y) as [H|H]; apply o_R in H; done.
Qed.

(** [ORDER BY ... LIMIT n] keeps rows that precede every row it drops. *)
Lemma limit_order_by n l :
  exists rest,
    Sql.limit n (Sql.order_by o l) ++ rest ≡ₚ l
    /\ StronglySorted R (Sql.limit n (Sql.order_by o l))
    /\ forall a b, a ∈ Sql.limit n (Sql.order_by o l) -> b ∈ rest -> R a b.
Proof.
  exists (drop n (Sql.order_by o l)). unfold Sql.limit.
  pose proof (order_by_StronglySorted l) as Hs.
  rewrite <- (take_drop n (Sql.order_by o l)) in Hs.
  split; [|split].
  - rewrite take_drop. apply order_by_Permutation.
  - by apply StronglySorted_app_1_l in Hs.
  - intros a b. by apply StronglySorted_app_1_elem_of.
Qed.

End Sorting.

Lemma desc_Real_precedes {A} (f : A -> Q) a b :
  precedes (Sql.desc (fun x => Real (f x))) a b <-> (f b <= f a)%Q.
Proof. unfold precedes, Sql.desc. simpl. symmetry. apply Qle_alt. Qed.

Lemma desc_Int_precedes {A} (f : A -> Z) a b :
  precedes (Sql.desc (fun x => Int (f x))) a b <-> f b <= f a.
Proof. unfold precedes, Sql.desc. simpl. apply Z.compare_le_iff. Qed.

Lemma asc_Int_precedes {A} (f : A -> Z) a b :
  precedes (Sql.asc (fun x => Int (f x))) a b <-> f a <= f b.
Proof. unfold precedes, Sql.asc. simpl. apply Z.compare_le_iff. Qed.

Lemma Qle_cases (x y : Q) : (x <= y)%Q \/ (y <= x)%Q.
Proof. destruct (Qlt_le_dec x y) as [H|H]; [left; by apply Qlt_le_weak|by right]. Qed.

Lemma StronglySorted_weaken {A} (R1 R2 : A -> A -> Prop) (l : list A) :
  (forall x y, R1 x y -> R2 x y) -> StronglySorted R1 l -> StronglySorted R2 l.
Proof.
  intros HR. induction 1 as [|x l Hl IH Hall]; constructor; [done|].
  eapply Forall_impl; [exact Hall|]. intros y. apply HR.
Qed.

(** A list without duplicates in descending order is in strictly
    descending order. *)
Lemma StronglySorted_strict {A} (f : A -> Z) (l : list A) :
  NoDup (map f l) -> StronglySorted (fun a b => f b <= f a) l ->
  StronglySorted (fun a b => f a > f b) l.
Proof.
  intros Hnd Hs. induction Hs as [|x l Hl IH Hall]; [constructor|].
  simpl in Hnd. apply NoDup_cons in Hnd as [Hx Hnd].
  constructor; [by apply IH|].
  rewrite Forall_forall in *. intros y Hy.
  assert (f x <> f y).
  { intros Heq. apply Hx. rewrite Heq. apply list_elem_of_fmap. exists y.
    by split. }
  specialize (Hall y Hy). simpl in Hall. lia.
Qed.

(** X20: statement 01 returns the ten best rated movies, or all of them
    when there are fewer: its rows are the title, year and rating of
    min(10, n) movies of the table, in descending order of rating, and no
    movie it leaves out is rated above one it returns. *)
Theorem top_rated_rows (db : database) (movies : list movie) :
  tbl_movies db = Some movies ->
  exists top rest,
    Sql.execute Q01 db
    = Some (Frame ["Title"; "Year"; "Rating"]
              (map (fun m => [Text (Title m); Int (Year m); Real (Rating m)]) top))
    /\ top ++ rest ≡ₚ movies
    /\ length top = Nat.min 10 (length movies)
    /\ StronglySorted (fun a b => (Rating b <= Rating a)%Q) top
    /\ (forall a b, a ∈ top -> b ∈ rest -> (Rating b <= Rating a)%Q).
Proof.
  intros Htbl.
  set (o := Sql.desc (fun m => Real (Rating m))).
  destruct (limit_order_by o (fun a b => (Rating b <= Rating a)%Q)) with (n := 10%nat)
    (l := movies) as (rest & Hperm & Hsorted & Htop).
  - intros a b. apply (desc_Real_precedes Rating).
  - intros a b. apply Qle_cases.
  - intros a b c Hab Hbc. by apply Qle_trans with (Rating b).
  - exists (Sql.limit 10 (Sql.order_by o movies)), rest.
    split; [unfold Sql.execute, Sql.q01; by rewrite Htbl|].
    split; [done|]. split; [|done].
    unfold Sql.limit. by rewrite length_take, length_order_by.
Qed.

Lemma top_rated_rows_witness :
  exists top rest,
    Sql.execute Q01 toy_db
    = Some (Frame ["Title"; "Year"; "Rating"]
              (map (fun m => [Text (Title m); Int (Year m); Real (Rating m)]) top))
    /\ top ++ rest ≡ₚ toy_movies
    /\ length top = Nat.min 10 (length toy_movies)
    /\ StronglySorted (fun a b => (Rating b <= Rating a)%Q) top
    /\ (forall a b, a ∈ top -> b ∈ rest -> (Rating b <= Rating a)%Q).
Proof. apply (top_rated_rows toy_db toy_movies). reflexivity. Defined.

(** ** The statements: counting the rows of each group *)

Section Counting.
Context {A K : Type} `{Countable K} (key : A -> K) (cell : K -> value).

(** The rows [key, COUNT( * )] of a [GROUP BY key]. *)
Lemma counted_groups (l : list A) :
  map (fun g : K * list A => [cell g.1; Int (Sql.count_rows g.2)]) (Sql.group_by key l)
  = map (fun k => [cell k; Int (tally key l k)]) (unique (map key l)).
Proof. unfold Sql.group_by. by rewrite map_map. Qed.

Lemma tally_sum (ks : list K) (l : list A) :
  NoDup ks -> (forall k, k ∈ ks <-> k ∈ map key l) ->
  foldr Z.add 0 (map (tally key l) ks) = Z.of_nat (length l).
Proof.
  intros Hnd Hks. apply (group_sizes key); [done|].
  intros a Ha. apply Hks. apply list_elem_of_fmap. by exists a.
Qed.

End Counting.

(** X21: statement 03 returns the ten directors with most movies, or all
    of them when there are fewer: one row per director (the movies without
    director name counted together under [NULL]), with the number of the
    director's movies, in descending order of that number; no director it
    leaves out has more movies than one it returns. *)
Theorem director_counts_rows (db : database) (movies : list movie) :
  tbl_movies db = Some movies ->
  exists top rest : list (option string),
    Sql.execute Q03 db
    = Some (Frame ["Director"; "movie_count"]
              (map (fun d => [Sql.text d; Int (tally Director movies d)]) top))
    /\ NoDup (top ++ rest)
    /\ (forall d, d ∈ top ++ rest <-> d ∈ map Director movies)
    /\ length top = Nat.min 10 (distinct (map Director movies))
    /\ StronglySorted
         (fun a b => tally Director movies b <= tally Director movies a) top
    /\ (forall a b, a ∈ top -> b ∈ rest ->
          tally Director movies b <= tally Director movies a).
Proof.
  intros Htbl.
  set (o := Sql.desc (fun d => Int (tally Director movies d))).
  set (names := unique (map Director movies)).
  destruct (limit_order_by o
              (fun a b => tally Director movies b <= tally Director movies a))
    with (n := 10%nat) (l := names) as (rest & Hperm & Hsorted & Htop).
  - intros a b. apply (desc_Int_precedes (tally Director movies)).
  - intros a b. lia.
  - intros a b c. lia.
  - exists (Sql.limit 10 (Sql.order_by o names)), rest.
    split; [|split; [|split; [|split; [|done]]]].
    + assert (Sql.execute Q03 db
              = Some (Frame ["Director"; "movie_count"]
                  (Sql.limit 10
                     (Sql.order_by (Sql.desc (fun r => nth 1 r Null))
                        (map (fun g : option string * list movie =>
                                [Sql.text g.1; Int (Sql.count_rows g.2)])
                             (Sql.group_by Director movies)))))) as ->
        by (unfold Sql.execute, Sql.q03; by rewrite Htbl).
      do 2 f_equal.
      rewrite (counted_groups Director Sql.text), order_by_map.
      unfold Sql.limit.
      change (map ?f (Sql.order_by ?o' ?l)) with (f <$> Sql.order_by o' l).
      by rewrite <- fmap_take.
    + rewrite Hperm. apply NoDup_unique.
    + intros d. rewrite Hperm. apply elem_of_unique.
    + unfold Sql.limit. rewrite length_take, length_order_by.
      unfold names. by rewrite length_unique.
Qed.

Lemma director_counts_rows_witness :
  exists top rest : list (option string),
    Sql.execute Q03 toy_db
    = Some (Frame ["Director"; "movie_count"]
              (map (fun d => [Sql.text d; Int (tally Director toy_movies d)]) top))
    /\ NoDup (top ++ rest)
    /\ (forall d, d ∈ top ++ rest <-> d ∈ map Director toy_movies)
    /\ length top = Nat.min 10 (distinct (map Director toy_movies))
    /\ StronglySorted
         (fun a b => tally Director toy_movies b <= tally Director toy_movies a) top
    /\ (forall a b, a ∈ top -> b ∈ rest ->
          tally Director toy_movies b <= tally Director toy_movies a).
Proof. apply (director_counts_rows toy_db toy_movies). reflexivity. Defined.

(** X22: statement 04 returns one row per year that has a movie, with the
    number of movies of that year, in strictly descending order of year;
    the counts add up to the number of movies. *)
Theorem year_counts_rows (db : database) (movies : list movie) :
  tbl_movies db = Some movies ->
  exists years : list Z,
    Sql.execute Q04 db
    = Some (Frame ["Year"; "movie_count"]
              (map (fun y => [Int y; Int (tally Year movies y)]) years))
    /\ StronglySorted (fun a b => a > b) years
    /\ (forall y, y ∈ years <-> exists m, m ∈ movies /\ Year m = y)
    /\ foldr Z.add 0 (map (tally Year movies) years) = Z.of_nat (length movies).
Proof.
  intros Htbl.
  set (o := Sql.desc (fun y : Z => Int y)).
  set (all := unique (map Year movies)).
  assert (Sql.order_by o all ≡ₚ all) as Hperm by apply order_by_Permutation.
  exists (Sql.order_by o all). split; [|split; [|split]].
  - assert (Sql.execute Q04 db
            = Some (Frame ["Year"; "movie_count"]
                (Sql.order_by (Sql.desc (fun r => nth 0 r Null))
                   (map (fun g : Z * list movie => [Int g.1; Int (Sql.count_rows g.2)])
                        (Sql.group_by Year movies))))) as ->
      by (unfold Sql.execute, Sql.q04; by rewrite Htbl).
    do 2 f_equal.
    by rewrite (counted_groups Year Int), order_by_map.
  - apply (StronglySorted_strict id).
    + rewrite map_id, Hperm. apply NoDup_unique.
    + apply (order_by_StronglySorted o).
      * intros a b. apply (desc_Int_precedes id).
      * intros a b. unfold id. lia.
      * intros a b c. unfold id. lia.
  - intros y. rewrite Hperm. unfold all. rewrite elem_of_unique, list_elem_of_fmap.
    split; intros (m & ? & ?); by exists m.
  - apply tally_sum.
    + rewrite Hperm. apply NoDup_unique.
    + intros y. rewrite Hperm. apply elem_of_unique.
Qed.

Lemma year_counts_rows_witness :
  exists years : list Z,
    Sql.execute Q04 toy_db
    = Some (Frame ["Year"; "movie_count"]
              (map (fun y => [Int y; Int (tally Year toy_movies y)]) years))
    /\ StronglySorted (fun a b => a > b) years
    /\ (forall y, y ∈ years <-> exists m, m ∈ toy_movies /\ Year m = y)
    /\ foldr Z.add 0 (map (tally Year toy_movies) years)
       = Z.of_nat (length toy_movies).
Proof. apply (year_counts_rows toy_db toy_movies). reflexivity. Defined.

(** X23: the rows of statement 08 are the genres with most association
    rows: one row per genre, in descending order of the number of rows of
    the genre, and no genre left out has more rows than one returned. *)
Theorem top_genres_order (db : database) (movie_genres : list (Z * string)) :
  tbl_movie_genres db = Some movie_genres ->
  exists top rest : list string,
    Sql.execute Q08 db
    = Some (Frame ["Genre"; "movie_count"]
              (map (fun g => [Text g; Int (tally snd movie_genres g)]) top))
    /\ NoDup (top ++ rest)
    /\ (forall g, g ∈ top ++ rest <-> g ∈ map snd movie_genres)
    /\ StronglySorted
         (fun a b => tally snd movie_genres b <= tally snd movie_genres a) top
    /\ (forall a b, a ∈ top -> b ∈ rest ->
          tally snd movie_genres b <= tally snd movie_genres a).
Proof.
  intros Htbl.
  set (o := Sql.desc (fun g => Int (tally snd movie_genres g))).
  set (names := unique (map snd movie_genres)).
  destruct (limit_order_by o
              (fun a b => tally snd movie_genres b <= tally snd movie_genres a))
    with (n := 5%nat) (l := names) as (rest & Hperm & Hsorted & Htop).
  - intros a b. apply (desc_Int_precedes (tally snd movie_genres)).
  - intros a b. lia.
  - intros a b c. lia.
  - exists (Sql.limit 5 (Sql.order_by o names)), rest.
    split; [|split; [|split; [|done]]].
    + assert (Sql.execute Q08 db
              = Some (Frame ["Genre"; "movie_count"]
                  (Sql.limit 5
                     (Sql.order_by (Sql.desc (fun r => nth 1 r Null))
                        (map (fun g : string * list (Z * string) =>
                                [Text g.1; Int (Sql.count_rows g.2)])
                             (Sql.group_by snd movie_genres)))))) as ->
        by (unfold Sql.execute, Sql.q08; by rewrite Htbl).
      do 2 f_equal.
      rewrite (counted_groups snd Text), order_by_map.
      unfold Sql.limit.
      change (map ?f (Sql.order_by ?o' ?l)) with (f <$> Sql.order_by o' l).
      by rewrite <- fmap_take.
    + rewrite Hperm. apply NoDup_unique.
    + intros g. rewrite Hperm. apply elem_of_unique.
Qed.

Lemma top_genres_order_witness :
  exists top rest : list string,
    Sql.execute Q08 toy_db
    = Some (Frame ["Genre"; "movie_count"]
              (map (fun g => [Text g; Int (tally snd (genre_records toy_movies) g)]) top))
    /\ NoDup (top ++ rest)
    /\ (forall g, g ∈ top ++ rest <-> g ∈ map snd (genre_records toy_movies))
    /\ StronglySorted
         (fun a b => tally snd (genre_records toy_movies) b
                     <= tally snd (genre_records toy_movies) a) top
    /\ (forall a b, a ∈ top -> b ∈ rest ->
          tally snd (genre_records toy_movies) b
          <= tally snd (genre_records toy_movies) a).
Proof. apply (top_genres_order toy_db (genre_records toy_movies)). reflexivity. Defined.

(** ** The statements: numbering the rows of each partition *)

Lemma bind_ext_elem {A B} (f g : A -> list B) (l : list A) :
  (forall x, x ∈ l -> f x = g x) -> l ≫= f = l ≫= g.
Proof.
  induction l as [|a l IH]; intros Hfg; [done|].
  rewrite !bind_cons, Hfg by left. f_equal. apply IH.
  intros x Hx. apply Hfg. by right.
Qed.

Lemma bind_Permutation_ext {A B} (f g : A -> list B) (l : list A) :
  (forall x, x ∈ l -> f x ≡ₚ g x) -> l ≫= f ≡ₚ l ≫= g.
Proof.
  induction l as [|a l IH]; intros Hfg; [done|].
  rewrite !bind_cons. apply Permutation_app; [apply Hfg; left|].
  apply IH. intros x Hx. apply Hfg. by right.
Qed.

Lemma bind_app_Permutation {A B} (f g : A -> list B) (l : list A) :
  (l ≫= f) ++ (l ≫= g) ≡ₚ l ≫= (fun x => f x ++ g x).
Proof.
  induction l as [|a l IH]; [done|].
  rewrite !bind_cons, <- IH, <- !app_assoc. apply Permutation_app; [done|].
  rewrite !app_assoc. apply Permutation_app; [|done]. apply Permutation_app_comm.
Qed.

Lemma filter_bind {A B} (P : B -> Prop) `{forall x, Decision (P x)}
    (f : A -> list B) (l : list A) :
  filter P (l ≫= f) = l ≫= (fun x => filter P (f x)).
Proof.
  induction l as [|a l IH]; [done|]. by rewrite !bind_cons, filter_app, IH.
Qed.

Lemma fmap_bind {A B C} (g : B -> C) (f : A -> list B) (l : list A) :
  g <$> (l ≫= f) = l ≫= (fun x => g <$> f x).
Proof.
  induction l as [|a l IH]; [done|]. by rewrite !bind_cons, fmap_app, IH.
Qed.

Lemma filter_all {A} (P : A -> Prop) `{forall x, Decision (P x)} (l : list A) :
  (forall x, x ∈ l -> P x) -> filter P l = l.
Proof.
  induction l as [|a l IH]; intros Hl; [done|].
  rewrite filter_cons_True by (apply Hl; left). f_equal.
  apply IH. intros x Hx. apply Hl. by right.
Qed.

Lemma filter_ext_elem {A} (P Q : A -> Prop) `{forall x, Decision (P x)}
    `{forall x, Decision (Q x)} (l : list A) :
  (forall x, x ∈ l -> P x <-> Q x) -> filter P l = filter Q l.
Proof.
  induction l as [|a l IH]; intros Hl; [done|].
  assert (filter P l = filter Q l) as Htl.
  { apply IH. intros x Hx. apply Hl. by right. }
  destruct (decide (P a)) as [Hp|Hp].
  - rewrite !filter_cons_True; [by rewrite Htl|by apply Hl; [left|]|done].
  - rewrite !filter_cons_False; [done| |done].
    intros Hq. apply Hp. apply Hl; [left|done].
Qed.

(** At most one row of a list meets [P] when filtering by [P] leaves one
    row at most. *)
Lemma filter_le_1 {A} (P : A -> Prop) `{forall x, Decision (P x)} (l : list A) a b :
  (length (filter P l) <= 1)%nat -> a ∈ l -> b ∈ l -> P a -> P b -> a = b.
Proof.
  intros Hlen Ha Hb Hpa Hpb.
  assert (a ∈ filter P l) as Ha' by (by apply list_elem_of_filter).
  assert (b ∈ filter P l) as Hb' by (by apply list_elem_of_filter).
  destruct (filter P l) as [|x [|y l']]; simpl in Hlen; [|  |lia].
  - by apply elem_of_nil in Ha'.
  - apply list_elem_of_singleton in Ha', Hb'. congruence.
Qed.

Lemma NoDup_of_counts {A} (f : A -> Z) (l : list A) :
  (forall y, (length (filter (fun a => f a = y) l) <= 1)%nat) -> NoDup (map f l).
Proof.
  induction l as [|a l IH]; intros Hc; [constructor|].
  simpl. constructor.
  - intros (b & Hfb & Hb)%list_elem_of_fmap.
    specialize (Hc (f a)). rewrite filter_cons_True in Hc by done.
    assert (b ∈ filter (fun x => f x = f a) l) as Hin
      by (by apply list_elem_of_filter).
    destruct (filter (fun x => f x = f a) l); [by apply elem_of_nil in Hin|].
    simpl in Hc. lia.
  - apply IH. intros y. specialize (Hc y).
    destruct (decide (f a = y)) as [Hy|Hy].
    + rewrite filter_cons_True in Hc by done. simpl in Hc. lia.
    + by rewrite filter_cons_False in Hc.
Qed.

Lemma StronglySorted_lookup {A} (R : relation A) (l : list A) i j a b :
  StronglySorted R l -> l !! i = Some a -> l !! j = Some b -> (i < j)%nat -> R a b.
Proof.
  intros Hs. revert i j. induction Hs as [|x l Hl IH Hall]; intros i j Hi Hj Hlt;
    [done|].
  destruct j as [|j]; [lia|]. simpl in Hj. destruct i as [|i].
  - injection Hi as <-. rewrite Forall_forall in Hall. apply Hall.
    by eapply list_elem_of_lookup_2.
  - simpl in Hi. apply (IH i j); [done|done|lia].
Qed.

Lemma StronglySorted_sub {A} (R : relation A) (l all : list A) :
  l ⊆ all -> StronglySorted R l ->
  StronglySorted (fun a b => a ∈ all /\ b ∈ all /\ R a b) l.
Proof.
  intros Hsub Hs. induction Hs as [|x l Hl IH Hall]; [constructor|].
  constructor.
  - apply IH. intros y Hy. apply Hsub. by right.
  - rewrite Forall_forall in *. intros y Hy.
    split; [apply Hsub; left|]. split; [apply Hsub; by right|by apply Hall].
Qed.

Lemma StronglySorted_elem {A} (R : relation A) (l : list A) :
  StronglySorted R l -> StronglySorted (fun a b => a ∈ l /\ b ∈ l /\ R a b) l.
Proof. by apply StronglySorted_sub. Qed.

Section Partitions.
Context {A K : Type} `{Countable K} (part : A -> K).

Lemma filter_other_key (k k' : K) (l : list A) :
  k' <> k ->
  filter (fun a => part a = k') (filter (fun a => ~ part a = k) l)
  = filter (fun a => part a = k') l.
Proof.
  intros Hne. rewrite list_filter_filter. apply list_filter_iff.
  intros a. split; [by intros [? _]|]. intros Ha. split; [done|]. congruence.
Qed.

(** The groups of a list by key are a partition of the list. *)
Lemma partition_keys (ks : list K) (l : list A) :
  NoDup ks -> (forall a, a ∈ l -> part a ∈ ks) ->
  ks ≫= (fun k => filter (fun a => part a = k) l) ≡ₚ l.
Proof.
  intros Hnd. revert l. induction Hnd as [|k ks Hk Hnd IH]; intros l Hl.
  - destruct l as [|a l]; [done|].
    specialize (Hl a (list_elem_of_here _ _)). by apply elem_of_nil in Hl.
  - rewrite bind_cons.
    etrans; [|apply (filter_app_complement (fun a => part a = k) l)].
    apply Permutation_app; [done|].
    rewrite (bind_ext_elem _
               (fun k' => filter (fun a => part a = k')
                                 (filter (fun a => ~ part a = k) l))).
    + apply IH. intros a [Hne Ha]%list_elem_of_filter.
      specialize (Hl a Ha). apply elem_of_cons in Hl as [?|?]; done.
    + intros k' Hk'. symmetry. apply filter_other_key. by intros ->.
Qed.

Lemma partition_Permutation (l : list A) :
  unique (map part l) ≫= (fun k => filter (fun a => part a = k) l) ≡ₚ l.
Proof.
  apply partition_keys; [apply NoDup_unique|].
  intros a Ha. apply elem_of_unique. apply list_elem_of_fmap. by exists a.
Qed.

Lemma filter_part_bind (ks : list K) (h : K -> list A) (k : K) :
  NoDup ks -> (forall k' a, a ∈ h k' -> part a = k') ->
  filter (fun a => part a = k) (ks ≫= h) = if decide (k ∈ ks) then h k else [].
Proof.
  intros Hnd Hh. rewrite filter_bind.
  induction Hnd as [|k' ks Hk' Hnd IH]; [done|].
  rewrite bind_cons, IH. destruct (decide (k = k')) as [->|Hne].
  - rewrite (decide_True (P := k' ∈ k' :: ks)) by left.
    rewrite (decide_False (P := k' ∈ ks)) by done.
    rewrite app_nil_r. apply filter_all. intros a. apply Hh.
  - rewrite (filter_none (fun a => part a = k) (h k')).
    + simpl. destruct (decide (k ∈ ks)) as [Hin|Hnot].
      * by rewrite decide_True by (by right).
      * rewrite decide_False; [done|].
        by intros [?|?]%elem_of_cons.
    + intros a Ha Hk. apply Hne. rewrite <- Hk. by apply Hh.
Qed.

(** The rows numbered up to [n] are the first [n] rows. *)
Lemma filter_rank_le_from (j n : nat) (s : list A) :
  filter (fun r : A * Z => r.2 <= Z.of_nat (j + n))
         (imap (fun i a => (a, Z.of_nat (j + i) + 1)) s)
  = imap (fun i a => (a, Z.of_nat (j + i) + 1)) (take n s).
Proof.
  revert j n. induction s as [|a s IH]; intros j n; [by destruct n|].
  destruct n as [|n].
  - simpl take. apply filter_none.
    intros r (i & y & -> & _)%elem_of_lookup_imap. simpl. lia.
  - rewrite imap_cons, filter_cons_True by (simpl; lia).
    simpl take. rewrite imap_cons. f_equal.
    rewrite (imap_ext _ (fun i a => (a, Z.of_nat (S j + i) + 1)) s)
      by (intros i x _; simpl; do 2 f_equal; lia).
    rewrite (imap_ext ((fun i a => (a, Z.of_nat (j + i) + 1)) ∘ S)
               (fun i a => (a, Z.of_nat (S j + i) + 1)) (take n s))
      by (intros i x _; simpl; do 2 f_equal; lia).
    rewrite <- (IH (S j) n). apply list_filter_iff. intros r. lia.
Qed.

Lemma filter_rank_le (n : nat) (s : list A) :
  filter (fun r : A * Z => r.2 <= Z.of_nat n)
         (imap (fun i a => (a, Z.of_nat i + 1)) s)
  = imap (fun i a => (a, Z.of_nat i + 1)) (take n s).
Proof. apply (filter_rank_le_from 0 n s). Qed.

Lemma fst_numbered (s : list A) :
  fst <$> imap (fun i a => (a, Z.of_nat i + 1)) s = s.
Proof.
  rewrite fmap_imap. apply list_eq. intros i.
  rewrite list_lookup_imap. by destruct (s !! i).
Qed.

Lemma row_number_positive (o : Sql.ordering A) (l : list A) r :
  r ∈ Sql.row_number part o l -> 1 <= r.2.
Proof.
  unfold Sql.row_number. intros (g & Hr & _)%list_elem_of_bind.
  apply elem_of_lookup_imap in Hr as (i & y & -> & _). simpl. lia.
Qed.

Section Top.
Context (o : Sql.ordering A) (R : relation A).
Hypothesis o_R : forall a b, precedes o a b <-> R a b.
Hypothesis R_total : forall a b, R a b \/ R b a.
Context `{!Transitive R}.

#[local] Abbreviation sorted_part l k :=
  (Sql.order_by o (filter (fun a => part a = k) l)).

Lemma kept_rows (n : nat) (l : list A) :
  fst <$> filter (fun r : A * Z => r.2 <= Z.of_nat n) (Sql.row_number part o l)
  = unique (map part l) ≫= (fun k => take n (sorted_part l k)).
Proof.
  unfold Sql.row_number, Sql.group_by.
  change (map ?f (unique ?ks)) with (f <$> unique ks).
  rewrite list_fmap_bind, filter_bind, fmap_bind.
  apply bind_ext_elem. intros k _. simpl.
  by rewrite filter_rank_le, fst_numbered.
Qed.

Lemma sorted_part_key (l : list A) k a : a ∈ sorted_part l k -> part a = k /\ a ∈ l.
Proof. rewrite order_by_Permutation. by intros ?%list_elem_of_filter. Qed.

(** [ROW_NUMBER() OVER (PARTITION BY part ORDER BY o) <= n]: of every
    partition the first [n] rows are kept, or all when there are fewer,
    and a row that is kept precedes every row of its partition that is
    not. *)
Lemma top_per_partition (n : nat) (l : list A) :
  exists rest,
    (fst <$> filter (fun r : A * Z => r.2 <= Z.of_nat n) (Sql.row_number part o l))
      ++ rest ≡ₚ l
    /\ (forall k,
          length (filter (fun a => part a = k)
                    (fst <$> filter (fun r : A * Z => r.2 <= Z.of_nat n)
                                    (Sql.row_number part o l)))
          = Nat.min n (length (filter (fun a => part a = k) l)))
    /\ (forall a b,
          a ∈ fst <$> filter (fun r : A * Z => r.2 <= Z.of_nat n)
                             (Sql.row_number part o l) ->
          b ∈ rest -> part a = part b -> R a b).
Proof.
  rewrite kept_rows.
  exists (unique (map part l) ≫= (fun k => drop n (sorted_part l k))).
  split; [|split].
  - rewrite bind_app_Permutation.
    etrans; [|apply (partition_Permutation l)].
    apply bind_Permutation_ext. intros k _.
    rewrite take_drop. apply order_by_Permutation.
  - intros k. rewrite filter_part_bind.
    + destruct (decide (k ∈ unique (map part l))) as [Hin|Hnot].
      * by rewrite length_take, length_order_by.
      * rewrite (filter_none (fun a => part a = k) l); [by rewrite Nat.min_0_r|].
        intros a Ha Hk. apply Hnot. apply elem_of_unique.
        apply list_elem_of_fmap. by exists a.
    + apply NoDup_unique.
    + intros k' a Ha. apply (sorted_part_key l k' a).
      by apply (subseteq_take n).
  - intros a b (ka & Ha & _)%list_elem_of_bind (kb & Hb & _)%list_elem_of_bind Hab.
    assert (part a = ka) as Hka.
    { apply (sorted_part_key l ka a). by apply (subseteq_take n). }
    assert (part b = kb) as Hkb.
    { apply (sorted_part_key l kb b). by apply (subseteq_drop n). }
    assert (ka = kb) as -> by congruence.
    apply (StronglySorted_app_1_elem_of R
             (take n (sorted_part l kb)) (drop n (sorted_part l kb))); [|done|done].
    rewrite take_drop. by apply order_by_StronglySorted.
Qed.


(** Within a partition, a row with a lower number precedes a row with a
    higher one. *)
Lemma rank_order (l : list A) (r s : A * Z) :
  r ∈ Sql.row_number part o l -> s ∈ Sql.row_number part o l ->
  part r.1 = part s.1 -> r.2 <= s.2 -> R r.1 s.1.
Proof.
  unfold Sql.row_number, Sql.group_by.
  change (map ?f (unique ?ks)) with (f <$> unique ks). rewrite list_fmap_bind.
  intros (kr & Hr & _)%list_elem_of_bind (ks & Hs & _)%list_elem_of_bind.
  simpl in Hr, Hs.
  apply elem_of_lookup_imap in Hr as (i & a & -> & Hi).
  apply elem_of_lookup_imap in Hs as (j & b & -> & Hj). simpl.
  intros Hpart Hrank.
  assert (part a = kr) as Ha
    by (eapply sorted_part_key, list_elem_of_lookup_2, Hi).
  assert (part b = ks) as Hb
    by (eapply sorted_part_key, list_elem_of_lookup_2, Hj).
  assert (kr = ks) as -> by congruence.
  destruct (decide (i = j)) as [->|Hne].
  - assert (a = b) as -> by congruence. by destruct (R_total b b).
  - eapply (StronglySorted_lookup R (sorted_part l ks) i j); [|done|done|lia].
    by apply order_by_StronglySorted.
Qed.

(** The rows kept, in the order of the enclosing statement: when that
    order sorts the rows of one partition by their number, they are
    sorted by [o] there. *)
Lemma ranked_rows_sorted (o2 : Sql.ordering (A * Z)) (R2 : relation (A * Z))
    (S : relation A) `{!Transitive R2} (n : nat) (l : list A) :
  (forall r s, precedes o2 r s <-> R2 r s) ->
  (forall r s, R2 r s \/ R2 s r) ->
  (forall r s, R2 r s -> part r.1 = part s.1 -> r.2 <= s.2) ->
  (forall r s, R2 r s -> part r.1 <> part s.1 -> S r.1 s.1) ->
  (forall a b, part a = part b -> R a b -> S a b) ->
  StronglySorted S
    (fst <$> Sql.order_by o2
       (filter (fun r : A * Z => r.2 <= Z.of_nat n) (Sql.row_number part o l))).
Proof.
  intros Ho2 Htotal Hin Hout Hsame.
  set (kept := filter (fun r : A * Z => r.2 <= Z.of_nat n) (Sql.row_number part o l)).
  apply (StronglySorted_fmap fst
           (fun r s => r ∈ Sql.order_by o2 kept /\ s ∈ Sql.order_by o2 kept /\ R2 r s)).
  - intros r s (Hr & Hs & Hrs).
    rewrite order_by_Permutation in Hr, Hs.
    apply list_elem_of_filter in Hr as [_ Hr].
    apply list_elem_of_filter in Hs as [_ Hs].
    destruct (decide (part r.1 = part s.1)) as [Heq|Hne].
    + apply Hsame; [done|]. apply (rank_order l r s); auto.
    + by apply Hout.
  - apply StronglySorted_elem. by apply (order_by_StronglySorted o2 R2).
Qed.

(** The rows kept, in any order. *)
Lemma top_per_partition_sorted (o2 : Sql.ordering (A * Z)) (n : nat) (l : list A) :
  exists rest,
    (fst <$> Sql.order_by o2
       (filter (fun r : A * Z => r.2 <= Z.of_nat n) (Sql.row_number part o l)))
      ++ rest ≡ₚ l
    /\ (forall k,
          length (filter (fun a => part a = k)
                    (fst <$> Sql.order_by o2
                       (filter (fun r : A * Z => r.2 <= Z.of_nat n)
                               (Sql.row_number part o l))))
          = Nat.min n (length (filter (fun a => part a = k) l)))
    /\ (forall a b,
          a ∈ fst <$> Sql.order_by o2
                 (filter (fun r : A * Z => r.2 <= Z.of_nat n)
                         (Sql.row_number part o l)) ->
          b ∈ rest -> part a = part b -> R a b).
Proof.
  destruct (top_per_partition n l) as (rest & Hperm & Hcount & Hdom).
  set (kept := filter (fun r : A * Z => r.2 <= Z.of_nat n) (Sql.row_number part o l))
    in *.
  assert (fst <$> Sql.order_by o2 kept ≡ₚ fst <$> kept) as Hsort
    by (apply fmap_Permutation, order_by_Permutation).
  exists rest. split; [by rewrite Hsort|]. split.
  - intros k. rewrite <- Hcount. apply Permutation_length.
    by apply filter_Permutation.
  - intros a b Ha. apply Hdom. by rewrite <- Hsort.
Qed.

End Top.
End Partitions.

(** *** The orders of the three window statements *)

Lemma opt_le_compare (x y : option Q) :
  Sql.compare (Sql.real x) (Sql.real y) <> Gt <-> opt_le x y.
Proof.
  destruct x as [a|], y as [b|]; simpl; [symmetry; apply Qle_alt|done|done|done].
Qed.

Lemma opt_le_total (x y : option Q) : opt_le x y \/ opt_le y x.
Proof. destruct x as [a|], y as [b|]; simpl; auto. apply Qle_cases. Qed.

Lemma opt_le_trans (x y z : option Q) : opt_le x y -> opt_le y z -> opt_le x z.
Proof.
  destruct x as [a|], y as [b|], z as [c|]; simpl; try done. apply Qle_trans.
Qed.

Lemma string_compare_refl (s : string) : String.compare s s = Eq.
Proof.
  pose proof (String.compare_antisym s s) as H.
  destruct (String.compare s s); simpl in H; done.
Qed.

Lemma text_lt_trans (s t u : string) : text_lt s t -> text_lt t u -> text_lt s u.
Proof.
  unfold text_lt. intros Hst Htu.
  apply OrderedTypeEx.String_as_OT.cmp_lt.
  apply OrderedTypeEx.String_as_OT.lt_trans with t;
    by apply OrderedTypeEx.String_as_OT.cmp_lt.
Qed.

Lemma text_lt_cases (s t : string) : text_lt s t \/ s = t \/ text_lt t s.
Proof.
  unfold text_lt. pose proof (String.compare_antisym t s) as H.
  destruct (String.compare s t) eqn:E.
  - right. left. by apply String.compare_eq_iff.
  - by left.
  - right. right. rewrite H. done.
Qed.

Lemma text_lt_irrefl (s : string) : ~ text_lt s s.
Proof. unfold text_lt. by rewrite string_compare_refl. Qed.

(** X24: statement 05 returns one row per year that has a movie, in
    strictly descending order of year, and the movie of the row is a movie
    of that year than which no movie of the year is rated higher. *)
Theorem best_of_year_rows (db : database) (movies : list movie) :
  tbl_movies db = Some movies ->
  exists best : list movie,
    Sql.execute Q05 db
    = Some (Frame ["Year"; "Title"; "Rating"]
              (map (fun m => [Int (Year m); Text (Title m); Real (Rating m)]) best))
    /\ StronglySorted (fun a b => Year a > Year b) best
    /\ (forall y, y ∈ map Year best <-> exists m, m ∈ movies /\ Year m = y)
    /\ (forall b, b ∈ best ->
          b ∈ movies
          /\ forall m, m ∈ movies -> Year m = Year b -> (Rating m <= Rating b)%Q).
Proof.
  intros Htbl.
  set (o := Sql.desc (fun m => Real (Rating m))).
  set (o2 := Sql.desc (fun r : movie * Z => Int (Year r.1))).
  set (t := Sql.row_number Year o movies).
  assert (filter (fun r : movie * Z => r.2 = 1) t
          = filter (fun r : movie * Z => r.2 <= Z.of_nat 1) t) as Hkept.
  { apply filter_ext_elem. intros r Hr%row_number_positive. simpl. lia. }
  destruct (top_per_partition_sorted Year o (fun a b => (Rating b <= Rating a)%Q))
    with (o2 := o2) (n := 1%nat) (l := movies) as (rest & Hperm & Hcount & Hdom).
  { intros a b. apply (desc_Real_precedes Rating). }
  { intros a b. apply Qle_cases. }
  { intros a b c Hab Hbc. by apply Qle_trans with (Rating b). }
  fold t in Hperm, Hcount, Hdom.
  set (best := fst <$> Sql.order_by o2
                 (filter (fun r : movie * Z => r.2 <= Z.of_nat 1) t)) in *.
  assert (forall y, (length (filter (fun m => Year m = y) best) <= 1)%nat) as Hone.
  { intros y. rewrite Hcount. apply Nat.le_min_l. }
  assert (forall b, b ∈ best -> b ∈ movies) as Hsub.
  { intros b Hb. rewrite <- Hperm. apply elem_of_app. by left. }
  exists best. split; [|split; [|split]].
  - assert (Sql.execute Q05 db
            = Some (Frame ["Year"; "Title"; "Rating"]
                (map (fun r : movie * Z =>
                        [Int (Year r.1); Text (Title r.1); Real (Rating r.1)])
                   (Sql.order_by o2 (filter (fun r : movie * Z => r.2 = 1) t))))) as ->
      by (unfold Sql.execute, Sql.q05; by rewrite Htbl).
    rewrite Hkept. unfold best. do 2 f_equal.
    change (fst <$> ?l) with (map fst l). by rewrite map_map.
  - apply (StronglySorted_strict Year); [by apply NoDup_of_counts|].
    apply (StronglySorted_fmap fst (fun r s : movie * Z => Year s.1 <= Year r.1));
      [done|].
    apply (order_by_StronglySorted o2).
    + intros r s. apply (desc_Int_precedes (fun r : movie * Z => Year r.1)).
    + intros r s. lia.
    + intros r s u. lia.
  - intros y. split.
    + intros (b & -> & Hb)%list_elem_of_fmap. exists b. split; [by apply Hsub|done].
    + intros (m & Hm & Hy).
      specialize (Hcount y).
      assert (m ∈ filter (fun a => Year a = y) movies) as Hin
        by (by apply list_elem_of_filter).
      destruct (filter (fun a => Year a = y) movies) as [|x xs];
        [by apply elem_of_nil in Hin|].
      destruct (filter (fun a => Year a = y) best) as [|b bs] eqn:Hb;
        [simpl in Hcount; lia|].
      assert (b ∈ filter (fun a => Year a = y) best) as Hbin by (rewrite Hb; left).
      apply list_elem_of_filter in Hbin as [Hby Hbin].
      apply list_elem_of_fmap. by exists b.
  - intros b Hb. split; [by apply Hsub|]. intros m Hm Hy.
    rewrite <- Hperm in Hm. apply elem_of_app in Hm as [Hm|Hm].
    + assert (m = b) as ->; [|apply Qle_refl].
      by apply (filter_le_1 (fun a => Year a = Year b) best m b (Hone (Year b))).
    + by apply Hdom.
Qed.

Lemma best_of_year_rows_witness :
  exists best : list movie,
    Sql.execute Q05 toy_db
    = Some (Frame ["Year"; "Title"; "Rating"]
              (map (fun m => [Int (Year m); Text (Title m); Real (Rating m)]) best))
    /\ StronglySorted (fun a b => Year a > Year b) best
    /\ (forall y, y ∈ map Year best <-> exists m, m ∈ toy_movies /\ Year m = y)
    /\ (forall b, b ∈ best ->
          b ∈ toy_movies
          /\ forall m, m ∈ toy_movies -> Year m = Year b -> (Rating m <= Rating b)%Q).
Proof. apply (best_of_year_rows toy_db toy_movies). reflexivity. Defined.

(** X25: statement 06 returns, of every year, the five movies with the
    highest known revenue, or all movies of the year with a known revenue
    when there are fewer: the rows are movies with a known revenue, sorted
    by year, latest first, and within a year by revenue, highest first; a
    movie with a known revenue that is left out earns no more than any
    movie returned for its year. *)
Theorem top_revenues_rows (db : database) (movies : list movie) :
  tbl_movies db = Some movies ->
  exists top rest : list movie,
    Sql.execute Q06 db
    = Some (Frame ["Year"; "Title"; "Revenue"]
              (map (fun m => [Int (Year m); Text (Title m); Sql.real (Revenue m)]) top))
    /\ top ++ rest ≡ₚ with_revenue movies
    /\ (forall y,
          length (filter (fun m => Year m = y) top)
          = Nat.min 5 (length (filter (fun m => Year m = y) (with_revenue movies))))
    /\ StronglySorted by_year_then_revenue top
    /\ (forall a b, a ∈ top -> b ∈ rest -> Year a = Year b ->
          opt_le (Revenue b) (Revenue a)).
Proof.
  intros Htbl.
  set (o := Sql.desc (fun m => Sql.real (Revenue m))).
  set (o2 := Sql.then_by (Sql.desc (fun r : movie * Z => Int (Year r.1)))
                         (Sql.asc (fun r : movie * Z => Int r.2))).
  set (R := fun a b : movie => opt_le (Revenue b) (Revenue a)).
  set (R2 := fun r s : movie * Z =>
               Year r.1 > Year s.1 \/ (Year r.1 = Year s.1 /\ r.2 <= s.2)).
  assert (forall a b, precedes o a b <-> R a b) as Ho
    by (intros a b; apply opt_le_compare).
  assert (forall a b, R a b \/ R b a) as Htotal by (intros a b; apply opt_le_total).
  assert (Transitive R) as Htrans
    by (intros a b c Hab Hbc; by apply opt_le_trans with (Revenue b)).
  assert (forall r s, precedes o2 r s <-> R2 r s) as Ho2.
  { intros r s. unfold precedes, o2, R2, Sql.then_by, Sql.desc, Sql.asc. simpl.
    destruct (Z.compare_spec (Year s.1) (Year r.1)) as [Heq|Hlt|Hgt].
    - rewrite Z.compare_le_iff. lia.
    - split; [lia|done].
    - split; [done|lia]. }
  destruct (top_per_partition_sorted Year o R Ho Htotal o2 5 (with_revenue movies))
    as (rest & Hperm & Hcount & Hdom).
  set (top := fst <$> Sql.order_by o2
                (filter (fun r : movie * Z => r.2 <= Z.of_nat 5)
                        (Sql.row_number Year o (with_revenue movies)))) in *.
  exists top, rest. split; [|split; [done|split; [done|split; [|done]]]].
  - assert (Sql.execute Q06 db
            = Some (Frame ["Year"; "Title"; "Revenue"]
                (map (fun r : movie * Z =>
                        [Int (Year r.1); Text (Title r.1); Sql.real (Revenue r.1)])
                   (Sql.order_by o2
                      (filter (fun r : movie * Z => r.2 <= Z.of_nat 5)
                              (Sql.row_number Year o (with_revenue movies))))))) as ->
      by (unfold Sql.execute, Sql.q06; by rewrite Htbl).
    unfold top. do 2 f_equal.
    change (fst <$> ?l) with (map fst l). by rewrite map_map.
  - assert (Transitive R2) as Htrans2 by (intros r s u; unfold R2; lia).
    apply (ranked_rows_sorted Year o R Ho Htotal o2 R2 by_year_then_revenue).
    + done.
    + intros r s. unfold R2. lia.
    + intros r s. unfold R2. lia.
    + intros r s Hrs Hne. left. unfold R2 in Hrs. lia.
    + intros a b Heq Hab. by right.
Qed.

Lemma top_revenues_rows_witness :
  exists top rest : list movie,
    Sql.execute Q06 toy_db
    = Some (Frame ["Year"; "Title"; "Revenue"]
              (map (fun m => [Int (Year m); Text (Title m); Sql.real (Revenue m)]) top))
    /\ top ++ rest ≡ₚ with_revenue toy_movies
    /\ (forall y,
          length (filter (fun m => Year m = y) top)
          = Nat.min 5 (length (filter (fun m => Year m = y) (with_revenue toy_movies))))
    /\ StronglySorted by_year_then_revenue top
    /\ (forall a b, a ∈ top -> b ∈ rest -> Year a = Year b ->
          opt_le (Revenue b) (Revenue a)).
Proof. apply (top_revenues_rows toy_db toy_movies). reflexivity. Defined.

(** X26: statement 11 returns, of every genre of the association, the
    three best rated of its movies, or all when there are fewer: the rows
    pair an association row with the movie of its [Rank], sorted by genre
    and within a genre by rating, highest first; a pair that is left out
    is rated no higher than any pair returned for its genre. *)
Theorem top_of_genre_rows (db : database) (movies : list movie)
    (movie_genres : list (Z * string)) :
  tbl_movies db = Some movies ->
  tbl_movie_genres db = Some movie_genres ->
  exists top rest : list ((Z * string) * movie),
    Sql.execute Q11 db
    = Some (Frame ["Genre"; "Title"; "Rating"]
              (map (fun r : (Z * string) * movie =>
                      [Text r.1.2; Text (Title r.2); Real (Rating r.2)]) top))
    /\ top ++ rest ≡ₚ Sql.join fst Rank movie_genres movies
    /\ (forall g,
          length (filter (fun r : (Z * string) * movie => r.1.2 = g) top)
          = Nat.min 3 (length (filter (fun r : (Z * string) * movie => r.1.2 = g)
                                      (Sql.join fst Rank movie_genres movies))))
    /\ StronglySorted by_genre_then_rating top
    /\ (forall a b, a ∈ top -> b ∈ rest -> a.1.2 = b.1.2 ->
          (Rating b.2 <= Rating a.2)%Q).
Proof.
  intros Hm Hmg.
  set (joined := Sql.join fst Rank movie_genres movies).
  set (genre := fun r : (Z * string) * movie => r.1.2).
  set (o := Sql.desc (fun r : (Z * string) * movie => Real (Rating r.2))).
  set (o2 := Sql.then_by
               (Sql.asc (fun r : ((Z * string) * movie) * Z => Text r.1.1.2))
               (Sql.asc (fun r : ((Z * string) * movie) * Z => Int r.2))).
  set (R := fun a b : (Z * string) * movie => (Rating b.2 <= Rating a.2)%Q).
  set (R2 := fun r s : ((Z * string) * movie) * Z =>
               text_lt r.1.1.2 s.1.1.2 \/ (r.1.1.2 = s.1.1.2 /\ r.2 <= s.2)).
  assert (forall a b, precedes o a b <-> R a b) as Ho
    by (intros a b; apply (desc_Real_precedes (fun r : (Z * string) * movie => Rating r.2))).
  assert (forall a b, R a b \/ R b a) as Htotal by (intros a b; apply Qle_cases).
  assert (Transitive R) as Htrans
    by (intros a b c Hab Hbc; by apply Qle_trans with (Rating b.2)).
  assert (forall r s, precedes o2 r s <-> R2 r s) as Ho2.
  { intros r s. unfold precedes, o2, R2, Sql.then_by, Sql.asc, text_lt. simpl.
    destruct (String.compare r.1.1.2 s.1.1.2) eqn:E.
    - apply String.compare_eq_iff in E. rewrite Z.compare_le_iff.
      split; [by right|]. intros [?|[_ ?]]; done.
    - split; [by left|done].
    - split; [done|]. intros [?|[Heq _]]; [done|].
      by rewrite Heq, string_compare_refl in E. }
  assert (Transitive R2) as Htrans2.
  { intros r s u [Hrs|[Hrs Hn1]] [Hsu|[Hsu Hn2]].
    - left. by apply text_lt_trans with s.1.1.2.
    - left. by rewrite <- Hsu.
    - left. by rewrite Hrs.
    - right. split; [congruence|lia]. }
  destruct (top_per_partition_sorted genre o R Ho Htotal o2 3 joined)
    as (rest & Hperm & Hcount & Hdom).
  set (top := fst <$> Sql.order_by o2
                (filter (fun r : ((Z * string) * movie) * Z => r.2 <= Z.of_nat 3)
                        (Sql.row_number genre o joined))) in *.
  exists top, rest. split; [|split; [done|split; [done|split; [|done]]]].
  - assert (Sql.execute Q11 db
            = Some (Frame ["Genre"; "Title"; "Rating"]
                (map (fun r : ((Z * string) * movie) * Z =>
                        [Text r.1.1.2; Text (Title r.1.2); Real (Rating r.1.2)])
                   (Sql.order_by o2
                      (filter (fun r : ((Z * string) * movie) * Z => r.2 <= Z.of_nat 3)
                              (Sql.row_number genre o joined)))))) as ->
      by (unfold Sql.execute, Sql.q11; by rewrite Hmg, Hm).
    unfold top. do 2 f_equal.
    change (fst <$> ?l) with (map fst l). by rewrite map_map.
  - apply (ranked_rows_sorted genre o R Ho Htotal o2 R2 by_genre_then_rating).
    + done.
    + intros r s. unfold R2.
      destruct (text_lt_cases r.1.1.2 s.1.1.2) as [?|[Heq|?]];
        [left; by left| |right; by left].
      destruct (Z.le_ge_cases r.2 s.2); [left|right]; right; split; [done|lia|done|lia].
    + intros r s [Hlt|[_ ?]] Heq; [|done].
      unfold genre in Heq. rewrite Heq in Hlt. by apply text_lt_irrefl in Hlt.
    + intros r s [Hlt|[Heq _]] Hne; [by left|done].
    + intros a b Heq Hab. by right.
Qed.

Lemma top_of_genre_rows_witness :
  exists top rest : list ((Z * string) * movie),
    Sql.execute Q11 toy_db
    = Some (Frame ["Genre"; "Title"; "Rating"]
              (map (fun r : (Z * string) * movie =>
                      [Text r.1.2; Text (Title r.2); Real (Rating r.2)]) top))
    /\ top ++ rest ≡ₚ Sql.join fst Rank (genre_records toy_movies) toy_movies
    /\ (forall g,
          length (filter (fun r : (Z * string) * movie => r.1.2 = g) top)
          = Nat.min 3 (length (filter (fun r : (Z * string) * movie => r.1.2 = g)
                                 (Sql.join fst Rank (genre_records toy_movies)
                                           toy_movies))))
    /\ StronglySorted by_genre_then_rating top
    /\ (forall a b, a ∈ top -> b ∈ rest -> a.1.2 = b.1.2 ->
          (Rating b.2 <= Rating a.2)%Q).
Proof.
  apply (top_of_genre_rows toy_db toy_movies (genre_records toy_movies)); reflexivity.
Defined.

(** ** The statements: averages per group *)

Lemma rounded_avg_mean2 (xs : list (option Q)) :
  Sql.rounded_avg xs = Sql.real (mean2 xs).
Proof. done. Qed.

Lemma desc_optional_precedes {A} (f : A -> option Q) a b :
  precedes (Sql.desc (fun x => Sql.real (f x))) a b <-> opt_le (f b) (f a).
Proof. apply opt_le_compare. Qed.

Lemma filter_fmap {A B} (f : A -> B) (P : B -> Prop) `{forall x, Decision (P x)}
    (l : list A) :
  filter P (f <$> l) = f <$> filter (fun a => P (f a)) l.
Proof.
  induction l as [|a l IH]; [done|]. rewrite fmap_cons.
  destruct (decide (P (f a))) as [Hp|Hp].
  - rewrite !filter_cons_True by done. by rewrite fmap_cons, IH.
  - by rewrite !filter_cons_False by done.
Qed.

(** [AVG] is a number as soon as one value is known. *)
Lemma avg_is_Some (xs : list (option Q)) (q : Q) :
  Some q ∈ xs -> is_Some (Sql.avg xs).
Proof.
  intros Hq. unfold Sql.avg.
  assert (q ∈ omap id xs) as Hin.
  { apply list_elem_of_omap. by exists (Some q). }
  destruct (omap id xs); [by apply elem_of_nil in Hin|eauto].
Qed.

(** The rows of statement 07 with the cell of the average as the
    embedding computes it: the directors with two known revenues or
    more, the ten with the highest cell first. *)
Lemma director_revenue_groups (db : database) (movies : list movie) :
  tbl_movies db = Some movies ->
  let revenues d :=
    map Revenue (filter (fun m => Director m = d) (with_revenue movies)) in
  exists top rest : list (option string),
    Sql.execute Q07 db
    = Some (Frame ["Director"; "avg_revenue"; "movies_count"]
              (map (fun d => [Sql.text d; Sql.rounded_avg (revenues d);
                              Int (tally Director (with_revenue movies) d)]) top))
    /\ NoDup (top ++ rest)
    /\ (forall d, d ∈ top ++ rest <-> 2 <= tally Director (with_revenue movies) d)
    /\ length top = Nat.min 10 (length (top ++ rest))
    /\ (forall d, d ∈ top ++ rest -> is_Some (mean2 (revenues d)))
    /\ StronglySorted (fun a b => opt_le (mean2 (revenues b)) (mean2 (revenues a))) top
    /\ (forall a b, a ∈ top -> b ∈ rest ->
          opt_le (mean2 (revenues b)) (mean2 (revenues a))).
Proof.
  intros Htbl revenues.
  set (known := with_revenue movies).
  set (names := filter (fun d => 2 <= tally Director known d)
                       (unique (map Director known))).
  set (o := Sql.desc (fun d => Sql.real (mean2 (revenues d)))).
  destruct (limit_order_by o
              (fun a b => opt_le (mean2 (revenues b)) (mean2 (revenues a))))
    with (n := 10%nat) (l := names) as (rest & Hperm & Hsorted & Htop).
  { intros a b. apply (desc_optional_precedes (fun d => mean2 (revenues d))). }
  { intros a b. apply opt_le_total. }
  { intros a b c Hab Hbc. by apply opt_le_trans with (mean2 (revenues b)). }
  assert (forall d, d ∈ names <-> 2 <= tally Director known d) as Hnames.
  { intros d. unfold names. rewrite list_elem_of_filter, elem_of_unique.
    split; [by intros [? _]|]. intros Hd. split; [done|].
    unfold tally in Hd.
    destruct (filter (fun m => Director m = d) known) as [|m ms] eqn:E;
      [simpl in Hd; lia|].
    assert (m ∈ filter (fun m => Director m = d) known) as Hm by (rewrite E; left).
    apply list_elem_of_filter in Hm as [<- Hm].
    apply list_elem_of_fmap. by exists m. }
  exists (Sql.limit 10 (Sql.order_by o names)), rest.
  split; [|split; [|split; [|split; [|split; [|done]]]]].
  - assert (Sql.execute Q07 db
            = Some (Frame ["Director"; "avg_revenue"; "movies_count"]
                (Sql.limit 10
                   (Sql.order_by (Sql.desc (fun r => nth 1 r Null))
                      (map (fun g : option string * list movie =>
                              [Sql.text g.1; Sql.rounded_avg (map Revenue g.2);
                               Int (Sql.count_rows g.2)])
                           (filter (fun g : option string * list movie =>
                                      2 <= Sql.count_rows g.2)
                                   (Sql.group_by Director known))))))) as ->
      by (unfold Sql.execute, Sql.q07; by rewrite Htbl).
    do 2 f_equal. unfold Sql.group_by.
    change (map ?f (unique ?l)) with (f <$> unique l).
    rewrite filter_fmap.
    change (?f <$> filter ?P (unique ?l)) with (map f (filter P (unique l))).
    rewrite map_map, order_by_map. unfold Sql.limit.
    change (map ?f (Sql.order_by ?o' ?l)) with (f <$> Sql.order_by o' l).
    by rewrite <- fmap_take.
  - rewrite Hperm. apply NoDup_filter, NoDup_unique.
  - intros d. rewrite Hperm. apply Hnames.
  - rewrite Hperm. unfold Sql.limit. by rewrite length_take, length_order_by.
  - intros d Hd. rewrite Hperm in Hd. apply Hnames in Hd.
    unfold tally in Hd. unfold mean2, revenues. fold known.
    destruct (filter (fun m => Director m = d) known) as [|m ms] eqn:E;
      [simpl in Hd; lia|].
    assert (m ∈ known) as Hm.
    { assert (m ∈ filter (fun m => Director m = d) known) as Hin by (rewrite E; left).
      by apply list_elem_of_filter in Hin as [_ ?]. }
    apply list_elem_of_filter in Hm as [Hrev _].
    destruct (Revenue m) as [q|] eqn:Hq; [|done].
    destruct (avg_is_Some (map Revenue (m :: ms)) q) as [a Ha].
    { simpl. rewrite Hq. left. }
    rewrite Ha. by eexists.
Qed.

(** *** The cells of a column that are known *)

Lemma omap_id_map {A} (f : A -> option Q) (l : list A) : omap id (map f l) = omap f l.
Proof.
  induction l as [|a l IH]; [done|]. csimpl. rewrite IH. by destruct (f a).
Qed.

Lemma omap_Some_map {A} (f : A -> Q) (l : list A) :
  omap (fun a => Some (f a)) l = map f l.
Proof. induction l as [|a l IH]; [done|]. csimpl. by rewrite IH. Qed.

Lemma known_sub {A} (f : A -> option Q) (l all : list A) (x : Q) :
  (forall a, a ∈ l -> a ∈ all) -> x ∈ omap f l -> x ∈ omap f all.
Proof.
  intros Hsub (a & Ha & Hx)%list_elem_of_omap.
  apply list_elem_of_omap. exists a. split; [by apply Hsub|done].
Qed.

Lemma known_with_revenue (P : movie -> Prop) `{forall m, Decision (P m)}
    (movies : list movie) :
  omap Revenue (filter P (with_revenue movies)) = omap Revenue (filter P movies)
  /\ length (filter P (with_revenue movies)) = length (omap Revenue (filter P movies)).
Proof.
  unfold with_revenue. induction movies as [|m ms [IH1 IH2]]; [done|].
  destruct (Revenue m) as [r|] eqn:Hr.
  - rewrite (filter_cons_True (fun m => Revenue m <> None)) by (by rewrite Hr).
    destruct (decide (P m)).
    + rewrite !(filter_cons_True P) by done. csimpl. rewrite Hr. csimpl.
      by rewrite IH1, IH2.
    + by rewrite !(filter_cons_False P) by done.
  - rewrite (filter_cons_False (fun m => Revenue m <> None)) by (rewrite Hr; by intros []).
    destruct (decide (P m)).
    + rewrite (filter_cons_True P) by done. csimpl. by rewrite Hr.
    + by rewrite (filter_cons_False P) by done.
Qed.

(** *** From the cells of the embedding to the cells reported

    For the groups [keys] with cells [xs], each holding a known number
    and none outside the bounds, the column of [ROUND(AVG(x), 2)] holds
    numbers to two decimals next to the means, and the groups sorted on
    this column are sorted on these numbers. *)
Section Reports.
Context {K : Type} (xs : K -> list (option Q)) (bound : Z) (keys : list K).
Hypothesis known_cells :
  forall k, k ∈ keys -> omap id (xs k) <> [] /\ within bound (omap id (xs k)).

Lemma report_cell k :
  k ∈ keys ->
  exists v, mean2 (xs k) = Some v
    /\ to_two_decimals v (mean (omap id (xs k)))
    /\ (0 <= v <= inject_Z bound)%Q.
Proof. intros [Hne Hin]%known_cells. by apply reported_average. Qed.

Lemma report_rounded_avg k :
  k ∈ keys -> Sql.rounded_avg (xs k) = Real (default 0%Q (mean2 (xs k))).
Proof.
  intros (v & Hv & _)%report_cell. rewrite rounded_avg_mean2. by rewrite Hv.
Qed.

Lemma report_Forall :
  Forall (fun r : K * Q =>
            to_two_decimals r.2 (mean (omap id (xs r.1)))
            /\ (0 <= r.2 <= inject_Z bound)%Q)
         (map (fun k => (k, default 0%Q (mean2 (xs k)))) keys).
Proof.
  apply Forall_forall. intros r (k & -> & Hk)%list_elem_of_fmap. simpl.
  destruct (report_cell k Hk) as (v & -> & Hv). exact Hv.
Qed.

Lemma report_sorted :
  StronglySorted (fun a b => opt_le (mean2 (xs b)) (mean2 (xs a))) keys ->
  StronglySorted (fun r s : K * Q => (s.2 <= r.2)%Q)
                 (map (fun k => (k, default 0%Q (mean2 (xs k)))) keys).
Proof.
  intros Hs%StronglySorted_elem.
  apply (StronglySorted_fmap _
           (fun a b => a ∈ keys /\ b ∈ keys
                       /\ opt_le (mean2 (xs b)) (mean2 (xs a)))); [|done].
  intros a b (Ha & Hb & Hle). simpl.
  destruct (report_cell a Ha) as (va & Hva & _).
  destruct (report_cell b Hb) as (vb & Hvb & _).
  by rewrite Hva, Hvb in *.
Qed.

End Reports.



(** *** The join of the movies with their genres *)

Lemma bind_nil_all {A B} (f : A -> list B) (l : list A) :
  (forall x, x ∈ l -> f x = []) -> l ≫= f = [].
Proof.
  induction l as [|a l IH]; intros Hf; [done|].
  rewrite bind_cons, Hf by left. apply IH. intros x Hx. apply Hf. by right.
Qed.

(** In a table with distinct [Rank]s, the rows of one [Rank] are the rows
    of one movie. *)
Lemma bind_single_rank {B} (h : movie -> list B) (movies : list movie) (a : movie) :
  NoDup (map Rank movies) -> a ∈ movies ->
  movies ≫= (fun m => if decide (Rank m = Rank a) then h m else []) = h a.
Proof.
  induction movies as [|m ms IH]; intros Hnd Ha; [by apply elem_of_nil in Ha|].
  simpl in Hnd. apply NoDup_cons in Hnd as [Hm Hnd]. rewrite bind_cons.
  destruct (decide (Rank m = Rank a)) as [Heq|Hne].
  - assert (a = m) as ->.
    { apply elem_of_cons in Ha as [?|Ha]; [done|]. destruct Hm.
      rewrite Heq. apply list_elem_of_fmap. by exists a. }
    rewrite bind_nil_all; [apply app_nil_r|].
    intros x Hx. rewrite decide_False; [done|]. intros Hx'. apply Hm.
    rewrite <- Hx'. apply list_elem_of_fmap. by exists x.
  - apply elem_of_cons in Ha as [->|Ha]; [done|]. simpl. by apply IH.
Qed.

Lemma filter_rank_records (movies : list movie) (a : movie) :
  NoDup (map Rank movies) -> a ∈ movies ->
  filter (fun b : Z * string => b.1 = Rank a) (genre_records movies)
  = map (pair (Rank a)) (genres_of a).
Proof.
  intros Hnd Ha. rewrite genre_records_bind, filter_bind.
  rewrite <- (bind_single_rank (fun m => map (pair (Rank m)) (genres_of m))
                movies a Hnd Ha) at 1.
  apply bind_ext_elem. intros m _.
  destruct (decide (Rank m = Rank a)) as [Heq|Hne].
  - apply filter_all. intros b (g & -> & _)%list_elem_of_fmap. done.
  - apply filter_none. intros b (g & -> & _)%list_elem_of_fmap. done.
Qed.

(** On a loaded store with distinct [Rank]s, the join pairs every movie
    with each of its genres. *)
Lemma movies_with_own_genres (movies : list movie) :
  NoDup (map Rank movies) ->
  Sql.movies_with_genres movies (genre_records movies)
  = movies ≫= (fun m => map (fun g => (m, (Rank m, g))) (genres_of m)).
Proof.
  intros Hnd. unfold Sql.movies_with_genres, Sql.join.
  apply bind_ext_elem. intros m Hm.
  by rewrite filter_rank_records, map_map.
Qed.

Lemma filter_eq_NoDup {A} `{EqDecision A} (x : A) (l : list A) :
  NoDup l -> filter (fun y => y = x) l = if decide (x ∈ l) then [x] else [].
Proof.
  induction 1 as [|y l Hy Hnd IH]; [done|].
  destruct (decide (y = x)) as [->|Hne].
  - rewrite filter_cons_True by done. rewrite decide_True by left.
    f_equal. apply filter_none. intros z Hz ->. done.
  - rewrite filter_cons_False by done. rewrite IH.
    destruct (decide (x ∈ l)) as [Hin|Hnot].
    + by rewrite decide_True by (by right).
    + rewrite decide_False; [done|]. intros [?|?]%elem_of_cons; done.
Qed.

Lemma bind_filter {A} (P : A -> Prop) `{forall x, Decision (P x)} (l : list A) :
  l ≫= (fun a => if decide (P a) then [a] else []) = filter P l.
Proof.
  induction l as [|a l IH]; [done|]. rewrite bind_cons, IH.
  destruct (decide (P a)); [by rewrite filter_cons_True|by rewrite filter_cons_False].
Qed.

(** The movies the join lists under a genre are the movies of that
    genre. *)
Lemma joined_of_genre (movies : list movie) (g : string) :
  NoDup (map Rank movies) ->
  (forall m, m ∈ movies -> NoDup (genres_of m)) ->
  fst <$> filter (fun r : movie * (Z * string) => r.2.2 = g)
                 (Sql.movies_with_genres movies (genre_records movies))
  = of_genre g movies.
Proof.
  intros Hnd Hgenres. rewrite movies_with_own_genres by done.
  rewrite filter_bind, fmap_bind. unfold of_genre.
  rewrite <- (bind_filter (fun m => g ∈ genres_of m)).
  apply bind_ext_elem. intros m Hm.
  change (map ?f (genres_of m)) with (f <$> genres_of m).
  rewrite filter_fmap. simpl.
  rewrite (filter_eq_NoDup g (genres_of m)) by (by apply Hgenres).
  by destruct (decide (g ∈ genres_of m)).
Qed.

Lemma joined_genres (movies : list movie) (g : string) :
  NoDup (map Rank movies) ->
  g ∈ map (fun r : movie * (Z * string) => r.2.2)
          (Sql.movies_with_genres movies (genre_records movies))
  <-> exists m, m ∈ movies /\ g ∈ genres_of m.
Proof.
  intros Hnd. rewrite movies_with_own_genres by done.
  rewrite list_elem_of_fmap. split.
  - intros (r & -> & (m & Hr & Hm)%list_elem_of_bind).
    apply list_elem_of_fmap in Hr as (g' & -> & Hg). by exists m.
  - intros (m & Hm & Hg). exists (m, (Rank m, g)). split; [done|].
    apply list_elem_of_bind. exists m. split; [|done].
    apply list_elem_of_fmap. by exists g.
Qed.

Section GenreAverages.
Variable col : movie -> option Q.
Variable movies : list movie.
Hypothesis ranks : NoDup (map Rank movies).
Hypothesis genres : forall m, m ∈ movies -> NoDup (genres_of m).

(** [SELECT mg.Genre, ROUND(AVG(col), 2) ... GROUP BY mg.Genre ORDER BY 2
    DESC] on a loaded store. *)
Lemma genre_averages :
  exists gs : list string,
    Sql.order_by (Sql.desc (fun r => nth 1 r Null))
      (map (fun g : string * list (movie * (Z * string)) =>
              [Text g.1; Sql.rounded_avg (map (fun r => col r.1) g.2)])
           (Sql.group_by (fun r : movie * (Z * string) => r.2.2)
              (Sql.movies_with_genres movies (genre_records movies))))
    = map (fun g => [Text g; Sql.rounded_avg (map col (of_genre g movies))]) gs
    /\ NoDup gs
    /\ (forall g, g ∈ gs <-> exists m, m ∈ movies /\ g ∈ genres_of m)
    /\ StronglySorted
         (fun g h => opt_le (mean2 (map col (of_genre h movies)))
                            (mean2 (map col (of_genre g movies)))) gs.
Proof.
  set (joined := Sql.movies_with_genres movies (genre_records movies)).
  set (keys := unique (map (fun r : movie * (Z * string) => r.2.2) joined)).
  set (o := Sql.desc (fun g => Sql.real (mean2 (map col (of_genre g movies))))).
  exists (Sql.order_by o keys). split; [|split; [|split]].
  - unfold Sql.group_by. rewrite map_map. simpl.
    rewrite (map_ext_in _
               (fun g => [Text g; Sql.rounded_avg (map col (of_genre g movies))])).
    + by rewrite order_by_map.
    + intros g _. do 2 f_equal.
      rewrite <- (joined_of_genre movies g) by done.
      change (?f <$> ?l) with (map f l). by rewrite map_map.
  - rewrite order_by_Permutation. apply NoDup_unique.
  - intros g. rewrite order_by_Permutation. unfold keys.
    rewrite elem_of_unique. by apply joined_genres.
  - apply (order_by_StronglySorted o).
    + intros a b.
      apply (desc_optional_precedes (fun g => mean2 (map col (of_genre g movies)))).
    + intros a b. apply opt_le_total.
    + intros a b c Hab Hbc.
      by apply opt_le_trans with (mean2 (map col (of_genre b movies))).
Qed.

End GenreAverages.




